(** * Food-Order Hub: owner dashboard and customer order history

    A shallow embedding of the handlers of
    [src/components/orders/RestaurantOwnerDashboard.jsx] (registration,
    restaurant visibility polling, order queue, status filter) and of
    [components/orders/OrderHistory.jsx] (image resolution and per-restaurant
    segmentation), with the properties of the design document proved about
    them.

    Conventions of the embedding.
    - A JavaScript string is a [string] whose characters are code units
      below 256.
    - [null] and [undefined] are [None]; a value is truthy when it is
      [Some] non-empty string, or any object.
    - The hosted store (auth, tables, storage) is outside the repository: a
      handler receives the store's answers as inputs and records the calls
      it issues in a trace.
    - Amounts ([price], [quantity]) are JavaScript numbers; the handlers
      only add, multiply and format them, so the embedding is written over
      the interface [JSNumber], with integers and binary64 numbers as
      instances. *)

From Stdlib Require Import ZArith Ascii String List Permutation Sorted Lia.
From Stdlib Require Import Floats.PrimFloat.
From stdpp Require Import base option list strings gmap pretty.

Open Scope string_scope.
Open Scope list_scope.

(** ** JavaScript strings *)

Module JsString.

(** Code units that [String.prototype.trim] removes (white space and line
    terminators below 256): TAB, LF, VT, FF, CR, SPACE, NBSP. *)
Definition is_ws (c : ascii) : bool :=
  let n := nat_of_ascii c in
  (Nat.eqb n 9 || Nat.eqb n 10 || Nat.eqb n 11 || Nat.eqb n 12 ||
   Nat.eqb n 13 || Nat.eqb n 32 || Nat.eqb n 160)%bool.

Fixpoint trimStart (s : string) : string :=
  match s with
  | EmptyString => EmptyString
  | String c s' => if is_ws c then trimStart s' else s
  end.

Fixpoint trimEnd (s : string) : string :=
  match s with
  | EmptyString => EmptyString
  | String c s' =>
      match trimEnd s' with
      | EmptyString => if is_ws c then EmptyString else String c EmptyString
      | t => String c t
      end
  end.

(** [s.trim()] *)
Definition trim (s : string) : string := trimEnd (trimStart s).

(** ASCII lower-casing, the only folding the [i] flag performs on the
    letters of [http] and [https]. *)
Definition lower (c : ascii) : ascii :=
  let n := nat_of_ascii c in
  if (Nat.leb 65 n && Nat.leb n 90)%bool then ascii_of_nat (n + 32) else c.

(** [p] is a prefix of [s] up to ASCII case. *)
Fixpoint prefix_ci (p s : string) : bool :=
  match p, s with
  | EmptyString, _ => true
  | String a p', String b s' =>
      (Ascii.eqb (lower a) (lower b) && prefix_ci p' s')%bool
  | String _ _, EmptyString => false
  end.

(** [/^https?:\/\//i.test(s)] *)
Definition test_http (s : string) : bool :=
  (prefix_ci "http://" s || prefix_ci "https://" s)%bool.

(** [s.startsWith(p)] *)
Definition startsWith (s p : string) : bool := String.prefix p s.

(** [s.replace(/^\/+/, '')] *)
Fixpoint strip_leading_slashes (s : string) : string :=
  match s with
  | String "/" s' => strip_leading_slashes s'
  | _ => s
  end.

(** A string that does not begin with white space. *)
Definition starts_clean (s : string) : Prop :=
  match s with
  | EmptyString => True
  | String c _ => is_ws c = false
  end.

(** Truthiness of a nullable string. *)
Definition truthy (v : option string) : bool :=
  match v with
  | Some EmptyString | None => false
  | Some _ => true
  end.

(** [a || b] on nullable strings. *)
Definition or_else (a b : option string) : option string :=
  if truthy a then a else b.







End JsString.

(** ** JavaScript numbers *)

(** The arithmetic the handlers apply to amounts: the literal [0], [a + b]
    and [a * b]. *)
Class JSNumber (num : Type) := {
  num_zero : num;
  num_add : num -> num -> num;
  num_mul : num -> num -> num
}.

(** [x.toFixed(2)] *)
Class ToFixed (num : Type) := toFixed2 : num -> string.

(** Arithmetic in which sums may be regrouped and reordered, as on amounts
    that are integers (binary floating point does not have this in
    general). *)
Class ExactArith (num : Type) `{JSNumber num} : Prop := {
  num_add_comm : forall a b : num, num_add a b = num_add b a;
  num_add_assoc : forall a b c : num, num_add a (num_add b c) = num_add (num_add a b) c;
  num_add_zero_l : forall a : num, num_add num_zero a = a
}.

(** Integer amounts. *)
#[export] Instance Z_JSNumber : JSNumber Z := {|
  num_zero := 0%Z;
  num_add := Z.add;
  num_mul := Z.mul
|}.

#[export] Instance Z_ToFixed : ToFixed Z := fun z => pretty z +:+ ".00".

#[export] Instance Z_ExactArith : ExactArith Z.
Proof. split; simpl; intros; lia. Qed.

(** Amounts as the browser holds them: IEEE 754 binary64, rounding to
    nearest. *)
#[export] Instance binary64_JSNumber : JSNumber PrimFloat.float := {|
  num_zero := PrimFloat.zero;
  num_add := PrimFloat.add;
  num_mul := PrimFloat.mul
|}.

(** The sum of a list of amounts, from [0], left to right. *)
Definition num_sum {num} `{JSNumber num} (l : list num) : num :=
  fold_left num_add l num_zero.

(** ** Exceptions *)

(** The outcome of code that may throw. *)
Inductive result (E A : Type) : Type :=
| Ok (a : A)
| Raised (e : E).

Arguments Ok {E A} a.
Arguments Raised {E A} e.

Definition bind_result {E A B} (r : result E A) (k : A -> result E B)
  : result E B :=
  match r with
  | Ok a => k a
  | Raised e => Raised e
  end.

(** [reduce] with a callback that may throw. *)
Fixpoint reduce_result {E A B} (f : B -> A -> result E B) (l : list A) (acc : B)
  : result E B :=
  match l with
  | [] => Ok acc
  | x :: l' => bind_result (f acc x) (reduce_result f l')
  end.

(** [Promise.all(l.map(f))]: all the results, or the first rejection. *)
Fixpoint all_results {E A B} (f : A -> result E B) (l : list A)
  : result E (list B) :=
  match l with
  | [] => Ok []
  | x :: l' =>
      bind_result (f x) (fun y =>
      bind_result (all_results f l') (fun ys => Ok (y :: ys)))
  end.

(** A [TypeError] raised by the runtime (reading a property of
    [undefined]). *)
Inductive type_error := TypeError.

(** ** Lists without repetition *)

(** The elements of a list, each once, in order of first appearance (the
    order in which a [Set] or the keys of an object literal keep them). *)
Definition add_once {A} `{EqDecision A} (seen : list A) (x : A) : list A :=
  if bool_decide (x ∈ seen) then seen else seen ++ [x].

Definition distinct {A} `{EqDecision A} (l : list A) : list A :=
  fold_left add_once l [].

(** A list of pairs in which the first component determines the second. *)
Definition functional {A B : Type} (l : list (A * B)) : Prop :=
  forall a b b', (a, b) ∈ l -> (a, b') ∈ l -> b = b'.

(** ** Plain JavaScript objects used as dictionaries *)

Module JsObject.

(** The property names every object literal inherits from
    [Object.prototype]; each of them is bound to a function (or, for
    [__proto__], to the prototype itself), hence truthy. *)
Definition prototype_keys : list string :=
  ["constructor"; "__defineGetter__"; "__defineSetter__"; "hasOwnProperty";
   "__lookupGetter__"; "__lookupSetter__"; "isPrototypeOf";
   "propertyIsEnumerable"; "toString"; "valueOf"; "__proto__";
   "toLocaleString"].

Definition inherited (k : string) : bool := bool_decide (k ∈ prototype_keys).

Definition digit_value (c : ascii) : option N :=
  let n := N_of_ascii c in
  if (N.leb 48 n && N.leb n 57)%bool then Some (n - 48)%N else None.

Fixpoint digits_value (s : string) (acc : N) : option N :=
  match s with
  | EmptyString => Some acc
  | String c s' =>
      match digit_value c with
      | Some d => digits_value s' (acc * 10 + d)%N
      | None => None
      end
  end.

(** An array index: the canonical decimal form of an integer in
    [0, 2^32 - 2]. Such keys are enumerated first, in ascending order. *)
Definition array_index (k : string) : option N :=
  match k with
  | EmptyString => None
  | String c rest =>
      if (Ascii.eqb c "0" && negb (String.eqb rest ""))%bool then None
      else
        match digits_value k 0 with
        | Some n => if (n <=? 4294967294)%N then Some n else None
        | None => None
        end
  end.

Section Dictionary.
Context {V : Type}.

(** The own properties of an object created by [{}], in creation order. *)
Definition obj := list (string * V).

(** The own property [k], if any. *)
Fixpoint own (o : obj) (k : string) : option V :=
  match o with
  | [] => None
  | (k', v) :: o' => if String.eqb k' k then Some v else own o' k
  end.

(** [!o[k]] when every own property holds an object: the lookup also sees
    the inherited members. *)
Definition lacks (o : obj) (k : string) : bool :=
  match own o k with
  | Some _ => false
  | None => negb (inherited k)
  end.

(** [o[k] = v] for a name that is not yet an own property. *)
Definition define (o : obj) (k : string) (v : V) : obj := o ++ [(k, v)].

(** In-place change of the object held by the own property [k]. *)
Fixpoint update (o : obj) (k : string) (f : V -> V) : obj :=
  match o with
  | [] => []
  | (k', v) :: o' =>
      if String.eqb k' k then (k', f v) :: o' else (k', v) :: update o' k f
  end.

Fixpoint insert_by_index (e : N * V) (l : list (N * V)) : list (N * V) :=
  match l with
  | [] => [e]
  | e' :: l' =>
      if (fst e <=? fst e')%N then e :: l else e' :: insert_by_index e l'
  end.

(** The properties whose name is an array index, tagged and sorted. *)
Fixpoint index_properties (o : obj) : list (N * V) :=
  match o with
  | [] => []
  | (k, v) :: o' =>
      match array_index k with
      | Some n => insert_by_index (n, v) (index_properties o')
      | None => index_properties o'
      end
  end.

Fixpoint named_properties (o : obj) : list V :=
  match o with
  | [] => []
  | (k, v) :: o' =>
      match array_index k with
      | Some _ => named_properties o'
      | None => v :: named_properties o'
      end
  end.

(** [Object.values(o)]: array-index names in ascending numeric order, then
    the other names in creation order. *)
Definition values (o : obj) : list V :=
  map snd (index_properties o) ++ named_properties o.

End Dictionary.

Arguments obj V : clear implicits.

End JsObject.

(** ** Customer order history ([components/orders/OrderHistory.jsx]) *)

Module OrderHistory.
Import JsString.

(** *** Image references and the storage client *)

(** An image reference given as an object (a JSON column): the properties
    [resolveImage] looks at. *)
Record image_object := {
  io_url : option string;
  io_path : option string;
  io_publicUrl : option string;
  io_public_url : option string;
  io_publicURL : option string
}.

(** What an [image_url] column may hold. *)
Inductive image_ref :=
| Absent                          (* null or undefined *)
| Str (s : string)
| Obj (o : image_object).

(** Truthiness of a reference: an object is always truthy. *)
Definition ref_truthy (r : image_ref) : bool :=
  match r with
  | Absent => false
  | Str s => truthy (Some s)
  | Obj _ => true
  end.

(** [a || b] on references. *)
Definition ref_or (a b : image_ref) : image_ref :=
  if ref_truthy a then a else b.

(** The [data] member of what [getPublicUrl] returns. *)
Record public_url_data := {
  pd_publicUrl : option string;
  pd_publicURL : option string;
  pd_public_url : option string;
  pd_url : option string
}.

(** One call [supabase.storage.from(bucket).getPublicUrl(key)]: it raises,
    or returns an object whose [data] may be missing. *)
Inductive probe_result :=
| Throws
| Returns (data : option public_url_data).

(** The storage client: bucket, then key. *)
Definition storage := string -> string -> probe_result.

Definition bucketsToTry : list string := ["food-images"; "restaurant-images"].

(** [data?.publicUrl || data?.publicURL || data?.public_url || data?.url] *)
Definition data_public_url (data : option public_url_data) : option string :=
  or_else (or_else (or_else (data ≫= pd_publicUrl) (data ≫= pd_publicURL))
                   (data ≫= pd_public_url))
          (data ≫= pd_url).

(** The body of the [for (const bucket of bucketsToTry)] loop: a probe that
    raises is caught and the loop goes on. *)
Fixpoint probe_buckets (st : storage) (key : string) (buckets : list string)
  : option string :=
  match buckets with
  | [] => None
  | bucket :: rest =>
      match st bucket key with
      | Throws => probe_buckets st key rest
      | Returns data =>
          let publicUrl := data_public_url data in
          if truthy publicUrl then publicUrl else probe_buckets st key rest
      end
  end.

(** [value.url || value.path || value.publicUrl || value.public_url ||
    value.publicURL || null] *)
Definition object_value (o : image_object) : option string :=
  or_else (or_else (or_else (or_else (or_else (io_url o) (io_path o))
                                     (io_publicUrl o))
                            (io_public_url o))
                   (io_publicURL o))
          None.

(** The address test of [resolveImage], on the trimmed value. *)
Definition is_address (value : string) : bool :=
  (test_http value || startsWith value "data:")%bool.

Definition resolveImage (st : storage) (raw : image_ref) : option string :=
  if negb (ref_truthy raw) then None
  else
    let value :=
      match raw with
      | Obj o => object_value o
      | Str s => Some s
      | Absent => None
      end in
    if negb (truthy value) then None
    else
      match value with
      | None => None
      | Some v =>
          let value := trim v in
          if is_address value then Some value
          else
            let key := strip_leading_slashes value in
            probe_buckets st key bucketsToTry
      end.

(** A resolved image read back as a reference. *)
Definition as_ref (resolved : option string) : image_ref :=
  match resolved with
  | None => Absent
  | Some u => Str u
  end.

(** What one probe contributes: its public address, if it returns one. *)
Definition probe_yield (st : storage) (bucket key : string) : option string :=
  match st bucket key with
  | Throws => None
  | Returns data =>
      if truthy (data_public_url data) then data_public_url data else None
  end.

(** The storage hands out addresses: whatever a probe yields is an http,
    https or data address without surrounding white space. *)
Definition yields_addresses (st : storage) : Prop :=
  forall bucket key u, probe_yield st bucket key = Some u ->
    is_address u = true /\ trim u = u.

(** *** Orders, items and segments *)

Section Segmentation.
Context {num : Type} `{JSNumber num}.

(** The nested [restaurants ( name, image_url )]. *)
Record restaurant := {
  r_name : option string;
  r_image_url : image_ref
}.

(** The nested [food_items ( restaurant_id, food_item_id, image_url,
    restaurants (...) )]. *)
Record food_item := {
  fi_restaurant_id : option string;
  fi_food_item_id : option string;
  fi_image_url : image_ref;
  fi_restaurants : option restaurant
}.

(** One line of [order_items]. *)
Record order_item := {
  oi_food_item_id : option string;
  oi_name : string;
  oi_price : num;
  oi_quantity : num;
  oi_food_items : option food_item;
  oi_image_url : image_ref
}.

(** A row of [orders] with its nested [order_items]. *)
Record order := {
  id : string;
  user_id : string;
  status : string;
  created_at : string;
  order_items : option (list order_item)
}.

(** An entry of [restaurantGroups]. *)
Record group := {
  g_restaurantName : string;
  g_restaurantId : option string;
  g_items : list order_item;
  g_subtotal : num
}.

(** A display segment: the order ([...order]) and the members that the
    segment adds or overrides. *)
Record segment := {
  seg_order : order;
  displayId : string;
  restaurantName : string;
  seg_order_items : list order_item;
  total : num;
  createdAt : string;
  isSegment : bool
}.

Variable st : storage.

(** [new Date(created_at).toLocaleDateString('en-US', ...)] *)
Variable toLocaleDateString : string -> string.

(** [{ ...item, image_url }] with
    [raw = item.food_items?.image_url || item.image_url || null]. *)
Definition enrich (item : order_item) : order_item :=
  let raw :=
    ref_or (ref_or (match oi_food_items item with
                    | Some fi => fi_image_url fi
                    | None => Absent
                    end)
                   (oi_image_url item))
           Absent in
  let image_url := resolveImage st raw in
  {| oi_food_item_id := oi_food_item_id item;
     oi_name := oi_name item;
     oi_price := oi_price item;
     oi_quantity := oi_quantity item;
     oi_food_items := oi_food_items item;
     oi_image_url := as_ref image_url |}.

(** [item.food_items?.restaurants?.name] when it is truthy: the key under
    which the item is grouped. *)
Definition restaurant_key (item : order_item) : option string :=
  match oi_food_items item ≫= fi_restaurants with
  | Some restaurant =>
      if truthy (r_name restaurant) then r_name restaurant else None
  | None => None
  end.

(** [item.food_items?.restaurant_id] *)
Definition item_restaurant_id (item : order_item) : option string :=
  oi_food_items item ≫= fi_restaurant_id.

(** [item.price * item.quantity] *)
Definition item_total (item : order_item) : num :=
  num_mul (oi_price item) (oi_quantity item).

(** [acc[restaurantId].items.push(item); acc[restaurantId].subtotal +=
    itemTotal] *)
Definition add_item (item : order_item) (g : group) : group :=
  let itemTotal := item_total item in
  {| g_restaurantName := g_restaurantName g;
     g_restaurantId := g_restaurantId g;
     g_items := g_items g ++ [item];
     g_subtotal := num_add (g_subtotal g) itemTotal |}.

(** The callback of [enrichedItems.reduce(..., {})]. When the key is a name
    inherited from [Object.prototype], [acc[restaurantId]] is the inherited
    member, no group is created, and reading [.items.push] of it raises. *)
Definition group_step (acc : JsObject.obj group) (item : order_item)
  : result type_error (JsObject.obj group) :=
  match restaurant_key item with
  | None => Ok acc
  | Some restaurantId =>
      let acc :=
        if JsObject.lacks acc restaurantId then
          JsObject.define acc restaurantId
            {| g_restaurantName := restaurantId;
               g_restaurantId := item_restaurant_id item;
               g_items := [];
               g_subtotal := num_zero |}
        else acc in
      match JsObject.own acc restaurantId with
      | Some _ => Ok (JsObject.update acc restaurantId (add_item item))
      | None => Raised TypeError
      end
  end.

Definition restaurantGroups (enrichedItems : list order_item)
  : result type_error (JsObject.obj group) :=
  reduce_result group_step enrichedItems [].

(** How a template literal prints a nullable identifier. *)
Definition id_text (v : option string) : string := default "null" v.

(** The callback of [Object.values(restaurantGroups).map(...)]. *)
Definition segment_of (o : order) (g : group) : segment :=
  {| seg_order := o;
     displayId := id o +:+ "-" +:+ id_text (g_restaurantId g);
     restaurantName := g_restaurantName g;
     seg_order_items := g_items g;
     total := g_subtotal g;
     createdAt := toLocaleDateString (created_at o);
     isSegment := true |}.

(** [(order.order_items || []).map(...)] *)
Definition enrichedItems (o : order) : list order_item :=
  map enrich (default [] (order_items o)).

(** The callback of [fetchedOrders.map(async order => ...)]. *)
Definition segmentOrder (o : order) : result type_error (list segment) :=
  bind_result (restaurantGroups (enrichedItems o)) (fun groups =>
  let restaurantOrderSegments := map (segment_of o) (JsObject.values groups) in
  Ok (if Nat.ltb 0 (length restaurantOrderSegments)
      then restaurantOrderSegments else [])).

(** [(await Promise.all(fetchedOrders.map(...))).flat()] *)
Definition groupedDisplayOrders (fetchedOrders : list order)
  : result type_error (list segment) :=
  bind_result (all_results segmentOrder fetchedOrders) (fun l => Ok (concat l)).

(** *** Vocabulary of the segmentation properties *)

(** An item whose restaurant can be determined. *)
Definition resolvable (item : order_item) : Prop :=
  is_Some (restaurant_key item).

(** The items grouped under the name [k], in their order. *)
Definition items_named (k : string) (items : list order_item)
  : list order_item :=
  filter (fun item => restaurant_key item = Some k) items.

(** The running sum [0 + t1 + t2 + ...] of the item totals. *)
Definition subtotal_of (items : list order_item) : num :=
  fold_left (fun sum item => num_add sum (item_total item)) items num_zero.

(** The restaurant names of the items, each once, in order of first
    appearance. *)
Definition restaurant_names (items : list order_item) : list string :=
  distinct (omap restaurant_key items).

(** The restaurant identifiers of the resolvable items, each once. *)
Definition restaurant_ids (items : list order_item) : list (option string) :=
  distinct (map item_restaurant_id (filter resolvable items)).

(** The group that the reduction builds for the name [k]. *)
Definition group_for (L : list order_item) (k : string) : group :=
  {| g_restaurantName := k;
     g_restaurantId := head (items_named k L) ≫= item_restaurant_id;
     g_items := items_named k L;
     g_subtotal := subtotal_of (items_named k L) |}.

(** The dictionary that the reduction builds. *)
Definition grouped (L : list order_item) : JsObject.obj group :=
  map (fun k => (k, group_for L k)) (restaurant_names L).

(** The segment that an order shows for the name [k]. *)
Definition segment_for (o : order) (k : string) : segment :=
  segment_of o (group_for (enrichedItems o) k).

(** No restaurant name collides with a member of [Object.prototype]. *)
Definition names_safe (items : list order_item) : Prop :=
  forall item k, item ∈ items -> restaurant_key item = Some k ->
    JsObject.inherited k = false.

(** No own property of the accumulator bears an inherited name. *)
Definition prototype_free (acc : JsObject.obj group) : Prop :=
  forall k, JsObject.inherited k = true -> JsObject.own acc k = None.

(** Every restaurant identifier carries one name. *)
Definition names_by_id (items : list order_item) : Prop :=
  forall i j, i ∈ items -> j ∈ items -> resolvable i -> resolvable j ->
    item_restaurant_id i = item_restaurant_id j ->
    restaurant_key i = restaurant_key j.

End Segmentation.

End OrderHistory.

(** ** The hosted store, seen from the handlers *)

Module Store.

(** What the client reports in [error]: PostgREST's code and a message. *)
Record store_error := {
  code : string;
  message : string
}.

(** The code of "no (or several) rows" for a [.single()] read. *)
Definition PGRST116 : string := "PGRST116".

(** The answer to a call: [{ data, error }] with [error] set, or the data. *)
Definition answer (A : Type) : Type := result store_error A.

(** A row of [owners]. *)
Record owner_row := {
  ow_id : string;
  ow_contact_name : string;
  ow_phone_number : option string
}.

(** A row of [restaurants]. *)
Record restaurant_row := {
  rs_id : string;
  rs_name : string;
  rs_address_street : option string;
  rs_address_barangay : string;
  rs_category_id : string;
  rs_image_url : option string;
  rs_owner_id : string;
  rs_is_open : bool
}.

(** The object passed to [from('restaurants').insert(...)]. *)
Record restaurant_insert := {
  ri_name : string;
  ri_address_street : string;
  ri_address_barangay : string;
  ri_category_id : string;
  ri_image_url : option string;
  ri_owner_id : string;
  ri_is_open : bool
}.

(** The calls that the handlers issue. *)
Inductive request :=
| SignInWithPassword (email password : string)
| SignUp (email password user_type : string)
| InsertOwner (id contact_name : string) (phone_number : option string)
| InsertRestaurant (row : restaurant_insert)
| SelectOwnerById (id : string)                  (* .eq('id', id).single() *)
| SelectRestaurantByOwner (owner_id : string)    (* .eq('owner_id', id).single() *)
| SelectOrderItemsOfRestaurant (restaurant_id : string)
| SelectOrdersIn (ids : list string)             (* .in('id', ids).order('created_at', desc) *)
| UpdateOrderStatus (order_id status : string).

(** The callbacks that the handlers hand to [setTimeout]. *)
Inductive callback :=
| SetIsLogin (b : bool)              (* () => setIsLogin(true) *)
| SetRestaurantLoaded (b : bool).    (* () => { setRestaurantLoaded(false); } *)

#[export] Instance callback_eq_dec : EqDecision callback.
Proof. solve_decision. Defined.

(** What a handler does that can be observed from outside its state. *)
Inductive event :=
| Request (r : request)
| Sleep (ms : nat)              (* await new Promise(r => setTimeout(r, ms)) *)
| SetTimeout (ms : nat) (f : callback)   (* a timer left running *)
| ClearTimeout (f : callback)
| ConsoleError (label error_message : string)
| ConsoleLog (text : string)
| OnSuccess (user : option string).      (* the [onSuccess] callback *)

Definition is_write (e : event) : bool :=
  match e with
  | Request (InsertOwner _ _ _) | Request (InsertRestaurant _)
  | Request (UpdateOrderStatus _ _) => true
  | _ => false
  end.

Definition is_table_call (e : event) : bool :=
  match e with
  | Request (SignInWithPassword _ _) | Request (SignUp _ _ _) => false
  | Request _ => true
  | _ => false
  end.

End Store.

(** ** The order queue of the owner dashboard
    ([RestaurantOwnerDashboard.jsx], [loadOrders] and [updateOrderStatus]) *)

Module OrderQueue.
Import Store.

Section OrderQueue.
Context {num : Type} `{JSNumber num} `{ToFixed num}.

(** A row of the [order_items] read: [order_id, name, price, quantity,
    food_items!inner ( restaurant_id )]. *)
Record line_row := {
  ln_order_id : string;
  ln_name : string;
  ln_price : num;
  ln_quantity : num;
  ln_restaurant_id : string
}.

(** A row of [orders] ([select('*')]): the columns the dashboard uses and
    the others. *)
Record order_row := {
  or_id : string;
  or_status : string;
  or_created_at : Z;
  or_columns : list (string * string)
}.

(** An element of [relevantItems]. The read does not select
    [food_item_id], so [i.food_item_id] is [undefined]. *)
Record queue_item := {
  qi_food_item_id : option string;
  qi_name : string;
  qi_price : num;
  qi_quantity : num
}.

(** An element of [fullOrders]: [{ ...order, order_items,
    restaurant_subtotal }]. *)
Record queue_order := {
  qo_order : order_row;
  qo_order_items : list queue_item;
  qo_restaurant_subtotal : string
}.

(** The state the two handlers touch. *)
Record queue_state := {
  orders : list queue_order;
  loading : bool
}.

Definition setOrders (l : list queue_order) (s : queue_state) : queue_state :=
  {| orders := l; loading := loading s |}.

Definition setLoading (b : bool) (s : queue_state) : queue_state :=
  {| orders := orders s; loading := b |}.

(** [items.filter(i => i.order_id === order.id).map(i => ({...}))] *)
Definition relevantItems (items : list line_row) (order : order_row)
  : list queue_item :=
  map (fun i => {| qi_food_item_id := None;
                   qi_name := ln_name i;
                   qi_price := ln_price i;
                   qi_quantity := ln_quantity i |})
      (filter (fun i => ln_order_id i = or_id order) items).

(** [relevantItems.reduce((sum, item) => sum + (item.price * item.quantity), 0)] *)
Definition restaurantSubtotal (l : list queue_item) : num :=
  fold_left (fun sum item => num_add sum (num_mul (qi_price item) (qi_quantity item)))
            l num_zero.

(** The callback of [ordersData.map(order => ...)]. *)
Definition fullOrder (items : list line_row) (order : order_row) : queue_order :=
  let relevant := relevantItems items order in
  {| qo_order := order;
     qo_order_items := relevant;
     qo_restaurant_subtotal := toFixed2 (restaurantSubtotal relevant) |}.

(** [[...new Set(items.map(i => i.order_id))]] *)
Definition uniqueOrderIds (items : list line_row) : list string :=
  distinct (map ln_order_id items).

(** [loadOrders]. [items_answer] and [orders_answer] are what the store
    answers to the first and to the second read; the second is consulted
    only when the read is issued. The result is the new state and the
    events in order. *)
Definition loadOrders (myRestaurant : option restaurant_row)
    (items_answer : answer (list line_row))
    (orders_answer : answer (list order_row))
    (s : queue_state) : queue_state * list event :=
  match myRestaurant with
  | None => (s, [])
  | Some restaurant =>
      let s := setLoading true s in
      let fetch_items := Request (SelectOrderItemsOfRestaurant (rs_id restaurant)) in
      match items_answer with
      | Raised itemsError =>
          (setLoading false s,
           [fetch_items; ConsoleError "Error loading orders:" (message itemsError)])
      | Ok items =>
          let ids := uniqueOrderIds items in
          if Nat.eqb (length ids) 0 then
            (setLoading false (setLoading false (setOrders [] s)), [fetch_items])
          else
            let fetch_orders := Request (SelectOrdersIn ids) in
            match orders_answer with
            | Raised ordersError =>
                (setLoading false s,
                 [fetch_items; fetch_orders;
                  ConsoleError "Error loading orders:" (message ordersError)])
            | Ok ordersData =>
                let fullOrders := map (fullOrder items) ordersData in
                (setLoading false (setOrders fullOrders s),
                 [fetch_items; fetch_orders])
            end
      end
  end.

(** [{ ...o, status: newStatus }] *)
Definition with_status (newStatus : string) (o : queue_order) : queue_order :=
  {| qo_order := {| or_id := or_id (qo_order o);
                    or_status := newStatus;
                    or_created_at := or_created_at (qo_order o);
                    or_columns := or_columns (qo_order o) |};
     qo_order_items := qo_order_items o;
     qo_restaurant_subtotal := qo_restaurant_subtotal o |}.

Definition double_quote : string := String (ascii_of_nat 34) EmptyString.

(** [orders.map(o => o.id === orderId ? { ...o, status: newStatus } : o)] *)
Definition marked (orderId newStatus : string) (orders : list queue_order)
  : list queue_order :=
  map (fun o => if decide (or_id (qo_order o) = orderId)
                then with_status newStatus o else o) orders.

(** [updateOrderStatus]. The function is created by [useCallback] with the
    dependency [[orders]]: the [orders] of its body is the list of the
    render that created it, [captured], which is the list on display when
    the button is clicked. [write_answer] is the store's answer to the
    update and [s] the state of the component when that answer arrives. *)
Definition updateOrderStatus (captured : list queue_order)
    (orderId newStatus : string) (write_answer : answer unit) (s : queue_state)
  : queue_state * list event :=
  let write := Request (UpdateOrderStatus orderId newStatus) in
  match write_answer with
  | Raised error =>
      (s, [write;
           ConsoleError "Failed to update status:" (message error);
           ConsoleLog ("Failed to update status. Error: " +:+ message error +:+
                       ". Please check RLS policies on " +:+ double_quote +:+
                       "orders" +:+ double_quote +:+ ".")])
  | Ok _ => (setOrders (marked orderId newStatus captured) s, [write])
  end.

(** The amount of a fetched line. *)
Definition line_total (i : line_row) : num :=
  num_mul (ln_price i) (ln_quantity i).

(** The fetched lines of an order. *)
Definition lines_of (items : list line_row) (order_id : string)
  : list line_row :=
  filter (fun i => ln_order_id i = order_id) items.

(** *** What the store owes to the second read *)

(** [rows] answers [.in('id', ids).order('created_at', { ascending: false })]
    over the rows of [orders] that the session may read: the rows whose id
    is listed, latest first. *)
Definition answers_orders_in (table : list order_row) (ids : list string)
    (rows : list order_row) : Prop :=
  rows ≡ₚ filter (fun r => or_id r ∈ ids) table /\
  Sorted (fun a b => (or_created_at b <= or_created_at a)%Z) rows.

End OrderQueue.

End OrderQueue.

(** ** Handlers: state, events and exceptions *)

Module Handler.
Import Store.

(** An [async] handler over a component state [S]: it leaves a state, the
    events it produced, and a value or the message of what it threw. *)
Definition handler (S A : Type) : Type :=
  S -> S * list event * result string A.

Definition ret {S A} (a : A) : handler S A := fun s => (s, [], Ok a).

Definition bind {S A B} (m : handler S A) (k : A -> handler S B)
  : handler S B :=
  fun s =>
    match m s with
    | (s1, t1, Ok a) =>
        match k a s1 with
        | (s2, t2, r) => (s2, t1 ++ t2, r)
        end
    | (s1, t1, Raised e) => (s1, t1, Raised e)
    end.

Definition emit {S} (e : event) : handler S unit := fun s => (s, [e], Ok tt).

Definition throw {S A} (msg : string) : handler S A :=
  fun s => (s, [], Raised msg).

(** A state setter. *)
Definition set {S} (f : S -> S) : handler S unit := fun s => (f s, [], Ok tt).

(** [try { body } catch (e) { on_error(e) } finally { at_end }] *)
Definition try_catch_finally {S} (body : handler S unit)
    (on_error : string -> handler S unit) (at_end : handler S unit)
  : handler S unit :=
  fun s =>
    match body s with
    | (s1, t1, Ok _) =>
        match at_end s1 with
        | (s2, t2, r) => (s2, t1 ++ t2, r)
        end
    | (s1, t1, Raised e) =>
        match bind (on_error e) (fun _ => at_end) s1 with
        | (s2, t2, r) => (s2, t1 ++ t2, r)
        end
    end.

End Handler.

Declare Scope handler_scope.
Delimit Scope handler_scope with handler.
Notation "x <- m ;; k" := (Handler.bind m (fun x => k))
  (at level 100, m at next level, right associativity) : handler_scope.
Notation "m ;; k" := (Handler.bind m (fun _ => k))
  (at level 100, right associativity) : handler_scope.

(** ** Owner sign-in and registration
    ([RestaurantOwnerDashboard.jsx], [OwnerAuthPage]) *)

Module Registration.
Import JsString Store Handler.

(** What the page shows in its green box. *)
Inductive notice :=
| CheckYourEmail                      (* 'Account created! Please check your
                                         email to confirm before logging in.' *)
| Registered (restaurant_name : string).   (* 'Success! Restaurant "name"
                                              registered. Redirecting...' *)

(** The state of [OwnerAuthPage]. *)
Record auth_page := {
  email : string;
  password : string;
  ownerName : string;
  phoneNumber : string;
  restaurantName : string;
  addressStreet : string;
  addressBarangay : string;
  restaurantCategoryId : string;
  restaurantImageUrl : string;
  isLogin : bool;
  error : string;
  loading : bool;
  successMessage : option notice
}.

Definition setError (e : string) (p : auth_page) : auth_page :=
  {| email := email p; password := password p; ownerName := ownerName p;
     phoneNumber := phoneNumber p; restaurantName := restaurantName p;
     addressStreet := addressStreet p; addressBarangay := addressBarangay p;
     restaurantCategoryId := restaurantCategoryId p;
     restaurantImageUrl := restaurantImageUrl p; isLogin := isLogin p;
     error := e; loading := loading p; successMessage := successMessage p |}.

Definition setLoading (b : bool) (p : auth_page) : auth_page :=
  {| email := email p; password := password p; ownerName := ownerName p;
     phoneNumber := phoneNumber p; restaurantName := restaurantName p;
     addressStreet := addressStreet p; addressBarangay := addressBarangay p;
     restaurantCategoryId := restaurantCategoryId p;
     restaurantImageUrl := restaurantImageUrl p; isLogin := isLogin p;
     error := error p; loading := b; successMessage := successMessage p |}.

Definition setSuccessMessage (m : option notice) (p : auth_page) : auth_page :=
  {| email := email p; password := password p; ownerName := ownerName p;
     phoneNumber := phoneNumber p; restaurantName := restaurantName p;
     addressStreet := addressStreet p; addressBarangay := addressBarangay p;
     restaurantCategoryId := restaurantCategoryId p;
     restaurantImageUrl := restaurantImageUrl p; isLogin := isLogin p;
     error := error p; loading := loading p; successMessage := m |}.

Definition setIsLogin (b : bool) (p : auth_page) : auth_page :=
  {| email := email p; password := password p; ownerName := ownerName p;
     phoneNumber := phoneNumber p; restaurantName := restaurantName p;
     addressStreet := addressStreet p; addressBarangay := addressBarangay p;
     restaurantCategoryId := restaurantCategoryId p;
     restaurantImageUrl := restaurantImageUrl p; isLogin := b;
     error := error p; loading := loading p; successMessage := successMessage p |}.

(** [authResult.data]: the user's id and the session, [None] for [null]. *)
Record auth_data := {
  ad_user : option string;
  ad_session : option string
}.

(** What the services answer during one run of [handleAuth]. The restaurant
    insert may be issued several times: its answers are numbered from 1. *)
Record answers := {
  signIn_answer : answer auth_data;
  signUp_answer : answer auth_data;
  owner_insert_answer : option store_error;
  restaurant_insert_answer : nat -> option store_error;
  verify_answer : answer (option (string * string))   (* id, name *)
}.

(** [!s] on a string. *)
Definition blank (s : string) : bool := negb (truthy (Some s)).

(** [s || null] on a string. *)
Definition or_null (s : string) : option string :=
  if truthy (Some s) then Some s else None.

Open Scope handler_scope.

(** The [while (retries > 0 && !restaurantCreated)] loop. *)
Fixpoint insert_restaurant (w : answers) (row : restaurant_insert)
    (retries attempt : nat) : handler auth_page unit :=
  match retries with
  | 0 => ret tt
  | S remaining =>
      emit (Request (InsertRestaurant row)) ;;
      match restaurant_insert_answer w attempt with
      | None => ret tt
      | Some dbError =>
          if Nat.ltb 1 retries then
            emit (Sleep 1000) ;;
            insert_restaurant w row remaining (S attempt)
          else
            throw ("Failed to register restaurant: " +:+ message dbError)
      end
  end.

(** The [try] block of [handleAuth]. *)
Definition authenticate (w : answers) (p : auth_page) : handler auth_page unit :=
  if isLogin p then
    emit (Request (SignInWithPassword (email p) (password p))) ;;
    match signIn_answer w with
    | Raised e => throw (message e)
    | Ok data =>
        emit (Sleep 500) ;;
        emit (OnSuccess (ad_user data))
    end
  else
    emit (Request (SignUp (email p) (password p) "restaurant_owner")) ;;
    match signUp_answer w with
    | Raised e => throw (message e)
    | Ok data =>
        match ad_user data, ad_session data with
        | Some newUser, Some _ =>
            emit (Request (InsertOwner newUser (ownerName p)
                             (or_null (phoneNumber p)))) ;;
            match owner_insert_answer w with
            | Some ownerError =>
                throw ("Failed to create owner profile: " +:+ message ownerError)
            | None =>
                insert_restaurant w
                  {| ri_name := restaurantName p;
                     ri_address_street := addressStreet p;
                     ri_address_barangay := addressBarangay p;
                     ri_category_id := restaurantCategoryId p;
                     ri_image_url := or_null (restaurantImageUrl p);
                     ri_owner_id := newUser;
                     ri_is_open := true |}
                  3 1 ;;
                emit (Sleep 1500) ;;
                emit (Request (SelectRestaurantByOwner newUser)) ;;
                match verify_answer w with
                | Ok (Some (_, name)) =>
                    set (setSuccessMessage (Some (Registered name))) ;;
                    emit (Sleep 1500) ;;
                    emit (OnSuccess (Some newUser))
                | _ =>
                    throw "Restaurant was created but could not be verified. Please try logging in again."
                end
            end
        | _, None =>
            set (setSuccessMessage (Some CheckYourEmail)) ;;
            emit (SetTimeout 3000 (SetIsLogin true))
        | None, Some _ => ret tt
        end
    end.

(** [handleAuth] *)
Definition handleAuth (w : answers) : handler auth_page unit :=
  set (setError "") ;;
  set (setSuccessMessage None) ;;
  set (setLoading true) ;;
  p <- (fun s => (s, [], Ok s)) ;;
  if (blank (email p) || blank (password p))%bool then
    set (setError "Please fill in both email and password.") ;;
    set (setLoading false)
  else if (negb (isLogin p) &&
           (blank (ownerName p) || blank (restaurantName p) ||
            blank (addressBarangay p) || blank (restaurantCategoryId p)))%bool then
    set (setError "Your Name, Restaurant Name, Barangay, and Category are required for registration.") ;;
    set (setLoading false)
  else
    try_catch_finally
      (authenticate w p)
      (fun e_message =>
         emit (ConsoleError "" e_message) ;;
         set (setError (if blank e_message
                        then "Authentication failed. Please try again."
                        else e_message)))
      (set (setLoading false)).

(** What a timer's callback does to the page when it fires. *)
Definition fire (f : callback) (p : auth_page) : auth_page :=
  match f with
  | SetIsLogin b => setIsLogin b p
  | SetRestaurantLoaded _ => p
  end.

Close Scope handler_scope.

(** *** Vocabulary of the registration properties *)

(** The form passes the two checks made before any call. *)
Definition registration_form (p : auth_page) : Prop :=
  isLogin p = false /\
  blank (email p) = false /\ blank (password p) = false /\
  blank (ownerName p) = false /\ blank (restaurantName p) = false /\
  blank (addressBarangay p) = false /\ blank (restaurantCategoryId p) = false.

Definition is_restaurant_insert (e : event) : bool :=
  match e with
  | Request (InsertRestaurant _) => true
  | _ => false
  end.

Definition is_success (e : event) : bool :=
  match e with
  | OnSuccess _ => true
  | _ => false
  end.

(** The row that registration inserts for the page [p] and the user [u]. *)
Definition restaurant_of_form (p : auth_page) (u : string) : restaurant_insert :=
  {| ri_name := restaurantName p;
     ri_address_street := addressStreet p;
     ri_address_barangay := addressBarangay p;
     ri_category_id := restaurantCategoryId p;
     ri_image_url := or_null (restaurantImageUrl p);
     ri_owner_id := u;
     ri_is_open := true |}.

(** The page once [handleAuth] has cleared the messages and raised
    [loading]. *)
Definition started (p : auth_page) : auth_page :=
  setLoading true (setSuccessMessage None (setError "" p)).

(** [n] insert attempts, one second apart. *)
Definition attempts (row : restaurant_insert) (n : nat) : list event :=
  Request (InsertRestaurant row) ::
  concat (replicate (n - 1) [Sleep 1000; Request (InsertRestaurant row)]).

End Registration.

(** ** Restaurant visibility after sign-in
    ([RestaurantOwnerDashboard.jsx], the effect around [loadMyData]) *)

Module Provisioning.
Import Store.

(** The state of the dashboard that the effect reads and writes. *)
Record dashboard := {
  user : option string;
  restaurantLoaded : bool;
  restaurantCheckAttempts : nat;
  myRestaurant : option restaurant_row;
  owner : option owner_row;
  loading : bool
}.

Definition setLoading (b : bool) (d : dashboard) : dashboard :=
  {| user := user d; restaurantLoaded := restaurantLoaded d;
     restaurantCheckAttempts := restaurantCheckAttempts d;
     myRestaurant := myRestaurant d; owner := owner d; loading := b |}.

Definition setOwner (o : option owner_row) (d : dashboard) : dashboard :=
  {| user := user d; restaurantLoaded := restaurantLoaded d;
     restaurantCheckAttempts := restaurantCheckAttempts d;
     myRestaurant := myRestaurant d; owner := o; loading := loading d |}.

Definition setMyRestaurant (r : option restaurant_row) (d : dashboard)
  : dashboard :=
  {| user := user d; restaurantLoaded := restaurantLoaded d;
     restaurantCheckAttempts := restaurantCheckAttempts d;
     myRestaurant := r; owner := owner d; loading := loading d |}.

Definition setRestaurantLoaded (b : bool) (d : dashboard) : dashboard :=
  {| user := user d; restaurantLoaded := b;
     restaurantCheckAttempts := restaurantCheckAttempts d;
     myRestaurant := myRestaurant d; owner := owner d; loading := loading d |}.

(** [setRestaurantCheckAttempts(f)] *)
Definition setRestaurantCheckAttempts (f : nat -> nat) (d : dashboard)
  : dashboard :=
  {| user := user d; restaurantLoaded := restaurantLoaded d;
     restaurantCheckAttempts := f (restaurantCheckAttempts d);
     myRestaurant := myRestaurant d; owner := owner d; loading := loading d |}.

(** The answers to the two [.single()] reads of one run of [loadMyData]. *)
Record answers := {
  owner_answer : answer (option owner_row);
  restaurant_answer : answer (option restaurant_row)
}.

(** [error.code === 'PGRST116'] *)
Definition not_found (e : store_error) : bool := String.eqb (code e) PGRST116.

(** The callback handed to [setTimeout] and its delay. *)
Definition retry_callback : callback := SetRestaurantLoaded false.
Definition retry_delay : nat := 2000.

(** The part of [loadMyData] that follows the read of [restaurants]: [d]
    is the state of the render whose effect started the run, [d2] the state
    reached so far. The result is the state after the [finally] block, the
    events, and [retryTimeout]: whether a timer was armed. *)
Definition after_restaurant_read (a : answers) (d d2 : dashboard)
  : dashboard * list event * bool :=
  match restaurant_answer a with
  | Raised restaurantError =>
      if not_found restaurantError then
        if Nat.ltb (restaurantCheckAttempts d) 3 then
          (setLoading false (setRestaurantCheckAttempts S d2),
           [ConsoleLog ("Restaurant not found, retrying... (attempt " +:+
                        pretty (restaurantCheckAttempts d + 1) +:+ "/3)");
            SetTimeout retry_delay retry_callback],
           true)
        else
          (setLoading false (setRestaurantLoaded true (setMyRestaurant None d2)),
           [], false)
      else
        (setLoading false (setRestaurantLoaded true (setMyRestaurant None d2)),
         [ConsoleError "Error fetching restaurant:" (message restaurantError)],
         false)
  | Ok restaurantData =>
      (setLoading false
         (setRestaurantLoaded true (setMyRestaurant restaurantData d2)),
       [], false)
  end.

(** One run of [loadMyData] for the signed-in user [u], from the state [d]
    of the render whose effect started it, the effect staying mounted while
    the reads are awaited. *)
Definition loadMyData (u : string) (a : answers) (d : dashboard)
  : dashboard * list event * bool :=
  let read_owner := Request (SelectOwnerById u) in
  let read_restaurant := Request (SelectRestaurantByOwner u) in
  let d1 := setLoading true d in
  let ownerData :=
    match owner_answer a with
    | Raised ownerError =>
        if negb (not_found ownerError) then Raised ownerError else Ok None
    | Ok data => Ok data
    end in
  match ownerData with
  | Raised ownerError =>
      (* thrown, and caught by the [catch] block *)
      (setLoading false (setRestaurantLoaded true (setMyRestaurant None d1)),
       [read_owner; ConsoleError "" (message ownerError)],
       false)
  | Ok ownerData =>
      match after_restaurant_read a d (setOwner ownerData d1) with
      | (d', events, retryTimeout) =>
          (d', read_owner :: read_restaurant :: events, retryTimeout)
      end
  end.

(** The dependency array [[user, restaurantLoaded, restaurantCheckAttempts]]
    differs between two renders. *)
Definition deps_changed (d d' : dashboard) : bool :=
  negb (bool_decide (user d = user d') &&
        Bool.eqb (restaurantLoaded d) (restaurantLoaded d') &&
        Nat.eqb (restaurantCheckAttempts d) (restaurantCheckAttempts d')).

(** The cleanup that the effect returned:
    [mounted = false; if (retryTimeout) clearTimeout(retryTimeout)]. *)
Definition cleanup (retryTimeout : bool) : list event :=
  if retryTimeout then [ClearTimeout retry_callback] else [].

(** The effect under React's rule for effects with dependencies: after a
    render in which a dependency changed, the cleanup of the previous run is
    called and the effect runs again. [run] starts where a run of the effect
    is due (after mount or a change of dependency) and consumes one pair of
    answers per run of [loadMyData]; it stops when the effect returns at its
    guard, when a run leaves the dependencies unchanged, or when the answers
    given are used up (the reads are then in flight). *)
Fixpoint run (answered : list answers) (d : dashboard)
  : dashboard * list event :=
  match user d, restaurantLoaded d with
  | Some u, false =>
      match answered with
      | [] => (setLoading true d, [Request (SelectOwnerById u)])
      | a :: later =>
          match loadMyData u a d with
          | (d', events, retryTimeout) =>
              if deps_changed d d' then
                match run later d' with
                | (d'', events') =>
                    (d'', events ++ cleanup retryTimeout ++ events')
                end
              else (d', events)
          end
      end
  | _, _ => (d, [])
  end.

(** What the timer's callback does if it fires. *)
Definition fire (f : callback) (d : dashboard) : dashboard :=
  match f with
  | SetRestaurantLoaded b => setRestaurantLoaded b d
  | SetIsLogin _ => d
  end.

(** *** Vocabulary of the retry properties *)

(** The dashboard just after sign-in. *)
Definition signed_in (u : string) : dashboard :=
  {| user := Some u; restaurantLoaded := false; restaurantCheckAttempts := 0;
     myRestaurant := None; owner := None; loading := true |}.

Definition no_rows : store_error :=
  {| code := PGRST116;
     message := "JSON object requested, multiple (or no) rows returned" |}.

(** The owner profile is there, the restaurant row is not visible yet. *)
Definition NotFound (o : owner_row) : answers :=
  {| owner_answer := Ok (Some o); restaurant_answer := Raised no_rows |}.

Definition Visible (o : owner_row) (r : restaurant_row) : answers :=
  {| owner_answer := Ok (Some o); restaurant_answer := Ok (Some r) |}.

Definition is_retry_timer (e : event) : bool :=
  match e with
  | SetTimeout _ _ => true
  | _ => false
  end.

Definition is_restaurant_read (e : event) : bool :=
  match e with
  | Request (SelectRestaurantByOwner _) => true
  | _ => false
  end.

(** The "no restaurant linked" screen is rendered:
    [!myRestaurant && restaurantLoaded]. *)
Definition shows_no_restaurant (d : dashboard) : bool :=
  (negb (bool_decide (is_Some (myRestaurant d))) && restaurantLoaded d)%bool.

(** An event that lets time pass before the next one. *)
Definition is_wait (e : event) : bool :=
  match e with
  | Sleep _ => true
  | _ => false
  end.

(** The dashboard while it polls: [n] retries made so far. *)
Definition polling (u : string) (o : owner_row) (n : nat) : dashboard :=
  {| user := Some u; restaurantLoaded := false; restaurantCheckAttempts := n;
     myRestaurant := None; owner := Some o; loading := false |}.

(** The dashboard once the reads are over, with the restaurant or
    without. *)
Definition settled (u : string) (o : owner_row) (n : nat)
    (r : option restaurant_row) : dashboard :=
  {| user := Some u; restaurantLoaded := true; restaurantCheckAttempts := n;
     myRestaurant := r; owner := Some o; loading := false |}.

(** The two reads of one run of [loadMyData]. *)
Definition reads (u : string) : list event :=
  [Request (SelectOwnerById u); Request (SelectRestaurantByOwner u)].

(** What the [k]-th retry leaves in the trace: the reads that found no
    row, the log line, the timer, and the cleanup that clears it. *)
Definition retry_events (u : string) (k : nat) : list event :=
  reads u ++
  [ConsoleLog ("Restaurant not found, retrying... (attempt " +:+
               pretty k +:+ "/3)");
   SetTimeout retry_delay retry_callback;
   ClearTimeout retry_callback].

(** Every timer armed in the trace is cleared by the very next event. *)
Fixpoint timers_cleared_at_once (events : list event) : bool :=
  match events with
  | [] => true
  | SetTimeout _ f :: rest =>
      match rest with
      | ClearTimeout g :: _ =>
          (bool_decide (f = g) && timers_cleared_at_once rest)%bool
      | _ => false
      end
  | _ :: rest => timers_cleared_at_once rest
  end.

End Provisioning.

(** ** The persisted status filter
    ([RestaurantOwnerDashboard.jsx], [statusFilter]) *)

Module StatusFilter.
Import JsString.

Definition ORDER_STATUSES : list string :=
  ["Pending"; "Preparing"; "Driver Assigned"; "Out for Delivery";
   "Delivered"; "Completed"; "Cancelled"].

Definition STATUS_FILTER_KEY : string := "restaurantOwnerStatusFilter".

(** [localStorage]: strings under string keys. The browser environment is
    [Some] storage; [None] stands for [typeof window === 'undefined']. *)
Definition environment := option (gmap string string).

(** [localStorage.getItem(key)] *)
Definition getItem (key : string) (storage : gmap string string)
  : option string :=
  storage !! key.

(** [localStorage.setItem(key, value)] *)
Definition setItem (key value : string) (storage : gmap string string)
  : gmap string string :=
  <[key := value]> storage.

(** The initialiser of [useState]:
    [localStorage.getItem(STATUS_FILTER_KEY) || 'all'], or ['all'] without a
    window. *)
Definition initial_statusFilter (env : environment) : string :=
  match env with
  | Some storage =>
      default "all" (or_else (getItem STATUS_FILTER_KEY storage) (Some "all"))
  | None => "all"
  end.

(** The effect with dependency [[statusFilter]]. *)
Definition save_statusFilter (statusFilter : string) (env : environment)
  : environment :=
  match env with
  | Some storage => Some (setItem STATUS_FILTER_KEY statusFilter storage)
  | None => None
  end.

(** The view: the state [statusFilter] and the environment it lives in. *)
Record view := {
  statusFilter : string;
  env : environment
}.

(** Mounting the dashboard: the state is initialised, then the effect runs. *)
Definition mount (e : environment) : view :=
  let f := initial_statusFilter e in
  {| statusFilter := f; env := save_statusFilter f e |}.

(** [setStatusFilter(value)] from the select: the effect runs again when the
    value differs from the current one. *)
Definition setStatusFilter (value : string) (v : view) : view :=
  if decide (value = statusFilter v) then v
  else {| statusFilter := value; env := save_statusFilter value (env v) |}.

(** Leaving the page and loading it again: the state is lost, the storage
    stays. *)
Definition reload (v : view) : view := mount (env v).

(** The values that the select offers. *)
Definition filter_values : list string := "all" :: ORDER_STATUSES.

End StatusFilter.

(** ** The order-history view
    ([components/orders/OrderHistory.jsx], [fetchOrders] and the render) *)

Module HistoryView.
Import Store OrderHistory.

(** The order in which [Object.values] lists the entries of a dictionary,
    told by its keys in creation order. *)
Definition key_order (names : list string) : list string :=
  JsObject.values (map (fun k => (k, k)) names).

(** Both names are array indices, the first one not above the second. *)
Definition index_le (a b : string) : Prop :=
  match JsObject.array_index a, JsObject.array_index b with
  | Some m, Some n => (m <= n)%N
  | _, _ => False
  end.

(** The members of an object reference, in the order in which
    [resolveImage] tries them. *)
Definition object_members (o : image_object) : list (option string) :=
  [io_url o; io_path o; io_publicUrl o; io_public_url o; io_publicURL o].

(** The first non-empty string of a list of nullable strings. *)
Definition first_truthy (l : list (option string)) : option string :=
  head (filter (fun v => JsString.truthy (Some v) = true)
          (omap Datatypes.id l)).




Section HistoryView.
Context {num : Type} `{JSNumber num}.
Variable st : storage.
Variable toLocaleDateString : string -> string.

(** The state of [OrderHistory]. *)
Record history_state := {
  groupedOrders : list (segment (num:=num));
  history_loading : bool
}.

Definition setGroupedOrders (l : list segment) (s : history_state)
  : history_state :=
  {| groupedOrders := l; history_loading := history_loading s |}.

Definition setHistoryLoading (b : bool) (s : history_state) : history_state :=
  {| groupedOrders := groupedOrders s; history_loading := b |}.

(** What [fetchOrders] does besides changing the state. *)
Inductive history_event :=
| SelectOrdersOfUser (user_id : string)   (* .eq('user_id', user.id)
                                             .order('created_at', desc) *)
| HistoryConsoleError (label error_message : string).

(** [fetchOrders] for the signed-in user (or none) and the store's answer to
    the nested read. The third component is the exception with which the
    promise rejects, if any: nothing catches what the segmentation raises,
    so the statements after it are not reached. *)
Definition fetchOrders (user : option string) (fetched : answer (list order))
    (s : history_state) : history_state * list history_event * option type_error :=
  match user with
  | None => (setHistoryLoading false s, [], None)
  | Some u =>
      let s := setHistoryLoading true s in
      match fetched with
      | Raised error =>
          (setHistoryLoading false (setGroupedOrders [] s),
           [SelectOrdersOfUser u;
            HistoryConsoleError "Error fetching orders:" (message error)],
           None)
      | Ok fetchedOrders =>
          match groupedDisplayOrders st toLocaleDateString fetchedOrders with
          | Ok groupedDisplayOrders =>
              (setHistoryLoading false (setGroupedOrders groupedDisplayOrders s),
               [SelectOrdersOfUser u], None)
          | Raised e => (s, [SelectOrdersOfUser u], Some e)
          end
      end
  end.

(** What the component renders. *)
Inductive history_screen :=
| Spinner                                  (* <Loading /> *)
| NoOrdersYet                              (* the empty state *)
| SegmentCards (cards : list (segment (num:=num))).

Definition history_render (s : history_state) : history_screen :=
  if history_loading s then Spinner
  else if Nat.eqb (length (groupedOrders s)) 0 then NoOrdersYet
  else SegmentCards (groupedOrders s).

(** [order.order_items?.[0]], the item previewed on a card. *)
Definition firstItem (card : segment (num:=num)) : option order_item :=
  head (seg_order_items card).

(** *** Vocabulary of the history properties *)

(** Some item of some fetched order has a restaurant named after a member
    of [Object.prototype]. *)
Definition some_name_inherited (fetchedOrders : list (order (num:=num))) : Prop :=
  exists o item k, o ∈ fetchedOrders /\ item ∈ enrichedItems st o /\
    restaurant_key item = Some k /\ JsObject.inherited k = true.

(** The resolved restaurant of every resolvable item has an identifier. *)
Definition ids_present (items : list (order_item (num:=num))) : Prop :=
  forall item, item ∈ items -> resolvable item ->
    is_Some (item_restaurant_id item).

(** No restaurant name of the items is an array index. *)
Definition no_index_names (items : list (order_item (num:=num))) : Prop :=
  forall item k, item ∈ items -> restaurant_key item = Some k ->
    JsObject.array_index k = None.

(** An image as [enrich] leaves it: none, or an address without
    surrounding white space. *)
Definition image_ready (r : image_ref) : Prop :=
  match r with
  | Absent => True
  | Str u => is_address u = true /\ JsString.trim u = u
  | Obj _ => False
  end.

End HistoryView.

End HistoryView.

(** ** The screens of the owner dashboard and its session
    ([RestaurantOwnerDashboard.jsx], the auth effect, [handleSignOut] and
    the early returns of the render) *)

Module Dashboard.
Import JsString Store Provisioning.

Section Dashboard.
Context {num : Type}.

(** The state of [RestaurantOwnerDashboard] that decides which screen is
    shown: [authReady], the state of the data effect, and [orders]. *)
Record component := {
  authReady : bool;
  data : dashboard;
  orders : list (OrderQueue.queue_order (num:=num))
}.

Definition with_data (f : dashboard -> dashboard) (c : component) : component :=
  {| authReady := authReady c; data := f (data c); orders := orders c |}.

Definition setUser (u : option string) (d : dashboard) : dashboard :=
  {| user := u; restaurantLoaded := restaurantLoaded d;
     restaurantCheckAttempts := restaurantCheckAttempts d;
     myRestaurant := myRestaurant d; owner := owner d; loading := loading d |}.

Definition setAuthReady (b : bool) (c : component) : component :=
  {| authReady := b; data := data c; orders := orders c |}.

Definition setOrders (l : list (OrderQueue.queue_order (num:=num)))
    (c : component) : component :=
  {| authReady := authReady c; data := data c; orders := l |}.

(** The component as mounted. *)
Definition mounted : component :=
  {| authReady := false;
     data := {| user := None; restaurantLoaded := false;
                restaurantCheckAttempts := 0; myRestaurant := None;
                owner := None; loading := true |};
     orders := [] |}.

(** [checkAuth], once [getSession] has answered: [session_user] is
    [session?.user ?? null]. *)
Definition checkAuth (session_user : option string) (c : component)
  : component :=
  setAuthReady true (with_data (setUser session_user) c).

(** The listener given to [onAuthStateChange]. *)
Definition onAuthStateChange (session_user : option string) (c : component)
  : component :=
  with_data (setRestaurantCheckAttempts (fun _ => 0))
    (with_data (setRestaurantLoaded false)
       (setAuthReady true (with_data (setUser session_user) c))).

(** [handleSignOut], once [signOut] has answered. *)
Definition handleSignOut (c : component) : component :=
  with_data (setRestaurantCheckAttempts (fun _ => 0))
    (with_data (setRestaurantLoaded false)
       (setOrders []
          (with_data (setMyRestaurant None)
             (with_data (setOwner None)
                (with_data (setUser None) c))))).

(** [onSuccess={setUser}] of the sign-in page. *)
Definition onSuccess (u : option string) (c : component) : component :=
  with_data (setUser u) c.

(** The data effect of the component: see [Provisioning.run]. *)
Definition load (answered : list answers) (c : component)
  : component * list event :=
  (with_data (fun _ => fst (run answered (data c))) c,
   snd (run answered (data c))).

(** What the component returns. The main screen reads
    [myRestaurant.image_url], [myRestaurant.name], ...: it is given
    [myRestaurant] as the state holds it. *)
Inductive screen :=
| LoadingScreen
| OwnerAuthPage
| NoRestaurantLinked
| MainScreen (myRestaurant : option restaurant_row).

Definition render (c : component) : screen :=
  let d := data c in
  if negb (authReady c) then LoadingScreen
  else if negb (bool_decide (is_Some (user d))) then OwnerAuthPage
  else if (negb (restaurantLoaded d) ||
           (loading d && (negb (bool_decide (is_Some (myRestaurant d))) ||
                          negb (bool_decide (is_Some (owner d))))))%bool
       then LoadingScreen
  else if (negb (bool_decide (is_Some (myRestaurant d))) && restaurantLoaded d)%bool
       then NoRestaurantLinked
  else MainScreen (myRestaurant d).

(** [showProfileModal && owner && myRestaurant] *)
Definition profile_sidebar_shown (showProfileModal : bool) (c : component)
  : bool :=
  (showProfileModal && bool_decide (is_Some (owner (data c))) &&
   bool_decide (is_Some (myRestaurant (data c))))%bool.

End Dashboard.

Section OrderList.
Context {num : Type} `{JSNumber num} `{ToFixed num}.

(** [orders] and [loading] are states of the component: the handlers of
    the order queue read and write them there. *)
Definition queue_of (c : component (num:=num)) : OrderQueue.queue_state :=
  {| OrderQueue.orders := orders c; OrderQueue.loading := loading (data c) |}.

Definition with_queue (q : OrderQueue.queue_state) (c : component (num:=num))
  : component :=
  setOrders (OrderQueue.orders q)
    (with_data (setLoading (OrderQueue.loading q)) c).

(** [loadOrders] on the state of the component, as the effect on
    [[myRestaurant, loadOrders, loadProducts]] calls it once a restaurant
    is set, and as the refresh button does. *)
Definition loadOrders (items_answer : answer (list OrderQueue.line_row))
    (orders_answer : answer (list OrderQueue.order_row))
    (c : component (num:=num)) : component * list event :=
  let out := OrderQueue.loadOrders (myRestaurant (data c)) items_answer
               orders_answer (queue_of c) in
  (with_queue (fst out) c, snd out).

(** The component while [loadOrders] awaits the store: its
    [setLoading(true)] has been rendered. *)
Definition awaiting_orders (c : component (num:=num)) : component :=
  match myRestaurant (data c) with
  | Some _ => with_data (setLoading true) c
  | None => c
  end.

End OrderList.

(** A hard error: any error but the not-found signal. *)
Definition hard (e : store_error) : Prop := not_found e = false.

(** The read of [owners] does not make [loadMyData] throw: it returns, or
    it fails with the not-found signal, which is let pass. *)
Definition owner_read_passes (a : answers) : Prop :=
  match owner_answer a with
  | Ok _ => True
  | Raised e => not_found e = true
  end.

End Dashboard.

(** ** The status workflow of the order queue
    ([RestaurantOwnerDashboard.jsx], [getNextStatus], the action buttons of
    an order card and [filteredOrders]) *)

Module Workflow.
Import JsString Store OrderQueue StatusFilter.

(** The object literal of [getNextStatus]. *)
Definition nextStatuses : JsObject.obj string :=
  [("Pending", "Preparing");
   ("Preparing", "Driver Assigned");
   ("Driver Assigned", "Out for Delivery");
   ("Out for Delivery", "Delivered");
   ("Delivered", "Completed")].

(** What [nextStatuses[current]] may be when it is truthy: a status of the
    table, or the member of [Object.prototype] that [current] names. *)
Inductive next_status :=
| Status (s : string)
| PrototypeMember (name : string).

(** [nextStatuses[current] || null] *)
Definition getNextStatus (current : string) : option next_status :=
  match JsObject.own nextStatuses current with
  | Some s => if truthy (Some s) then Some (Status s) else None
  | None =>
      if JsObject.inherited current then Some (PrototypeMember current)
      else None
  end.

(** The buttons of an order card, by what a click passes to
    [updateOrderStatus] as [newStatus]. *)
Inductive action :=
| MarkAs (target : next_status)     (* getNextStatus(order.status) *)
| CancelOrder.                      (* 'Cancelled' *)

(** The error with which React refuses an object that is neither an
    element nor a list as a child. *)
Inductive render_error := InvalidChild.

(** The members of [Object.prototype] are functions, except [__proto__],
    which reads as the prototype itself, an object. *)
Definition is_function (name : string) : bool :=
  negb (String.eqb name "__proto__").

(** The child [{getNextStatus(order.status)}] of the advance button as
    React takes it: a string is shown, a function is left out, any other
    object is refused and the render throws. *)
Definition advance_button (target : next_status)
  : result render_error (list action) :=
  match target with
  | Status _ => Ok [MarkAs target]
  | PrototypeMember name =>
      if is_function name then Ok [MarkAs target] else Raised InvalidChild
  end.

(** The buttons rendered for an order of the given status, left to right,
    or the error that the render of the card throws. *)
Definition actions (status : string) : result render_error (list action) :=
  if (negb (String.eqb status "Completed") &&
      negb (String.eqb status "Cancelled"))%bool
  then
    bind_result
      (match getNextStatus status with
       | Some target => advance_button target
       | None => Ok []
       end)
      (fun advance =>
         Ok (advance ++
             (if (String.eqb status "Pending" ||
                  String.eqb status "Preparing")%bool
              then [CancelOrder] else [])))
  else Ok [].

(** The status that a click asks the store to write, when what it passes is
    a string. *)
Definition newStatus (a : action) : option string :=
  match a with
  | MarkAs (Status s) => Some s
  | MarkAs (PrototypeMember _) => None
  | CancelOrder => Some "Cancelled"
  end.

(** How far a status is along the way to its end. *)
Definition progress (status : string) : nat :=
  if String.eqb status "Pending" then 0
  else if String.eqb status "Preparing" then 1
  else if String.eqb status "Driver Assigned" then 2
  else if String.eqb status "Out for Delivery" then 3
  else if String.eqb status "Delivered" then 4
  else 5.

Section Queue.
Context {num : Type}.

(** [orders.filter(order => statusFilter === 'all' ||
    order.status === statusFilter)] *)
Definition filteredOrders (statusFilter : string)
    (orders : list (queue_order (num:=num))) : list queue_order :=
  filter (fun order => statusFilter = "all" \/
                       or_status (qo_order order) = statusFilter) orders.

(** The ids of a list of orders, in order. *)
Definition order_ids (orders : list (queue_order (num:=num))) : list string :=
  map (fun o => or_id (qo_order o)) orders.

(** Every order of the list has a status of [ORDER_STATUSES]. *)
Definition statuses_known (orders : list (queue_order (num:=num))) : Prop :=
  Forall (fun o => or_status (qo_order o) ∈ ORDER_STATUSES) orders.

(** The store acknowledged the write. *)
Definition acknowledged (write_answer : answer unit) : bool :=
  match write_answer with
  | Ok _ => true
  | Raised _ => false
  end.

(** One click on a button of an order card, answered and rendered before
    the next click. The card is on display ([loading] is false and the
    order is in the list), the button is one of those the card shows and
    passes a status, the handler is the one of the render on display, and
    the store answers. The label keeps the id of the order and whether the
    write was acknowledged. *)
Inductive press
  : queue_state (num:=num) -> string * bool -> queue_state (num:=num) -> Prop :=
| press_button s n o buttons a t write_answer :
    loading s = false ->
    orders s !! n = Some o ->
    actions (or_status (qo_order o)) = Ok buttons ->
    a ∈ buttons ->
    newStatus a = Some t ->
    press s (or_id (qo_order o), acknowledged write_answer)
      (fst (updateOrderStatus (orders s) (or_id (qo_order o)) t
              write_answer s)).

(** A sequence of such clicks, on any cards, with its log. *)
Inductive session
  : queue_state (num:=num) -> list (string * bool) -> queue_state (num:=num)
    -> Prop :=
| session_nil s : session s [] s
| session_cons s p s1 log s2 :
    press s p s1 -> session s1 log s2 -> session s (p :: log) s2.

(** The acknowledged clicks of a log on the order [orderId]. *)
Definition acknowledged_on (orderId : string) (log : list (string * bool))
  : list (string * bool) :=
  filter (fun p => p = (orderId, true)) log.

End Queue.

End Workflow.

(** ** Vocabulary of the sign-in properties *)

Module SignIn.
Import JsString Store Handler Registration.

(** The fields of the page that the user types or chooses. *)
Definition typed (p : auth_page) :=
  (email p, password p, ownerName p, phoneNumber p, restaurantName p,
   addressStreet p, addressBarangay p, restaurantCategoryId p,
   restaurantImageUrl p, isLogin p).

(** The form fails one of the two checks made before any call. *)
Definition incomplete (p : auth_page) : bool :=
  (blank (email p) || blank (password p) ||
   (negb (isLogin p) &&
    (blank (ownerName p) || blank (restaurantName p) ||
     blank (addressBarangay p) || blank (restaurantCategoryId p))))%bool.

Definition is_owner_insert (e : event) : bool :=
  match e with
  | Request (InsertOwner _ _ _) => true
  | _ => false
  end.

(** [e.message || 'Authentication failed. Please try again.'] *)
Definition shown_error (e_message : string) : string :=
  if blank e_message then "Authentication failed. Please try again."
  else e_message.

End SignIn.

(** ** The profile sidebar
    ([RestaurantOwnerDashboard.jsx], [ProfileSidebar] and
    [handleProfileUpdate]) *)

Module Profile.
Import JsString Store Provisioning Dashboard.

(** [ownerForm] and [restaurantForm], the states of [ProfileSidebar]. *)
Record owner_form := {
  of_contact_name : string;
  of_phone_number : string
}.

Record restaurant_form := {
  rf_name : string;
  rf_address_street : string;
  rf_address_barangay : string;
  rf_category_id : string;
  rf_image_url : string;
  rf_is_open : bool
}.

(** [v || ''] on a nullable column. *)
Definition or_empty (v : option string) : string :=
  default "" (or_else v (Some "")).

(** The initial values of the two [useState] of the sidebar. *)
Definition initial_owner_form (owner : owner_row) : owner_form :=
  {| of_contact_name := ow_contact_name owner;
     of_phone_number := or_empty (ow_phone_number owner) |}.

Definition initial_restaurant_form (restaurant : restaurant_row)
  : restaurant_form :=
  {| rf_name := rs_name restaurant;
     rf_address_street := or_empty (rs_address_street restaurant);
     rf_address_barangay := rs_address_barangay restaurant;
     rf_category_id := rs_category_id restaurant;
     rf_image_url := or_empty (rs_image_url restaurant);
     rf_is_open := rs_is_open restaurant |}.

(** The object passed to [from('restaurants').update(...)]. *)
Record restaurant_update := {
  ru_name : string;
  ru_address_street : option string;
  ru_address_barangay : string;
  ru_category_id : string;
  ru_image_url : option string;
  ru_is_open : bool
}.

(** The calls of [handleProfileUpdate]. *)
Inductive profile_request :=
| UpdateOwner (id contact_name : string) (phone_number : option string)
| UpdateRestaurant (owner_id : string) (row : restaurant_update)
| RefetchOwner (id : string)                 (* .eq('id', id).single() *)
| RefetchRestaurant (owner_id : string).     (* .eq('owner_id', id).single() *)

Inductive profile_event :=
| Call (r : profile_request)
| ProfileError (label error_message : string)     (* console.error *)
| ProfileLog (text : string).                     (* console.log *)

Definition is_profile_write (e : profile_event) : bool :=
  match e with
  | Call (UpdateOwner _ _ _) | Call (UpdateRestaurant _ _) => true
  | _ => false
  end.

(** What the store answers during one run of [handleProfileUpdate]; the
    two reads at the end keep the data only, whatever the error. *)
Record profile_answers := {
  owner_update_answer : option store_error;
  restaurant_update_answer : option store_error;
  updatedOwner : option owner_row;
  updatedRestaurant : option restaurant_row
}.

Section Profile.
Context {num : Type}.

(** The dashboard with the two states of the sidebar. *)
Record profile_state := {
  page : component (num:=num);
  showProfileModal : bool;
  isUpdatingProfile : bool
}.

Definition setIsUpdatingProfile (b : bool) (s : profile_state) : profile_state :=
  {| page := page s; showProfileModal := showProfileModal s;
     isUpdatingProfile := b |}.

Definition setShowProfileModal (b : bool) (s : profile_state) : profile_state :=
  {| page := page s; showProfileModal := b;
     isUpdatingProfile := isUpdatingProfile s |}.

Definition with_page (f : component (num:=num) -> component) (s : profile_state)
  : profile_state :=
  {| page := f (page s); showProfileModal := showProfileModal s;
     isUpdatingProfile := isUpdatingProfile s |}.

Definition restaurant_update_of (f : restaurant_form) : restaurant_update :=
  {| ru_name := rf_name f;
     ru_address_street := Registration.or_null (rf_address_street f);
     ru_address_barangay := rf_address_barangay f;
     ru_category_id := rf_category_id f;
     ru_image_url := Registration.or_null (rf_image_url f);
     ru_is_open := rf_is_open f |}.

(** The message of the [TypeError] raised by [user.id] without a user. *)
Definition null_user_message : string :=
  "Cannot read properties of null (reading 'id')".

(** The [catch] block. *)
Definition profile_failed (error_message : string) : list profile_event :=
  [ProfileError "Error updating profile:" error_message;
   ProfileLog ("Failed to update profile: " +:+ error_message)].

(** The required fields of the two forms are given. *)
Definition filled (ownerForm : owner_form) (restaurantForm : restaurant_form)
  : bool :=
  negb (Registration.blank (of_contact_name ownerForm) ||
        Registration.blank (rf_name restaurantForm) ||
        Registration.blank (rf_address_barangay restaurantForm) ||
        Registration.blank (rf_category_id restaurantForm)).

(** [handleProfileUpdate(ownerForm, restaurantForm)] *)
Definition handleProfileUpdate (a : profile_answers)
    (ownerForm : owner_form) (restaurantForm : restaurant_form)
    (s : profile_state) : profile_state * list profile_event :=
  if negb (filled ownerForm restaurantForm) then
    (s, [ProfileError
           "Owner Name, Restaurant Name, Barangay, and Category are required."
           ""])
  else
    let s1 := setIsUpdatingProfile true s in
    match user (data (page s)) with
    | None =>
        (setIsUpdatingProfile false s1, profile_failed null_user_message)
    | Some id =>
        let update_owner :=
          Call (UpdateOwner id (of_contact_name ownerForm)
                  (Registration.or_null (of_phone_number ownerForm))) in
        match owner_update_answer a with
        | Some ownerError =>
            (setIsUpdatingProfile false s1,
             update_owner :: profile_failed (message ownerError))
        | None =>
            let update_restaurant :=
              Call (UpdateRestaurant id (restaurant_update_of restaurantForm)) in
            match restaurant_update_answer a with
            | Some restaurantError =>
                (setIsUpdatingProfile false s1,
                 update_owner :: update_restaurant ::
                 profile_failed (message restaurantError))
            | None =>
                (setIsUpdatingProfile false
                   (setShowProfileModal false
                      (with_page (with_data (setMyRestaurant (updatedRestaurant a)))
                         (with_page (with_data (setOwner (updatedOwner a))) s1))),
                 [update_owner; update_restaurant;
                  Call (RefetchOwner id); Call (RefetchRestaurant id);
                  ProfileLog "Profile and Restaurant details updated successfully!"])
            end
        end
    end.

(** Opening the sidebar on the rows in the state and saving at once. *)
Definition save_unedited (a : profile_answers) (owner : owner_row)
    (restaurant : restaurant_row) (s : profile_state)
  : profile_state * list profile_event :=
  handleProfileUpdate a (initial_owner_form owner)
    (initial_restaurant_form restaurant) s.

End Profile.

(** A nullable column with the empty string read as null. *)
Definition normal (v : option string) : option string :=
  match v with
  | Some s => if truthy (Some s) then Some s else None
  | None => None
  end.

End Profile.

(** ** The menu of the restaurant
    ([RestaurantOwnerDashboard.jsx], [loadProducts], [handleProductSubmit],
    [handleDeleteProduct] and [openEditProduct]) *)

Module Menu.
Import JsString Store.

(** The conversions between numbers and the text of the form. *)
Class NumberText (num : Type) := {
  parseFloat : string -> num;
  parseInt : string -> num;
  toString : num -> string
}.

Section Menu.
Context {num : Type} `{NumberText num}.

(** A row of [food_items]. *)
Record product := {
  food_item_id : string;
  pr_name : string;
  pr_price : num;
  pr_stock : num;
  pr_description : option string;
  pr_image_url : option string;
  pr_restaurant_id : string
}.

(** [productForm] *)
Record product_form := {
  pf_name : string;
  pf_price : string;
  pf_stock : string;
  pf_description : string;
  pf_image_url : string
}.

(** [productData], the object written by [handleProductSubmit]. *)
Record product_data := {
  pd_food_item_id : string;
  pd_name : string;
  pd_price : num;
  pd_stock : num;
  pd_description : string;
  pd_image_url : string;
  pd_restaurant_id : string
}.

Inductive menu_request :=
| SelectProducts (restaurant_id : string)   (* .eq('restaurant_id', id).order('name') *)
| UpdateProduct (food_item_id : string) (row : product_data)
| InsertProduct (row : product_data)
| DeleteProduct (food_item_id : string).

Inductive menu_event :=
| Ask (r : menu_request)
| Confirm (question : string)                  (* window.confirm *)
| MenuError (label error_message : string)     (* console.error *)
| MenuLog (text : string).                     (* console.log *)

Definition is_menu_write (e : menu_event) : bool :=
  match e with
  | Ask (UpdateProduct _ _) | Ask (InsertProduct _) | Ask (DeleteProduct _) => true
  | _ => false
  end.

Definition is_menu_read (e : menu_event) : bool :=
  match e with
  | Ask (SelectProducts _) => true
  | _ => false
  end.

(** The state of the products tab. *)
Record menu := {
  myRestaurant : option restaurant_row;
  products : list product;
  showProductModal : bool;
  editingProduct : option product;
  productForm : product_form
}.

Definition empty_form : product_form :=
  {| pf_name := ""; pf_price := ""; pf_stock := ""; pf_description := "";
     pf_image_url := "" |}.

Definition setProducts (l : list product) (m : menu) : menu :=
  {| myRestaurant := myRestaurant m; products := l;
     showProductModal := showProductModal m;
     editingProduct := editingProduct m; productForm := productForm m |}.

Definition setShowProductModal (b : bool) (m : menu) : menu :=
  {| myRestaurant := myRestaurant m; products := products m;
     showProductModal := b;
     editingProduct := editingProduct m; productForm := productForm m |}.

Definition setEditingProduct (p : option product) (m : menu) : menu :=
  {| myRestaurant := myRestaurant m; products := products m;
     showProductModal := showProductModal m;
     editingProduct := p; productForm := productForm m |}.

Definition setProductForm (f : product_form) (m : menu) : menu :=
  {| myRestaurant := myRestaurant m; products := products m;
     showProductModal := showProductModal m;
     editingProduct := editingProduct m; productForm := f |}.

(** [loadProducts]; [listed] is the answer to the read ([data] may be
    null). *)
Definition loadProducts (listed : answer (option (list product))) (m : menu)
  : menu * list menu_event :=
  match myRestaurant m with
  | None => (m, [])
  | Some restaurant =>
      let read := Ask (SelectProducts (rs_id restaurant)) in
      match listed with
      | Raised error =>
          (m, [read; MenuError "Error loading products:" (message error)])
      | Ok data => (setProducts (default [] data) m, [read])
      end
  end.

(** The [catch] block of [handleProductSubmit]. *)
Definition save_failed (error_message : string) : list menu_event :=
  [MenuError "Error saving product:" error_message;
   MenuLog ("Failed to save product: " +:+ error_message)].

(** The message of the [TypeError] raised by [myRestaurant.id] without a
    restaurant. *)
Definition null_restaurant_message : string :=
  "Cannot read properties of null (reading 'id')".

(** [editingProduct?.food_item_id || `${myRestaurant.id}_${Date.now()}`] *)
Definition new_food_item_id (editing : option product) (restaurant_id now : string)
  : string :=
  default (restaurant_id +:+ "_" +:+ now)
    (or_else (food_item_id <$> editing)
             (Some (restaurant_id +:+ "_" +:+ now))).

Definition productData (m : menu) (restaurant : restaurant_row) (now : string)
  : product_data :=
  {| pd_food_item_id :=
       new_food_item_id (editingProduct m) (rs_id restaurant) now;
     pd_name := pf_name (productForm m);
     pd_price := parseFloat (pf_price (productForm m));
     pd_stock := parseInt (pf_stock (productForm m));
     pd_description := pf_description (productForm m);
     pd_image_url := pf_image_url (productForm m);
     pd_restaurant_id := rs_id restaurant |}.

(** The three required fields of the form are given. *)
Definition complete (f : product_form) : bool :=
  negb (Registration.blank (pf_name f) || Registration.blank (pf_price f) ||
        Registration.blank (pf_stock f)).

(** [handleProductSubmit]: [now] is the text of [Date.now()], [saved] the
    answer to the write, [listed] the answer to the read that follows. *)
Definition handleProductSubmit (now : string) (saved : option store_error)
    (listed : answer (option (list product))) (m : menu)
  : menu * list menu_event :=
  if negb (complete (productForm m)) then
    (m, [MenuError "Please fill in all required fields (Name, Price, Stock)" ""])
  else
    match myRestaurant m with
    | None => (m, save_failed null_restaurant_message)
    | Some restaurant =>
        let data := productData m restaurant now in
        let write :=
          match editingProduct m with
          | Some editing => Ask (UpdateProduct (food_item_id editing) data)
          | None => Ask (InsertProduct data)
          end in
        match saved with
        | Some error => (m, write :: save_failed (message error))
        | None =>
            match loadProducts listed m with
            | (m1, events) =>
                (setProductForm empty_form
                   (setEditingProduct None (setShowProductModal false m1)),
                 write :: events)
            end
        end
    end.

(** [handleDeleteProduct(foodItemId)]: [confirmed] is what
    [window.confirm] returns. *)
Definition handleDeleteProduct (foodItemId : string) (confirmed : bool)
    (deleted : option store_error)
    (listed : answer (option (list product))) (m : menu)
  : menu * list menu_event :=
  let ask := Confirm "Are you sure you want to delete this product?" in
  if negb confirmed then (m, [ask])
  else
    let write := Ask (DeleteProduct foodItemId) in
    match deleted with
    | Some error =>
        (m, [ask; write; MenuError "Error deleting product:" (message error);
             MenuLog ("Failed to delete product: " +:+ message error)])
    | None =>
        match loadProducts listed m with
        | (m1, events) => (m1, ask :: write :: events)
        end
    end.

(** [openEditProduct(product)] *)
Definition openEditProduct (p : product) (m : menu) : menu :=
  setShowProductModal true
    (setProductForm
       {| pf_name := pr_name p;
          pf_price := toString (pr_price p);
          pf_stock := toString (pr_stock p);
          pf_description := Profile.or_empty (pr_description p);
          pf_image_url := Profile.or_empty (pr_image_url p) |}
       (setEditingProduct (Some p) m)).

(** The "+ Add Product" button. *)
Definition openAddProduct (m : menu) : menu :=
  setShowProductModal true (setProductForm empty_form (setEditingProduct None m)).

(** [updateForm(key, value)] of the sidebar, field by field. *)
Definition typed_over (f : product_form) (m : menu) : menu := setProductForm f m.

End Menu.

End Menu.

(** ** The map preview of the checkout
    ([components/checkout/AddressMapPreview.jsx]) *)

Module MapPreview.
Import JsString.

(** The characters that [encodeURIComponent] leaves as they are: letters,
    digits and [- _ . ! ~ * ' ( )]. *)
Definition unreserved (c : ascii) : bool :=
  let n := nat_of_ascii c in
  ((Nat.leb 65 n && Nat.leb n 90) || (Nat.leb 97 n && Nat.leb n 122) ||
   (Nat.leb 48 n && Nat.leb n 57) ||
   Nat.eqb n 45 || Nat.eqb n 95 || Nat.eqb n 46 || Nat.eqb n 33 ||
   Nat.eqb n 126 || Nat.eqb n 42 || Nat.eqb n 39 || Nat.eqb n 40 ||
   Nat.eqb n 41)%bool.

Definition hex_digit (n : nat) : ascii :=
  match String.get n "0123456789ABCDEF" with
  | Some c => c
  | None => "0"%char
  end.

(** [%XX] for a byte. *)
Definition percent (byte : nat) : string :=
  String "%" (String (hex_digit (byte / 16))
                (String (hex_digit (byte mod 16)) EmptyString)).

(** The UTF-8 bytes of a code unit below 256. *)
Definition utf8 (c : ascii) : list nat :=
  let n := nat_of_ascii c in
  if Nat.ltb n 128 then [n] else [192 + n / 64; 128 + n mod 64].

(** [encodeURIComponent(s)] on strings of code units below 256. *)
Fixpoint encodeURIComponent (s : string) : string :=
  match s with
  | EmptyString => EmptyString
  | String c s' =>
      (if unreserved c then String c EmptyString
       else String.concat "" (map percent (utf8 c)))
      +:+ encodeURIComponent s'
  end.

Definition base : string := "https://www.google.com/maps?q=".

(** [`Iligan City ${barangay || ""} ${addressDetail || ""}`.trim()] *)
Definition query (barangay addressDetail : option string) : string :=
  trim ("Iligan City " +:+ Profile.or_empty barangay +:+ " " +:+
        Profile.or_empty addressDetail).

(** What the effect puts in [mapUrl]. *)
Definition mapUrl (barangay addressDetail : option string) : string :=
  base +:+ encodeURIComponent (query barangay addressDetail) +:+ "&output=embed".

(** [barangay ? barangay : "Iligan City"], the place named in the header. *)
Definition shown_place (barangay : option string) : string :=
  default "Iligan City" (or_else barangay (Some "Iligan City")).

(** Every character of the string passes the test. *)
Fixpoint all_chars (test : ascii -> bool) (s : string) : bool :=
  match s with
  | EmptyString => true
  | String c s' => (test c && all_chars test s')%bool
  end.

(** A character that an encoded component may hold. *)
Definition encoded_char (c : ascii) : bool :=
  (unreserved c || Ascii.eqb c "%")%bool.

End MapPreview.

(** ** Sample data *)

Module Samples.
Import OrderHistory.

(** A storage that serves every key from one content-delivery address. *)
Definition cdn_storage : storage :=
  fun _ _ =>
    Returns (Some {| pd_publicUrl := Some "https://cdn.example/food.png";
                     pd_publicURL := None;
                     pd_public_url := None;
                     pd_url := None |}).

(** A storage whose first bucket raises and whose second bucket answers in
    the [url] member. *)
Definition second_bucket_storage : storage :=
  fun bucket key =>
    if String.eqb bucket "food-images" then Throws
    else Returns (Some {| pd_publicUrl := None;
                          pd_publicURL := None;
                          pd_public_url := None;
                          pd_url := Some ("https://cdn.example/" +:+ bucket +:+
                                          "/" +:+ key) |}).

(** A storage that yields nothing. *)
Definition empty_storage : storage :=
  fun _ _ => Returns None.

(** The date as the store prints it, cut to the day. *)
Definition day_of (created_at : string) : string :=
  String.substring 0 10 created_at.

(** An order line of the food item of a restaurant. *)
Definition line {num : Type} (restaurant_id name dish : string)
    (price quantity : num) : order_item (num:=num) :=
  {| oi_food_item_id := Some dish;
     oi_name := dish;
     oi_price := price;
     oi_quantity := quantity;
     oi_food_items :=
       Some {| fi_restaurant_id := Some restaurant_id;
               fi_food_item_id := Some dish;
               fi_image_url := Str "/menu/dish.png";
               fi_restaurants :=
                 Some {| r_name := Some name; r_image_url := Absent |} |};
     oi_image_url := Absent |}.

(** A line whose food item has been deleted: no restaurant to resolve. *)
Definition orphan_line {num : Type} (dish : string) (price quantity : num)
  : order_item (num:=num) :=
  {| oi_food_item_id := Some dish;
     oi_name := dish;
     oi_price := price;
     oi_quantity := quantity;
     oi_food_items := None;
     oi_image_url := Absent |}.

Definition order_of {num : Type} (lines : list (order_item (num:=num)))
  : order (num:=num) :=
  {| id := "7c1d52aa-0b53-4e0e-9d0e-3f2a6b0e91c4";
     user_id := "u-1";
     status := "Pending";
     created_at := "2024-05-02T10:15:00+00:00";
     order_items := Some lines |}.

(** Two items of restaurant A (100 x 1, 50 x 2), one of restaurant B
    (75 x 1), and a line that cannot be resolved. *)
Definition scenario_order : order (num:=Z) :=
  order_of [line "ra" "Restaurant A" "adobo" 100%Z 1%Z;
            line "rb" "Restaurant B" "halo-halo" 75%Z 1%Z;
            line "ra" "Restaurant A" "rice" 50%Z 2%Z;
            orphan_line "gone" 20%Z 1%Z].

(** Two branches, distinct restaurants, one display name. *)
Definition two_branches : order (num:=Z) :=
  order_of [line "r1" "Jollibee" "chickenjoy" 100%Z 1%Z;
            line "r2" "Jollibee" "spaghetti" 50%Z 2%Z].

(** A restaurant called after a member of [Object.prototype]. *)
Definition constructor_order : order (num:=Z) :=
  order_of [line "r9" "constructor" "burger" 80%Z 1%Z].

(** Two distinct restaurants that share such a name. *)
Definition two_constructors : order (num:=Z) :=
  order_of [line "r1" "constructor" "hollow blocks cake" 100%Z 1%Z;
            line "r2" "constructor" "cement shake" 50%Z 2%Z].

(** Two distinct restaurants whose name is the empty string. *)
Definition two_unnamed : order (num:=Z) :=
  order_of [line "r1" "" "chickenjoy" 100%Z 1%Z;
            line "r2" "" "spaghetti" 50%Z 2%Z].

(** The binary64 number that the literal [c / 100] denotes, for a whole
    number of centavos [c]. *)
Definition pesos (centavos : PrimFloat.float) : PrimFloat.float :=
  PrimFloat.div centavos 100%float.

(** Binary64 amounts with centavos: 99.99 and 120.10 from restaurant A,
    49.50 from restaurant B in between. *)
Definition centavo_order : order (num:=PrimFloat.float) :=
  order_of [line "ra" "Restaurant A" "adobo" (pesos 9999%float) 1%float;
            line "rb" "Restaurant B" "halo-halo" (pesos 4950%float) 1%float;
            line "ra" "Restaurant A" "lechon" (pesos 12010%float) 1%float].

(** A later order of the same customer: restaurant B, then two
    restaurants whose names are numbers. *)
Definition later_order : order (num:=Z) :=
  {| id := "a3e8f1d0-52c7-4b9e-8f64-1d2c3b4a5e6f";
     user_id := "u-1";
     status := "Delivered";
     created_at := "2024-05-09T18:40:00+00:00";
     order_items :=
       Some [line "rb" "Restaurant B" "leche flan" 60%Z 1%Z;
             line "r88" "88" "siomai" 45%Z 2%Z;
             line "r7" "7" "lugaw" 35%Z 1%Z;
             line "r88" "88" "lumpia" 30%Z 3%Z] |}.

(** The orders of the customer, newest first, and the cards they give. *)
Definition sample_history : list (order (num:=Z)) :=
  [later_order; scenario_order].

Definition sample_cards : list (segment (num:=Z)) :=
  match groupedDisplayOrders cdn_storage day_of sample_history with
  | Ok cards => cards
  | Raised _ => []
  end.

(** The restaurant of the signed-in owner. *)
Definition my_restaurant : Store.restaurant_row :=
  {| Store.rs_id := "ra";
     Store.rs_name := "Restaurant A";
     Store.rs_address_street := Some "Quezon Ave";
     Store.rs_address_barangay := "Tibanga";
     Store.rs_category_id := "7";
     Store.rs_image_url := None;
     Store.rs_owner_id := "u-owner";
     Store.rs_is_open := true |}.

Definition fetched_line (order_id dish : string) (price quantity : Z)
  : OrderQueue.line_row (num:=Z) :=
  {| OrderQueue.ln_order_id := order_id;
     OrderQueue.ln_name := dish;
     OrderQueue.ln_price := price;
     OrderQueue.ln_quantity := quantity;
     OrderQueue.ln_restaurant_id := "ra" |}.

(** The lines of restaurant A over two orders. *)
Definition fetched_lines : list (OrderQueue.line_row (num:=Z)) :=
  [fetched_line "o-2" "adobo" 100 1;
   fetched_line "o-1" "rice" 50 2;
   fetched_line "o-2" "sinigang" 120 1].

Definition header (order_id status : string) (created_at : Z)
  : OrderQueue.order_row :=
  {| OrderQueue.or_id := order_id;
     OrderQueue.or_status := status;
     OrderQueue.or_created_at := created_at;
     OrderQueue.or_columns := [("contact_name", "Ana"); ("shipping_address", "Tibanga")] |}.

(** The readable rows of [orders], and the answer to the read of the
    orders [o-2] and [o-1]. *)
Definition orders_table : list OrderQueue.order_row :=
  [header "o-1" "Pending" 1714644000;
   header "o-2" "Preparing" 1714647600;
   header "o-3" "Delivered" 1714651200].

Definition orders_answered : list OrderQueue.order_row :=
  [header "o-2" "Preparing" 1714647600;
   header "o-1" "Pending" 1714644000].

Definition empty_queue : OrderQueue.queue_state (num:=Z) :=
  {| OrderQueue.orders := []; OrderQueue.loading := false |}.

(** The registration form of the scenario: barangay Tibanga, category 7. *)
Definition tibanga_form : Registration.auth_page :=
  {| Registration.email := "owner@business.com";
     Registration.password := "secret-1";
     Registration.ownerName := "Juan Dela Cruz";
     Registration.phoneNumber := "09171234567";
     Registration.restaurantName := "Lutong Bahay";
     Registration.addressStreet := "Quezon Ave";
     Registration.addressBarangay := "Tibanga";
     Registration.restaurantCategoryId := "7";
     Registration.restaurantImageUrl := "";
     Registration.isLogin := false;
     Registration.error := "";
     Registration.loading := false;
     Registration.successMessage := None |}.

Definition transient : Store.store_error :=
  {| Store.code := "57014"; Store.message := "canceling statement due to timeout" |}.

(** A live session; the restaurant insert fails [failures] times, then
    succeeds; the read-back finds the row. *)
Definition flaky_answers (failures : nat) : Registration.answers :=
  {| Registration.signIn_answer :=
       Raised {| Store.code := "400"; Store.message := "Invalid login credentials" |};
     Registration.signUp_answer :=
       Ok {| Registration.ad_user := Some "u-owner";
             Registration.ad_session := Some "token" |};
     Registration.owner_insert_answer := None;
     Registration.restaurant_insert_answer :=
       fun attempt => if Nat.leb attempt failures then Some transient else None;
     Registration.verify_answer := Ok (Some ("ra", "Lutong Bahay")) |}.

(** Sign-up with email confirmation pending: no session. *)
Definition pending_answers : Registration.answers :=
  {| Registration.signIn_answer :=
       Raised {| Store.code := "400"; Store.message := "Email not confirmed" |};
     Registration.signUp_answer :=
       Ok {| Registration.ad_user := Some "u-owner";
             Registration.ad_session := None |};
     Registration.owner_insert_answer := None;
     Registration.restaurant_insert_answer := fun _ => None;
     Registration.verify_answer := Ok None |}.

(** The profile of the signed-in owner. *)
Definition my_owner : Store.owner_row :=
  {| Store.ow_id := "u-owner";
     Store.ow_contact_name := "Juan Dela Cruz";
     Store.ow_phone_number := Some "09171234567" |}.

(** The dashboard of the sample owner once the restaurant has been found. *)
Definition open_dashboard {num : Type} : Dashboard.component (num:=num) :=
  {| Dashboard.authReady := true;
     Dashboard.data := Provisioning.settled "u-owner" my_owner 0 (Some my_restaurant);
     Dashboard.orders := [] |}.

(** The queue of the sample restaurant as [loadOrders] builds it. *)
Definition sample_queue : OrderQueue.queue_state (num:=Z) :=
  fst (OrderQueue.loadOrders (Some my_restaurant) (Ok fetched_lines)
         (Ok orders_answered) empty_queue).

(** The sign-in form of the sample owner. *)
Definition login_form : Registration.auth_page :=
  {| Registration.email := "owner@business.com";
     Registration.password := "secret-1";
     Registration.ownerName := "";
     Registration.phoneNumber := "";
     Registration.restaurantName := "";
     Registration.addressStreet := "";
     Registration.addressBarangay := "";
     Registration.restaurantCategoryId := "";
     Registration.restaurantImageUrl := "";
     Registration.isLogin := true;
     Registration.error := "";
     Registration.loading := false;
     Registration.successMessage := None |}.

(** A live session, and the insert into [owners] refused. *)
Definition owner_refused : Registration.answers :=
  {| Registration.signIn_answer :=
       Raised {| Store.code := "400"; Store.message := "Invalid login credentials" |};
     Registration.signUp_answer :=
       Ok {| Registration.ad_user := Some "u-owner";
             Registration.ad_session := Some "token" |};
     Registration.owner_insert_answer :=
       Some {| Store.code := "42501";
               Store.message := "new row violates row-level security policy" |};
     Registration.restaurant_insert_answer := fun _ => None;
     Registration.verify_answer := Ok None |}.

(** The profile sidebar open on the dashboard of the sample owner. *)
Definition open_sidebar : Profile.profile_state (num:=Z) :=
  {| Profile.page := open_dashboard;
     Profile.showProfileModal := true;
     Profile.isUpdatingProfile := false |}.

(** The write to [owners] accepted, the write to [restaurants] refused. *)
Definition restaurant_write_refused : Profile.profile_answers :=
  {| Profile.owner_update_answer := None;
     Profile.restaurant_update_answer := Some transient;
     Profile.updatedOwner := Some my_owner;
     Profile.updatedRestaurant := Some my_restaurant |}.

(** Both writes accepted, the read-back of [restaurants] without a row. *)
Definition restaurant_not_read_back : Profile.profile_answers :=
  {| Profile.owner_update_answer := None;
     Profile.restaurant_update_answer := None;
     Profile.updatedOwner := Some my_owner;
     Profile.updatedRestaurant := None |}.

(** Whole amounts written in decimal, as the samples use them. *)
Definition whole_amounts : Menu.NumberText Z :=
  {| Menu.parseFloat s := Z.of_N (default 0%N (JsObject.digits_value s 0));
     Menu.parseInt s := Z.of_N (default 0%N (JsObject.digits_value s 0));
     Menu.toString := pretty |}.

(** A dish on the menu of the sample restaurant. *)
Definition adobo : Menu.product (num:=Z) :=
  {| Menu.food_item_id := "ra_1714644000000";
     Menu.pr_name := "Chicken Adobo";
     Menu.pr_price := 120%Z;
     Menu.pr_stock := 25%Z;
     Menu.pr_description := None;
     Menu.pr_image_url := Some "https://img.example/adobo.png";
     Menu.pr_restaurant_id := "ra" |}.

Definition sample_menu : Menu.menu (num:=Z) :=
  {| Menu.myRestaurant := Some my_restaurant;
     Menu.products := [adobo];
     Menu.showProductModal := false;
     Menu.editingProduct := None;
     Menu.productForm := Menu.empty_form |}.

End Samples.

(** * Properties *)

(** ** Facts about strings *)

Module JsStringFacts.
Import JsString.

Lemma trimStart_clean s : starts_clean (trimStart s).
Proof.
  induction s as [|c s IH]; simpl; [exact I|].
  destruct (is_ws c) eqn:E; [exact IH|exact E].
Qed.

Lemma trimStart_id s : starts_clean s -> trimStart s = s.
Proof. destruct s as [|c s]; simpl; [reflexivity|]. intros ->. reflexivity. Qed.

Lemma trimEnd_clean s : starts_clean s -> starts_clean (trimEnd s).
Proof.
  destruct s as [|c s]; simpl; [exact id|].
  intros Hc. destruct (trimEnd s); simpl; [rewrite Hc|]; exact Hc.
Qed.

Lemma trimEnd_idem s : trimEnd (trimEnd s) = trimEnd s.
Proof.
  induction s as [|c s IH]; simpl; [reflexivity|].
  destruct (trimEnd s) as [|d e] eqn:E.
  - destruct (is_ws c) eqn:W; simpl; [reflexivity|]. rewrite W. reflexivity.
  - change (trimEnd (String c (String d e))) with
      (match trimEnd (String d e) with
       | EmptyString => if is_ws c then EmptyString else String c EmptyString
       | t => String c t
       end).
    rewrite IH. reflexivity.
Qed.

Lemma trim_idem s : trim (trim s) = trim s.
Proof.
  unfold trim.
  rewrite (trimStart_id (trimEnd (trimStart s))).
  - apply trimEnd_idem.
  - apply trimEnd_clean, trimStart_clean.
Qed.







End JsStringFacts.

(** ** Image resolution *)

Module ImageResolution.
Import JsString JsStringFacts OrderHistory HistoryView Samples.

Lemma address_truthy v : is_address v = true -> truthy (Some v) = true.
Proof. destruct v; [discriminate|reflexivity]. Qed.

Lemma probe_buckets_cons st key b bs :
  probe_buckets st key (b :: bs) =
  match probe_yield st b key with
  | Some u => Some u
  | None => probe_buckets st key bs
  end.
Proof.
  unfold probe_yield. simpl. destruct (st b key) as [|data]; [reflexivity|].
  destruct (truthy (data_public_url data)) eqn:T; [|reflexivity].
  destruct (data_public_url data); [reflexivity|discriminate].
Qed.

(** The loop returns the address of the first bucket that yields one. *)
Lemma probe_buckets_first st key bs u :
  probe_buckets st key bs = Some u <->
  exists i b, bs !! i = Some b /\ probe_yield st b key = Some u /\
    forall j b', j < i -> bs !! j = Some b' -> probe_yield st b' key = None.
Proof.
  induction bs as [|b bs IH].
  - split; [discriminate|]. intros (i & b & Hi & _). destruct i; discriminate.
  - rewrite probe_buckets_cons. destruct (probe_yield st b key) as [v|] eqn:Y.
    + split.
      * intros [= ->]. exists 0, b. repeat split; [exact Y|]. intros j b' Hj. lia.
      * intros ([|i] & b0 & Hi & Hy & Hlt).
        -- simpl in Hi. injection Hi as <-. congruence.
        -- specialize (Hlt 0 b (Nat.lt_0_succ i) eq_refl). congruence.
    + rewrite IH. split.
      * intros (i & b0 & Hi & Hy & Hlt). exists (S i), b0. repeat split; [exact Hi|exact Hy|].
        intros [|j] b' Hj Hb'.
        -- simpl in Hb'. injection Hb' as <-. exact Y.
        -- apply (Hlt j b'); [lia|exact Hb'].
      * intros ([|i] & b0 & Hi & Hy & Hlt).
        -- simpl in Hi. injection Hi as <-. congruence.
        -- exists i, b0. repeat split; [exact Hi|exact Hy|].
           intros j b' Hj Hb'. apply (Hlt (S j) b'); [lia|exact Hb'].
Qed.


Lemma resolveImage_address st r :
  is_address (trim r) = true -> resolveImage st (Str r) = Some (trim r).
Proof.
  intros Ha. destruct r as [|c r']; [discriminate Ha|].
  unfold resolveImage. cbn [ref_truthy truthy negb]. rewrite Ha. reflexivity.
Qed.












Lemma probe_buckets_yield st key bs u :
  probe_buckets st key bs = Some u ->
  exists b, probe_yield st b key = Some u.
Proof.
  intros Hp. apply probe_buckets_first in Hp as (i & b & _ & Hy & _). eauto.
Qed.

Lemma resolveImage_result st raw u :
  yields_addresses st -> resolveImage st raw = Some u ->
  is_address u = true /\ trim u = u.
Proof.
  intros Hst. unfold resolveImage.
  destruct (negb (ref_truthy raw)); [discriminate|].
  set (value := match raw with Obj o => object_value o | Str s => Some s | Absent => None end).
  destruct (negb (truthy value)); [discriminate|].
  destruct value as [v|]; [|discriminate].
  destruct (is_address (trim v)) eqn:Ha.
  - intros [= <-]. split; [exact Ha|apply trim_idem].
  - intros Hp. apply probe_buckets_yield in Hp as (b & Hy). exact (Hst _ _ _ Hy).
Qed.

(** C8. Image resolution is idempotent: on a storage whose public addresses
    are fully-qualified, resolving the result of a resolution gives that
    result again (no image stays no image, an address is returned
    unchanged), and every http or https address (a string with that scheme
    and no surrounding white space) resolves to itself. *)
Theorem resolveImage_idempotent (st : storage) (Hst : yields_addresses st) :
  (forall raw,
     resolveImage st (as_ref (resolveImage st raw)) = resolveImage st raw) /\
  (forall raw u, resolveImage st raw = Some u ->
     resolveImage st (Str u) = Some u) /\
  (forall r, test_http r = true -> trim r = r ->
     resolveImage st (Str r) = Some r).
Proof.
  assert (Hfix : forall u, is_address u = true -> trim u = u ->
                   resolveImage st (Str u) = Some u).
  { intros u Ha Ht. rewrite <- Ht at 2. apply resolveImage_address.
    rewrite Ht. exact Ha. }
  assert (Hres : forall raw u, resolveImage st raw = Some u ->
                   resolveImage st (Str u) = Some u).
  { intros raw u Hr. destruct (resolveImage_result st raw u Hst Hr). auto. }
  split; [|split].
  - intros raw. destruct (resolveImage st raw) as [u|] eqn:Hr; simpl as_ref.
    + eauto.
    + reflexivity.
  - exact Hres.
  - intros r Hh Ht. apply Hfix; [|exact Ht].
    unfold is_address. rewrite Hh. reflexivity.
Qed.

(** Resolution on sample references: an address within white space, an
    upper-case scheme, an inline payload, a storage key found in the second
    bucket after the first one raised, and a key that no bucket knows. *)
Example resolveImage_samples :
  resolveImage cdn_storage (Str "  https://img.example/a.png ")
    = Some "https://img.example/a.png" /\
  resolveImage empty_storage (Str "HTTP://img.example/a.png")
    = Some "HTTP://img.example/a.png" /\
  resolveImage empty_storage (Str "data:image/png;base64,iVBOR")
    = Some "data:image/png;base64,iVBOR" /\
  resolveImage second_bucket_storage (Str "//menu/adobo.png")
    = Some "https://cdn.example/restaurant-images/menu/adobo.png" /\
  resolveImage empty_storage (Str "/menu/adobo.png") = None /\
  resolveImage cdn_storage (Obj {| io_url := None; io_path := Some "menu/a.png";
                                   io_publicUrl := None; io_public_url := None;
                                   io_publicURL := None |})
    = Some "https://cdn.example/food.png".
Proof. repeat split. Qed.

Lemma cdn_storage_yields_addresses : yields_addresses cdn_storage.
Proof.
  intros bucket key u. unfold probe_yield, cdn_storage. simpl.
  intros [= <-]. split; reflexivity.
Qed.

Lemma resolveImage_idempotent_witness :
  resolveImage cdn_storage (as_ref (resolveImage cdn_storage (Str "/menu/adobo.png")))
  = resolveImage cdn_storage (Str "/menu/adobo.png").
Proof.
  exact (proj1 (resolveImage_idempotent cdn_storage cdn_storage_yields_addresses)
           (Str "/menu/adobo.png")).
Defined.


End ImageResolution.

(** ** Facts about lists and dictionaries *)

Module ListFacts.

Section Distinct.
Context {A : Type} `{EqDecision A}.
Implicit Types l : list A.

Lemma distinct_snoc l x : distinct (l ++ [x]) = add_once (distinct l) x.
Proof. unfold distinct. rewrite fold_left_app. reflexivity. Qed.

Lemma elem_of_add_once l x y : y ∈ add_once l x <-> y ∈ l \/ y = x.
Proof.
  unfold add_once. case_bool_decide as Hx.
  - split; [auto|]. intros [Hy| ->]; assumption.
  - rewrite elem_of_app, list_elem_of_singleton. reflexivity.
Qed.

Lemma elem_of_distinct l x : x ∈ distinct l <-> x ∈ l.
Proof.
  induction l as [|y l IH] using rev_ind.
  - reflexivity.
  - rewrite distinct_snoc, elem_of_add_once, IH, elem_of_app,
      list_elem_of_singleton. reflexivity.
Qed.

Lemma NoDup_add_once l x : NoDup l -> NoDup (add_once l x).
Proof.
  intros Hl. unfold add_once. case_bool_decide as Hx; [exact Hl|].
  apply NoDup_app. split; [exact Hl|]. split.
  - intros y Hy Hy'. apply list_elem_of_singleton in Hy'. congruence.
  - apply NoDup_singleton.
Qed.

Lemma NoDup_distinct l : NoDup (distinct l).
Proof.
  induction l as [|y l IH] using rev_ind.
  - constructor.
  - rewrite distinct_snoc. apply NoDup_add_once, IH.
Qed.

(** Two duplicate-free lists with the same elements have the same length. *)
Lemma distinct_length_same l l' :
  (forall x, x ∈ l <-> x ∈ l') -> length (distinct l) = length (distinct l').
Proof.
  intros Hsame. apply Permutation_length, NoDup_Permutation.
  - apply NoDup_distinct.
  - apply NoDup_distinct.
  - intros x. rewrite !elem_of_distinct. apply Hsame.
Qed.

Lemma distinct_cons_length l x :
  length (distinct (x :: l)) =
  if bool_decide (x ∈ l) then length (distinct l) else S (length (distinct l)).
Proof.
  case_bool_decide as Hx.
  - apply distinct_length_same. intros y. rewrite elem_of_cons.
    split; [intros [->|Hy]; assumption|auto].
  - transitivity (length (distinct (l ++ [x]))).
    + apply distinct_length_same. intros y.
      rewrite elem_of_cons, elem_of_app, list_elem_of_singleton. tauto.
    + rewrite distinct_snoc. unfold add_once.
      rewrite bool_decide_eq_false_2 by (rewrite elem_of_distinct; exact Hx).
      rewrite length_app. simpl. lia.
Qed.

End Distinct.

Section Functional.
Context {A B : Type} `{EqDecision A} `{EqDecision B}.
Implicit Types l : list (A * B).

Lemma functional_tail p l : functional (p :: l) -> functional l.
Proof.
  intros Hf a b b' Hb Hb'. apply (Hf a); apply elem_of_cons; right; assumption.
Qed.

Lemma functional_head a b l :
  functional ((a, b) :: l) -> a ∈ map fst l -> b ∈ map snd l.
Proof.
  intros Hf Ha. apply list_elem_of_fmap in Ha as ([a' b'] & Heq & Hin).
  simpl in Heq. subst a'.
  assert (b = b') as ->.
  { apply (Hf a); [apply list_elem_of_here|]. apply elem_of_cons. right. exact Hin. }
  apply list_elem_of_fmap. exists (a, b'). split; [reflexivity|exact Hin].
Qed.

(** There are no more second components than first components. *)
Lemma distinct_images_le l :
  functional l ->
  length (distinct (map snd l)) <= length (distinct (map fst l)).
Proof.
  induction l as [|[a b] l IH]; intros Hf; [reflexivity|].
  specialize (IH (functional_tail _ _ Hf)).
  pose proof (functional_head a b l Hf) as Hhead.
  simpl map. rewrite !distinct_cons_length.
  repeat case_bool_decide; try lia. tauto.
Qed.

(** Two first components with the same image leave strictly fewer images. *)
Lemma distinct_images_lt l a1 a2 b :
  functional l -> (a1, b) ∈ l -> (a2, b) ∈ l -> a1 <> a2 ->
  length (distinct (map snd l)) < length (distinct (map fst l)).
Proof.
  induction l as [|[a0 b0] l IH]; intros Hf H1 H2 Hne; [inversion H1|].
  pose proof (distinct_images_le l (functional_tail _ _ Hf)) as Hle.
  specialize (IH (functional_tail _ _ Hf)).
  assert (Hsnd : forall a, (a, b) ∈ l -> b ∈ map snd l).
  { intros a Ha. apply list_elem_of_fmap. exists (a, b). auto. }
  assert (Hback : a0 ∈ map fst l -> (a0, b0) ∈ l).
  { intros Ha. apply list_elem_of_fmap in Ha as ([a' b'] & Heq & Hin).
    simpl in Heq. subst a'.
    assert (b0 = b') as ->; [|exact Hin].
    apply (Hf a0); [apply list_elem_of_here|]. apply elem_of_cons. right. exact Hin. }
  assert (Hin_l : and ((a1, b) ∈ l) ((a2, b) ∈ l) \/
                  (b0 = b /\ ~ (a0 ∈ map fst l) /\ b ∈ map snd l)).
  { apply elem_of_cons in H1 as [E1|H1]; apply elem_of_cons in H2 as [E2|H2].
    - congruence.
    - injection E1 as -> ->. destruct (decide (a0 ∈ map fst l)) as [Ha|Ha].
      + left. split; [apply Hback, Ha|exact H2].
      + right. eauto.
    - injection E2 as -> ->. destruct (decide (a0 ∈ map fst l)) as [Ha|Ha].
      + left. split; [exact H1|apply Hback, Ha].
      + right. eauto.
    - left. auto. }
  pose proof (functional_head a0 b0 l Hf) as Hhead.
  simpl map. rewrite !distinct_cons_length.
  destruct Hin_l as [[H1' H2']|(-> & Ha & Hb)].
  - specialize (IH H1' H2' Hne). repeat case_bool_decide; try lia. tauto.
  - rewrite (bool_decide_eq_false_2 _ Ha), (bool_decide_eq_true_2 _ Hb). lia.
Qed.

End Functional.

Lemma concat_map_app {A B} (f g : A -> list B) (l : list A) :
  concat (map (fun x => f x ++ g x) l) ≡ₚ concat (map f l) ++ concat (map g l).
Proof.
  induction l as [|x l IH]; simpl; [reflexivity|].
  rewrite IH. rewrite <- !app_assoc. apply Permutation_app_head.
  rewrite !app_assoc. apply Permutation_app_tail. apply Permutation_app_comm.
Qed.


End ListFacts.

Module JsObjectFacts.
Import JsObject.

Section Dictionary.
Context {V : Type}.
Implicit Types (o : obj V) (k : string) (v : V).

Lemma own_define o k v k' :
  own (define o k v) k' =
  match own o k' with
  | Some v' => Some v'
  | None => if String.eqb k k' then Some v else None
  end.
Proof.
  unfold define. induction o as [|[k0 v0] o IH]; simpl; [reflexivity|].
  destruct (String.eqb k0 k'); [reflexivity|exact IH].
Qed.

Lemma update_define o k v f :
  own o k = None -> update (define o k v) k f = o ++ [(k, f v)].
Proof.
  unfold define. induction o as [|[k0 v0] o IH]; simpl.
  - rewrite String.eqb_refl. reflexivity.
  - destruct (String.eqb k0 k); [discriminate|]. intros Ho. rewrite IH; auto.
Qed.

Lemma own_keyed (f : string -> V) (ks : list string) k :
  own (map (fun k' => (k', f k')) ks) k = if bool_decide (k ∈ ks) then Some (f k) else None.
Proof.
  induction ks as [|k0 ks IH]; simpl; [reflexivity|].
  destruct (String.eqb_spec k0 k) as [->|Hne].
  - rewrite bool_decide_eq_true_2 by apply list_elem_of_here. reflexivity.
  - rewrite IH. apply (f_equal (fun b : bool => if b then Some (f k) else None)).
    apply bool_decide_ext. rewrite elem_of_cons. split; [auto|].
    intros [->|Hk]; [congruence|exact Hk].
Qed.

Lemma update_keyed (f : string -> V) (g : V -> V) (ks : list string) k :
  NoDup ks ->
  update (map (fun k' => (k', f k')) ks) k g =
  map (fun k' => (k', if bool_decide (k' = k) then g (f k') else f k')) ks.
Proof.
  induction 1 as [|k0 ks Hk0 Hnd IH]; simpl; [reflexivity|].
  destruct (String.eqb_spec k0 k) as [->|Hne].
  - rewrite bool_decide_eq_true_2 by reflexivity. f_equal.
    apply map_ext_in. intros k' Hk'. apply list_elem_of_In in Hk'.
    rewrite bool_decide_eq_false_2; [reflexivity|]. intros ->. contradiction.
  - rewrite bool_decide_eq_false_2 by exact Hne. rewrite IH. reflexivity.
Qed.

Lemma own_update_None o k k' (f : V -> V) :
  own o k' = None -> own (update o k f) k' = None.
Proof.
  induction o as [|[k0 v0] o IH]; simpl; [reflexivity|].
  destruct (String.eqb k0 k') eqn:E'; [discriminate|]. intros Ho.
  destruct (String.eqb k0 k); simpl; rewrite E'; auto.
Qed.

Lemma own_define_None o k v k' :
  own o k' = None -> k <> k' -> own (define o k v) k' = None.
Proof.
  intros Ho Hne. rewrite own_define, Ho.
  destruct (String.eqb_spec k k'); [contradiction|reflexivity].
Qed.

Lemma insert_by_index_perm (e : N * V) l : insert_by_index e l ≡ₚ e :: l.
Proof.
  induction l as [|e' l IH]; simpl; [reflexivity|].
  destruct (fst e <=? fst e')%N; [reflexivity|].
  rewrite IH. apply perm_swap.
Qed.

(** [Object.values] lists every own property once. *)
Lemma values_perm o : values o ≡ₚ map snd o.
Proof.
  unfold values. induction o as [|[k v] o IH]; simpl; [reflexivity|].
  destruct (array_index k) as [n|].
  - rewrite insert_by_index_perm. simpl. rewrite IH. reflexivity.
  - rewrite <- Permutation_middle. rewrite IH. reflexivity.
Qed.

End Dictionary.

End JsObjectFacts.

(** ** Order-history segmentation *)

Module Segmentation.
Import JsString JsObject ListFacts JsObjectFacts OrderHistory.

Lemma reduce_result_snoc {E A B} (f : B -> A -> result E B) l x acc :
  reduce_result f (l ++ [x]) acc =
  bind_result (reduce_result f l acc) (fun a => f a x).
Proof.
  revert acc. induction l as [|y l IH]; intros acc; simpl.
  - destruct (f acc x); reflexivity.
  - destruct (f acc y); simpl; [apply IH|reflexivity].
Qed.

Section Groups.
Context {num : Type} `{JSNumber num}.
Implicit Types (item : order_item (num:=num)) (L : list (order_item (num:=num))).
Implicit Types k : string.

Lemma items_named_snoc k L x :
  items_named k (L ++ [x]) =
  items_named k L ++ (if decide (restaurant_key x = Some k) then [x] else []).
Proof.
  unfold items_named. rewrite filter_app. reflexivity.
Qed.

Lemma subtotal_of_snoc (its : list (order_item (num:=num))) x :
  subtotal_of (its ++ [x]) = num_add (subtotal_of its) (item_total x).
Proof. unfold subtotal_of. rewrite fold_left_app. reflexivity. Qed.

Lemma restaurant_names_snoc L x :
  restaurant_names (L ++ [x]) =
  match restaurant_key x with
  | Some k => add_once (restaurant_names L) k
  | None => restaurant_names L
  end.
Proof.
  unfold restaurant_names. rewrite omap_app. simpl.
  destruct (restaurant_key x) as [k|].
  - apply distinct_snoc.
  - rewrite app_nil_r. reflexivity.
Qed.

Lemma elem_of_restaurant_names L k :
  k ∈ restaurant_names L <-> exists item, item ∈ L /\ restaurant_key item = Some k.
Proof. unfold restaurant_names. rewrite elem_of_distinct. apply list_elem_of_omap. Qed.

Lemma elem_of_items_named L k item :
  item ∈ items_named k L <-> item ∈ L /\ restaurant_key item = Some k.
Proof. unfold items_named. rewrite list_elem_of_filter. tauto. Qed.

Lemma items_named_nil L k : k ∉ restaurant_names L -> items_named k L = [].
Proof.
  intros Hk. destruct (items_named k L) as [|item its] eqn:E; [reflexivity|].
  exfalso. apply Hk. apply elem_of_restaurant_names. exists item.
  apply elem_of_items_named. rewrite E. apply list_elem_of_here.
Qed.

Lemma items_named_cons L k :
  k ∈ restaurant_names L -> exists item its, items_named k L = item :: its.
Proof.
  intros (item & Hin & Hk)%elem_of_restaurant_names.
  assert (Hi : item ∈ items_named k L) by (apply elem_of_items_named; auto).
  destruct (items_named k L) as [|i its]; [inversion Hi|eauto].
Qed.

Lemma names_safe_snoc L x : names_safe (L ++ [x]) -> names_safe L.
Proof.
  intros Hs item k Hin. apply Hs. apply elem_of_app. left. exact Hin.
Qed.

Lemma group_for_snoc_other L x k :
  restaurant_key x <> Some k -> group_for (L ++ [x]) k = group_for L k.
Proof.
  intros Hne. unfold group_for. rewrite items_named_snoc.
  rewrite decide_False by exact Hne. rewrite app_nil_r. reflexivity.
Qed.

Lemma group_for_snoc_same L x k :
  restaurant_key x = Some k -> k ∈ restaurant_names L ->
  group_for (L ++ [x]) k = add_item x (group_for L k).
Proof.
  intros Hk Hin. unfold group_for, add_item. rewrite items_named_snoc.
  rewrite decide_True by exact Hk. rewrite subtotal_of_snoc. simpl.
  destruct (items_named_cons L k Hin) as (i & its & ->). reflexivity.
Qed.

Lemma group_for_snoc_new L x k :
  restaurant_key x = Some k -> k ∉ restaurant_names L ->
  group_for (L ++ [x]) k =
  add_item x {| g_restaurantName := k;
                g_restaurantId := item_restaurant_id x;
                g_items := [];
                g_subtotal := num_zero |}.
Proof.
  intros Hk Hin. unfold group_for, add_item. rewrite items_named_snoc.
  rewrite decide_True by exact Hk. rewrite (items_named_nil L k Hin).
  reflexivity.
Qed.

(** The reduction never raises on safe names, and builds one group per
    name, in order of first appearance. *)
Lemma restaurantGroups_grouped L :
  names_safe L -> restaurantGroups L = Ok (grouped L).
Proof.
  induction L as [|x L IH] using rev_ind; intros Hsafe; [reflexivity|].
  unfold restaurantGroups. rewrite reduce_result_snoc.
  fold (restaurantGroups L). rewrite (IH (names_safe_snoc L x Hsafe)).
  simpl bind_result. unfold group_step, grouped.
  rewrite restaurant_names_snoc.
  destruct (restaurant_key x) as [k|] eqn:Hk.
  - assert (Hinh : inherited k = false).
    { apply (Hsafe x k); [|exact Hk]. apply elem_of_app. right. apply list_elem_of_here. }
    unfold lacks, add_once. rewrite own_keyed, Hinh.
    case_bool_decide as Hin.
    + rewrite own_keyed, bool_decide_eq_true_2 by exact Hin.
      rewrite update_keyed by apply NoDup_distinct. f_equal.
      apply map_ext_in. intros k' _. f_equal. case_bool_decide as Hk'.
      * subst k'. symmetry. apply group_for_snoc_same; assumption.
      * symmetry. apply group_for_snoc_other. congruence.
    + simpl negb. cbv iota. rewrite own_define, own_keyed.
      rewrite bool_decide_eq_false_2 by exact Hin. rewrite String.eqb_refl.
      rewrite update_define by (rewrite own_keyed, bool_decide_eq_false_2; auto).
      f_equal. rewrite map_app. simpl. f_equal.
      * apply map_ext_in. intros k' Hk'%list_elem_of_In. f_equal.
        symmetry. apply group_for_snoc_other. congruence.
      * f_equal. f_equal. symmetry. apply group_for_snoc_new; assumption.
  - f_equal. apply map_ext_in. intros k' _. f_equal.
    symmetry. apply group_for_snoc_other. congruence.
Qed.

Lemma group_step_raises acc item k :
  prototype_free acc -> restaurant_key item = Some k -> inherited k = true ->
  group_step acc item = Raised TypeError.
Proof.
  intros Hfree Hk Hinh. unfold group_step, lacks.
  rewrite Hk, (Hfree k Hinh), Hinh. simpl. rewrite (Hfree k Hinh). reflexivity.
Qed.

Lemma group_step_ok acc item :
  prototype_free acc ->
  (forall k, restaurant_key item = Some k -> inherited k = false) ->
  exists acc', group_step acc item = Ok acc' /\ prototype_free acc'.
Proof.
  intros Hfree Hsafe. unfold group_step, lacks.
  destruct (restaurant_key item) as [k|]; [|eauto].
  rewrite (Hsafe k eq_refl). destruct (own acc k) as [g|] eqn:Ho.
  - rewrite Ho. eexists. split; [reflexivity|].
    intros k' Hk'. apply own_update_None, Hfree, Hk'.
  - simpl. rewrite own_define, Ho, String.eqb_refl.
    eexists. split; [reflexivity|].
    intros k' Hk'. apply own_update_None, own_define_None; [apply Hfree, Hk'|].
    intros ->. rewrite (Hsafe k' eq_refl) in Hk'. discriminate.
Qed.

(** An item whose restaurant is named after a member of [Object.prototype]
    makes the reduction raise. *)
Lemma restaurantGroups_raises L item k :
  item ∈ L -> restaurant_key item = Some k -> inherited k = true ->
  restaurantGroups L = Raised TypeError.
Proof.
  unfold restaurantGroups. intros Hin Hk Hinh.
  assert (Hfree : prototype_free (@nil (string * group (num:=num))))
    by (intros k' _; reflexivity).
  revert Hfree Hin. generalize (@nil (string * group (num:=num))).
  induction L as [|x L IH]; intros acc Hfree Hin; [inversion Hin|].
  simpl.
  destruct (restaurant_key x) as [kx|] eqn:Hx;
    [destruct (inherited kx) eqn:Hix|].
  - rewrite (group_step_raises acc x kx Hfree Hx Hix). reflexivity.
  - destruct (group_step_ok acc x Hfree) as (acc' & -> & Hfree').
    { intros k' Hk'. congruence. }
    simpl. apply IH; [exact Hfree'|].
    apply elem_of_cons in Hin as [->|Hin]; [congruence|exact Hin].
  - destruct (group_step_ok acc x Hfree) as (acc' & -> & Hfree').
    { intros k' Hk'. congruence. }
    simpl. apply IH; [exact Hfree'|].
    apply elem_of_cons in Hin as [->|Hin]; [congruence|exact Hin].
Qed.

End Groups.


Section Partition.
Context {num : Type} `{JSNumber num}.
Implicit Types (item : order_item (num:=num)) (L : list (order_item (num:=num))).
Implicit Types (k : string) (D : list string).

Lemma concat_map_nil {A} (f : string -> list A) D :
  (forall k, k ∈ D -> f k = []) -> concat (map f D) = [].
Proof.
  induction D as [|k D IH]; intros Hf; simpl; [reflexivity|].
  rewrite (Hf k) by apply list_elem_of_here. simpl. apply IH.
  intros k' Hk'. apply Hf. apply elem_of_cons. right. exact Hk'.
Qed.





End Partition.

Section Sums.
Context {num : Type} `{ExactArith num}.
Implicit Types l : list num.






End Sums.

Section Segments.
Context {num : Type} `{JSNumber num}.
Variable st : storage.
Variable toLocaleDateString : string -> string.
Implicit Types (item : order_item (num:=num)) (L : list (order_item (num:=num))).
Implicit Types (o : order (num:=num)) (k : string).

Lemma restaurant_key_enrich item :
  restaurant_key (enrich st item) = restaurant_key item.
Proof. reflexivity. Qed.

Lemma names_safe_enriched o :
  names_safe (default [] (order_items o)) -> names_safe (enrichedItems st o).
Proof.
  intros Hs item k Hin Hk. unfold enrichedItems in Hin.
  apply list_elem_of_fmap in Hin as (item0 & -> & Hin0).
  exact (Hs item0 k Hin0 Hk).
Qed.

(** On safe names segmentation returns, and its segments are those of the
    restaurant names, one each. *)
Lemma segmentOrder_canonical o :
  names_safe (default [] (order_items o)) ->
  exists segs,
    segmentOrder st toLocaleDateString o = Ok segs /\
    segs ≡ₚ map (segment_for st toLocaleDateString o)
             (restaurant_names (enrichedItems st o)).
Proof.
  intros Hs. unfold segmentOrder.
  rewrite (restaurantGroups_grouped _ (names_safe_enriched o Hs)).
  simpl bind_result.
  set (segs := map (segment_of toLocaleDateString o)
                 (values (grouped (enrichedItems st o)))).
  exists segs. split.
  - f_equal. destruct segs; reflexivity.
  - unfold segs. rewrite values_perm. unfold grouped. rewrite !map_map.
    reflexivity.
Qed.

Lemma elem_of_segments o segs seg :
  segs ≡ₚ map (segment_for st toLocaleDateString o)
           (restaurant_names (enrichedItems st o)) ->
  seg ∈ segs <->
  exists k, k ∈ restaurant_names (enrichedItems st o) /\
            seg = segment_for st toLocaleDateString o k.
Proof.
  intros ->. rewrite list_elem_of_fmap. split; intros (k & ? & ?); eauto.
Qed.

End Segments.


Section Claims.
Context {num : Type} `{JSNumber num}.
Variable st : storage.
Variable toLocaleDateString : string -> string.
Implicit Types (item : order_item (num:=num)) (L : list (order_item (num:=num))).
Implicit Types (o : order (num:=num)) (k : string).

Lemma omap_key_cons x L :
  omap restaurant_key (x :: L) =
  match restaurant_key x with
  | Some k => k :: omap restaurant_key L
  | None => omap restaurant_key L
  end.
Proof. reflexivity. Qed.






End Claims.


Section Merging.
Context {num : Type} `{JSNumber num}.
Variable st : storage.
Variable toLocaleDateString : string -> string.
Implicit Types (item : order_item (num:=num)) (L : list (order_item (num:=num))).
Implicit Types (o : order (num:=num)) (k : string).

Lemma filter_segment_for_none o k D :
  k ∉ D ->
  filter (fun s => restaurantName s = k)
    (map (segment_for st toLocaleDateString o) D) = [].
Proof.
  induction D as [|k0 D IH]; intros Hk; [reflexivity|].
  simpl map. rewrite filter_cons_False.
  - apply IH. intros Hin. apply Hk. apply elem_of_cons. right. exact Hin.
  - simpl. intros ->. apply Hk. apply list_elem_of_here.
Qed.

Lemma filter_segment_for o k D :
  NoDup D -> k ∈ D ->
  filter (fun s => restaurantName s = k)
    (map (segment_for st toLocaleDateString o) D)
  = [segment_for st toLocaleDateString o k].
Proof.
  induction 1 as [|k0 D Hk0 Hnd IH]; intros Hin; [inversion Hin|].
  simpl map. rewrite filter_cons. simpl restaurantName.
  destruct (decide (k0 = k)) as [->|Hne].
  - f_equal. apply filter_segment_for_none. exact Hk0.
  - apply IH. apply elem_of_cons in Hin as [->|Hin]; [congruence|exact Hin].
Qed.

Lemma key_pairs_snd L :
  map restaurant_key (filter resolvable L) = map Some (omap restaurant_key L).
Proof.
  induction L as [|x L IH]; [reflexivity|].
  rewrite filter_cons, omap_key_cons.
  destruct (decide (resolvable x)) as [[k Hk]|Hx].
  - simpl map. rewrite Hk, IH. reflexivity.
  - rewrite IH. destruct (restaurant_key x) as [k|] eqn:Hk; [|reflexivity].
    exfalso. apply Hx. exists k. exact Hk.
Qed.

Lemma distinct_length_Some (l : list string) :
  length (distinct (map Some l)) = length (distinct l).
Proof.
  induction l as [|x l IH]; [reflexivity|].
  simpl map. rewrite !distinct_cons_length, IH.
  apply (f_equal (fun b : bool => if b then _ else _)).
  apply bool_decide_ext. rewrite list_elem_of_fmap. split.
  - intros (y & [= <-] & Hy). exact Hy.
  - intros Hx. exists x. auto.
Qed.

(** When each identifier carries one name and two identifiers share a name,
    there are fewer names than identifiers. *)
Lemma fewer_names_than_ids L i1 i2 k :
  names_by_id L -> i1 ∈ L -> i2 ∈ L ->
  restaurant_key i1 = Some k -> restaurant_key i2 = Some k ->
  item_restaurant_id i1 <> item_restaurant_id i2 ->
  length (restaurant_names L) < length (restaurant_ids L).
Proof.
  intros Hfun Hi1 Hi2 Hk1 Hk2 Hne.
  set (P := map (fun item => (item_restaurant_id item, restaurant_key item))
              (filter resolvable L)).
  assert (Hin : forall item, item ∈ L -> resolvable item ->
            (item_restaurant_id item, restaurant_key item) ∈ P).
  { intros item Hitem Hres. apply list_elem_of_fmap. exists item.
    split; [reflexivity|]. apply list_elem_of_filter. auto. }
  assert (HP : functional P).
  { intros a b b' Hb Hb'.
    apply list_elem_of_fmap in Hb as (i & [= -> ->] & Hi%list_elem_of_filter).
    apply list_elem_of_fmap in Hb' as (j & [= Hij ->] & Hj%list_elem_of_filter).
    apply Hfun; tauto. }
  unfold restaurant_names, restaurant_ids.
  rewrite <- distinct_length_Some, <- key_pairs_snd.
  replace (map restaurant_key (filter resolvable L)) with (map snd P)
    by (unfold P; rewrite map_map; reflexivity).
  replace (map item_restaurant_id (filter resolvable L)) with (map fst P)
    by (unfold P; rewrite map_map; reflexivity).
  apply (distinct_images_lt P (item_restaurant_id i1) (item_restaurant_id i2)
           (Some k) HP).
  - rewrite <- Hk1. apply Hin; [exact Hi1|]. exists k. exact Hk1.
  - rewrite <- Hk2. apply Hin; [exact Hi2|]. exists k. exact Hk2.
  - exact Hne.
Qed.

(** C3, as the code has it. Segments are keyed by the restaurant's display
    name. When no restaurant of the order bears the name of a member of
    [Object.prototype] and the order has items of two restaurants with
    different identifiers and the same non-empty name, the order shows a
    single segment under that name; it holds all the items of that name,
    those two among them, its subtotal is the running sum over all of
    them, and its display id is built from the restaurant id of the first
    of them in the order. When moreover each
    identifier carries one name, the order shows fewer segments than it has
    restaurants. When on the contrary some restaurant of the order, the
    shared one or another, bears the name of a member of
    [Object.prototype], the segmentation raises and the order shows no
    segment at all. *)
Theorem same_name_restaurants_merge o i1 i2 k :
  i1 ∈ enrichedItems st o -> i2 ∈ enrichedItems st o ->
  restaurant_key i1 = Some k -> restaurant_key i2 = Some k ->
  item_restaurant_id i1 <> item_restaurant_id i2 ->
  (names_safe (default [] (order_items o)) ->
   exists segs seg first,
     segmentOrder st toLocaleDateString o = Ok segs /\
     filter (fun s => restaurantName s = k) segs = [seg] /\
     i1 ∈ seg_order_items seg /\ i2 ∈ seg_order_items seg /\
     seg_order_items seg = items_named k (enrichedItems st o) /\
     total seg = subtotal_of (items_named k (enrichedItems st o)) /\
     head (items_named k (enrichedItems st o)) = Some first /\
     displayId seg = id o +:+ "-" +:+ id_text (item_restaurant_id first) /\
     (names_by_id (enrichedItems st o) ->
      length segs < length (restaurant_ids (enrichedItems st o)))) /\
  (forall item k', item ∈ enrichedItems st o ->
     restaurant_key item = Some k' -> inherited k' = true ->
     segmentOrder st toLocaleDateString o = Raised TypeError).
Proof.
  intros Hi1 Hi2 Hk1 Hk2 Hne. split.
  2: { intros item k' Hin Hk' Hinh. unfold segmentOrder.
       rewrite (restaurantGroups_raises _ item k' Hin Hk' Hinh). reflexivity. }
  intros Hsafe.
  destruct (segmentOrder_canonical st toLocaleDateString o Hsafe)
    as (segs & Hrun & Hperm).
  set (L := enrichedItems st o) in *.
  assert (Hk : k ∈ restaurant_names L).
  { apply elem_of_restaurant_names. eauto. }
  destruct (items_named_cons L k Hk) as (first & its & Hfirst).
  exists segs, (segment_for st toLocaleDateString o k), first.
  split; [exact Hrun|]. split.
  { apply Permutation_singleton_r.
    rewrite Hperm. rewrite filter_segment_for; [reflexivity|apply NoDup_distinct|exact Hk]. }
  split; [apply elem_of_items_named; auto|].
  split; [apply elem_of_items_named; auto|].
  split; [reflexivity|]. split; [reflexivity|]. split.
  { fold L. rewrite Hfirst. reflexivity. }
  split.
  { unfold segment_for, segment_of, group_for. simpl. fold L.
    rewrite Hfirst. reflexivity. }
  intros Hfun. rewrite Hperm, length_map.
  apply (fewer_names_than_ids L i1 i2 k); assumption.
Qed.

End Merging.


(** *** The properties on the sample orders *)

Section OnSamples.
Import Samples.

Lemma names_safe_Forall {num} `{JSNumber num} (L : list (order_item (num:=num))) :
  Forall (fun item => match restaurant_key item with
                      | Some k => inherited k = false
                      | None => True
                      end) L ->
  names_safe L.
Proof.
  intros Hall item k Hin Hk. rewrite Forall_forall in Hall.
  specialize (Hall item Hin).
  rewrite Hk in Hall. exact Hall.
Qed.


Lemma two_branches_names_safe : names_safe (default [] (order_items two_branches)).
Proof. apply names_safe_Forall. repeat constructor. Qed.

(** The scenario of the design document: restaurant A with 100 x 1 and
    50 x 2, restaurant B with 75 x 1 give two segments, 200 and 75. *)
Example scenario_segments :
  exists a b,
    segmentOrder cdn_storage day_of scenario_order = Ok [a; b] /\
    restaurantName a = "Restaurant A" /\ total a = 200%Z /\
    map oi_name (seg_order_items a) = ["adobo"; "rice"] /\
    restaurantName b = "Restaurant B" /\ total b = 75%Z /\
    map oi_name (seg_order_items b) = ["halo-halo"].
Proof. eexists; eexists. split; [reflexivity|]. repeat split. Qed.

(** A restaurant named [constructor] makes the reduction raise. *)
Example constructor_order_raises :
  segmentOrder cdn_storage day_of constructor_order = Raised TypeError.
Proof. reflexivity. Qed.

(** On binary64 amounts the subtotals are the running sums of their own
    items, so that adding up the segments regroups the additions: for
    99.99 and 120.10 in one segment and 49.50 in the other, the segments
    add up to a number other than the sum over the items in order. *)
Example binary64_subtotals_regrouped :
  exists a b,
    segmentOrder cdn_storage day_of centavo_order = Ok [a; b] /\
    total a = subtotal_of (seg_order_items a) /\
    total b = subtotal_of (seg_order_items b) /\
    PrimFloat.eqb (num_sum [total a; total b])
      (num_sum (map item_total (enrichedItems cdn_storage centavo_order)))
    = false.
Proof. eexists; eexists. split; [reflexivity|]. repeat split. Qed.


(** C3 fails as stated, for every order. The two items of the first order
    come from two distinct restaurants whose shared name is empty: the
    guard of the reduction skips them, and the order shows no segment. The
    two items of the second order come from two distinct restaurants that
    share the name [constructor]: the reduction raises, and neither this
    order nor an order fetched with it shows a segment. *)
Lemma same_name_restaurants_merge_counterexample :
  map (fun item => (item_restaurant_id item,
                    (oi_food_items item ≫= fi_restaurants) ≫= r_name))
      (enrichedItems cdn_storage two_unnamed)
    = [(Some "r1", Some ""); (Some "r2", Some "")] /\
  segmentOrder cdn_storage day_of two_unnamed = Ok [] /\
  map (fun item => (item_restaurant_id item,
                    (oi_food_items item ≫= fi_restaurants) ≫= r_name))
      (enrichedItems cdn_storage two_constructors)
    = [(Some "r1", Some "constructor"); (Some "r2", Some "constructor")] /\
  segmentOrder cdn_storage day_of two_constructors = Raised TypeError /\
  groupedDisplayOrders cdn_storage day_of [scenario_order; two_constructors]
    = Raised TypeError.
Proof. repeat split. Qed.



Lemma same_name_restaurants_merge_witness :
  exists segs seg,
    segmentOrder cdn_storage day_of two_branches = Ok segs /\
    filter (fun s => restaurantName s = "Jollibee") segs = [seg] /\
    total seg = 200%Z /\
    displayId seg = id two_branches +:+ "-r1".
Proof.
  destruct (same_name_restaurants_merge cdn_storage day_of two_branches
              (enrich cdn_storage (line "r1" "Jollibee" "chickenjoy" 100%Z 1%Z))
              (enrich cdn_storage (line "r2" "Jollibee" "spaghetti" 50%Z 2%Z))
              "Jollibee") as [Hmerge _].
  - apply list_elem_of_here.
  - apply list_elem_of_further, list_elem_of_here.
  - reflexivity.
  - reflexivity.
  - discriminate.
  - destruct (Hmerge two_branches_names_safe)
      as (segs & seg & first & Hrun & Hone & _ & _ & _ & Htotal & Hfirst & Hid & _).
    exists segs, seg. split; [exact Hrun|]. split; [exact Hone|].
    split; [exact Htotal|]. injection Hfirst as <-. exact Hid.
Defined.

End OnSamples.

End Segmentation.

(** ** The order queue *)

Module OrderQueueFacts.
Import Store OrderQueue ListFacts.

Section Facts.
Context {num : Type} `{JSNumber num} `{ToFixed num}.
Implicit Types (items : list (line_row (num:=num))) (s : queue_state (num:=num)).
Implicit Types (table ordersData : list order_row).

Lemma restaurantSubtotal_sum items order :
  restaurantSubtotal (relevantItems items order) =
  num_sum (map line_total (lines_of items (or_id order))).
Proof.
  unfold restaurantSubtotal, relevantItems, num_sum, lines_of.
  generalize (num_zero (num:=num)).
  induction (filter (fun i => ln_order_id i = or_id order) items) as [|i l IH];
    intros a; simpl; [reflexivity|apply IH].
Qed.

Lemma uniqueOrderIds_nil items : uniqueOrderIds items = [] <-> items = [].
Proof.
  split; [|intros ->; reflexivity].
  destruct items as [|i items]; [reflexivity|]. intros Hnil. exfalso.
  assert (Hin : ln_order_id i ∈ uniqueOrderIds (i :: items)).
  { apply elem_of_distinct. apply list_elem_of_here. }
  rewrite Hnil in Hin. inversion Hin.
Qed.

Lemma elem_of_uniqueOrderIds items oid :
  oid ∈ uniqueOrderIds items <-> exists i, i ∈ items /\ ln_order_id i = oid.
Proof.
  unfold uniqueOrderIds. rewrite elem_of_distinct, list_elem_of_fmap.
  split; intros (i & ? & ?); eauto.
Qed.

(** C4. With zero fetched lines the queue becomes empty and only the
    line-item read is issued. Otherwise the second read asks for the
    distinct order ids of the lines, and, the store answering it as it
    should, the queue holds exactly the readable order headers whose id
    occurs among the lines, latest first, each with the name, price and
    quantity of the fetched lines bearing its id, in fetch order, and with
    [restaurant_subtotal] the sum of price times quantity over those lines
    printed by [toFixed(2)]. *)
Theorem loadOrders_assembly (restaurant : restaurant_row) table items ordersData
    (unused : answer (list order_row)) s :
  answers_orders_in table (uniqueOrderIds items) ordersData ->
  loadOrders (Some restaurant) (Ok []) unused s =
    ({| orders := []; loading := false |},
     [Request (SelectOrderItemsOfRestaurant (rs_id restaurant))]) /\
  (items <> [] ->
   exists queue,
     loadOrders (Some restaurant) (Ok items) (Ok ordersData) s =
       ({| orders := queue; loading := false |},
        [Request (SelectOrderItemsOfRestaurant (rs_id restaurant));
         Request (SelectOrdersIn (uniqueOrderIds items))]) /\
     NoDup (uniqueOrderIds items) /\
     (forall oid, oid ∈ uniqueOrderIds items <->
        exists i, i ∈ items /\ ln_order_id i = oid) /\
     map qo_order queue ≡ₚ
       filter (fun r => or_id r ∈ map ln_order_id items) table /\
     Sorted (fun a b => (or_created_at b <= or_created_at a)%Z)
       (map qo_order queue) /\
     Forall (fun o =>
        map (fun q => (qi_name q, qi_price q, qi_quantity q)) (qo_order_items o) =
        map (fun i => (ln_name i, ln_price i, ln_quantity i))
            (lines_of items (or_id (qo_order o))) /\
        qo_restaurant_subtotal o =
        toFixed2 (num_sum (map line_total (lines_of items (or_id (qo_order o))))))
       queue).
Proof.
  intros [Hperm Hsorted]. split; [reflexivity|]. intros Hne.
  exists (map (fullOrder items) ordersData).
  assert (Hhead : map qo_order (map (fullOrder items) ordersData) = ordersData).
  { rewrite map_map. simpl. apply map_id. }
  split.
  { unfold loadOrders.
    destruct (uniqueOrderIds items) as [|oid ids] eqn:Hids.
    - apply uniqueOrderIds_nil in Hids. contradiction.
    - reflexivity. }
  split; [apply NoDup_distinct|].
  split; [apply elem_of_uniqueOrderIds|].
  rewrite Hhead. split.
  { rewrite Hperm. apply eq_subrelation; [typeclasses eauto|].
    apply list_filter_iff. intros r. apply elem_of_distinct. }
  split; [exact Hsorted|].
  apply Forall_forall. intros o (order & -> & _)%list_elem_of_fmap.
  simpl. split.
  - unfold relevantItems, lines_of. rewrite map_map. reflexivity.
  - f_equal. apply restaurantSubtotal_sum.
Qed.

(** C5, as the code has it. A failed line-item read, or a failed
    order-header read, ends [loadOrders] there: the error is logged,
    nothing more is requested and the order list is the one displayed
    before. A failed status write leaves the order list as it was and logs
    the error. An acknowledged status write does not patch the list on
    display: it puts in its place the list of the render that created the
    handler, with the status of the orders of the targeted id changed and
    nothing else. Measured against that list the other orders, the order of
    the list and every other field stay; measured against the list on
    display they stay only when the two are the same. When the buttons of
    two different orders are clicked on the same render, the second
    acknowledgment shows the first order as that render had it, its new
    status lost. *)
Theorem order_list_atomic s :
  (forall restaurant e unused,
     loadOrders (Some restaurant) (Raised e) unused s =
       ({| orders := orders s; loading := false |},
        [Request (SelectOrderItemsOfRestaurant (rs_id restaurant));
         ConsoleError "Error loading orders:" (message e)])) /\
  (forall restaurant items e, items <> [] ->
     loadOrders (Some restaurant) (Ok items) (Raised e) s =
       ({| orders := orders s; loading := false |},
        [Request (SelectOrderItemsOfRestaurant (rs_id restaurant));
         Request (SelectOrdersIn (uniqueOrderIds items));
         ConsoleError "Error loading orders:" (message e)])) /\
  (forall captured orderId newStatus e,
     fst (updateOrderStatus captured orderId newStatus (Raised e) s) = s /\
     ConsoleError "Failed to update status:" (message e)
       ∈ snd (updateOrderStatus captured orderId newStatus (Raised e) s)) /\
  (forall captured orderId newStatus,
     let s' := fst (updateOrderStatus captured orderId newStatus (Ok tt) s) in
     loading s' = loading s /\
     length (orders s') = length captured /\
     forall n o, captured !! n = Some o ->
       exists o', orders s' !! n = Some o' /\
         (or_id (qo_order o) <> orderId -> o' = o) /\
         (or_id (qo_order o) = orderId ->
            or_status (qo_order o') = newStatus /\
            or_id (qo_order o') = or_id (qo_order o) /\
            or_created_at (qo_order o') = or_created_at (qo_order o) /\
            or_columns (qo_order o') = or_columns (qo_order o) /\
            qo_order_items o' = qo_order_items o /\
            qo_restaurant_subtotal o' = qo_restaurant_subtotal o)) /\
  (forall a b ta tb n o, a <> b ->
     let first := updateOrderStatus (orders s) a ta (Ok tt) s in
     let second := updateOrderStatus (orders s) b tb (Ok tt) (fst first) in
     orders s !! n = Some o -> or_id (qo_order o) = a ->
     orders (fst first) !! n = Some (with_status ta o) /\
     orders (fst second) !! n = Some o).
Proof.
  split; [reflexivity|]. split.
  { intros restaurant items e Hne. unfold loadOrders.
    destruct (uniqueOrderIds items) as [|oid ids] eqn:Hids.
    - apply uniqueOrderIds_nil in Hids. contradiction.
    - reflexivity. }
  split.
  { intros captured orderId newStatus e. split; [reflexivity|].
    simpl. apply list_elem_of_further, list_elem_of_here. }
  split.
  { intros captured orderId newStatus. simpl. split; [reflexivity|].
    split; [apply length_map|].
    intros n o Hn.
    exists (if decide (or_id (qo_order o) = orderId)
            then with_status newStatus o else o).
    split.
    { unfold marked. rewrite list_lookup_fmap, Hn. reflexivity. }
    split.
    - intros Hne. rewrite decide_False by exact Hne. reflexivity.
    - intros Heq. rewrite decide_True by exact Heq. repeat split. }
  intros a b ta tb n o Hab. simpl. intros Hn Ha. unfold marked.
  rewrite !list_lookup_fmap, Hn. simpl.
  rewrite decide_True by exact Ha.
  rewrite decide_False by congruence. split; reflexivity.
Qed.

End Facts.

Section OnSamples.
Import Samples.

Lemma orders_answered_ok :
  answers_orders_in orders_table (uniqueOrderIds fetched_lines) orders_answered.
Proof.
  split.
  - vm_compute. apply perm_swap.
  - unfold orders_answered. repeat constructor; simpl; lia.
Qed.

Lemma loadOrders_assembly_witness :
  answers_orders_in orders_table (uniqueOrderIds fetched_lines) orders_answered /\
  exists queue,
    loadOrders (Some my_restaurant) (Ok fetched_lines) (Ok orders_answered)
      empty_queue =
      ({| orders := queue; loading := false |},
       [Request (SelectOrderItemsOfRestaurant "ra");
        Request (SelectOrdersIn ["o-2"; "o-1"])]) /\
    map qo_order queue = orders_answered.
Proof.
  split; [exact orders_answered_ok|].
  destruct (proj2 (loadOrders_assembly my_restaurant orders_table fetched_lines
                     orders_answered (Ok []) empty_queue orders_answered_ok))
    as (queue & Hrun & _).
  - discriminate.
  - exists queue. split; [exact Hrun|].
    vm_compute in Hrun. injection Hrun as <-. reflexivity.
Defined.

(** The sample queue shows [o-2] in preparation and [o-1] pending. The
    owner advances [o-2] and, before the store has answered, cancels
    [o-1]; the store acknowledges both writes. The first answer shows [o-2]
    with a driver assigned; the second shows it in preparation again. *)
Lemma order_list_atomic_witness :
  let first :=
    updateOrderStatus (orders sample_queue) "o-2" "Driver Assigned" (Ok tt)
      sample_queue in
  let second :=
    updateOrderStatus (orders sample_queue) "o-1" "Cancelled" (Ok tt)
      (fst first) in
  map (fun o => (or_id (qo_order o), or_status (qo_order o)))
    (orders sample_queue) = [("o-2", "Preparing"); ("o-1", "Pending")] /\
  snd first ++ snd second =
    [Request (UpdateOrderStatus "o-2" "Driver Assigned");
     Request (UpdateOrderStatus "o-1" "Cancelled")] /\
  map (fun o => (or_id (qo_order o), or_status (qo_order o)))
    (orders (fst first)) = [("o-2", "Driver Assigned"); ("o-1", "Pending")] /\
  map (fun o => (or_id (qo_order o), or_status (qo_order o)))
    (orders (fst second)) = [("o-2", "Preparing"); ("o-1", "Cancelled")] /\
  orders (fst second) !! 0 = orders sample_queue !! 0.
Proof.
  cbv zeta. split; [reflexivity|]. split; [reflexivity|].
  split; [reflexivity|]. split; [reflexivity|].
  assert (Ho : exists o, orders sample_queue !! 0 = Some o /\
                         or_id (qo_order o) = "o-2")
    by (eexists; split; reflexivity).
  destruct Ho as (o & Ho & Hid).
  destruct (proj2 (proj2 (proj2 (proj2 (order_list_atomic sample_queue))))
              "o-2" "o-1" "Driver Assigned" "Cancelled" 0 o
              ltac:(discriminate) Ho Hid) as [_ Hback].
  rewrite Ho. exact Hback.
Defined.

(** The subtotals of the sample queue, as printed. *)
Example sample_queue_subtotals :
  map qo_restaurant_subtotal
    (orders (fst (loadOrders (Some my_restaurant) (Ok fetched_lines)
                    (Ok orders_answered) empty_queue)))
  = ["220.00"; "100.00"].
Proof. vm_compute. reflexivity. Qed.

End OnSamples.

End OrderQueueFacts.

(** ** Registration *)

Module RegistrationFacts.
Import JsString Store Handler Registration.

Lemma handleAuth_registration w p :
  registration_form p ->
  handleAuth w p =
  try_catch_finally (authenticate w (started p))
    (fun e_message =>
       Handler.bind (emit (ConsoleError "" e_message)) (fun _ =>
       set (setError (if blank e_message
                      then "Authentication failed. Please try again."
                      else e_message))))
    (set (setLoading false)) (started p).
Proof.
  intros (Hl & He & Hp & Ho & Hr & Hb & Hc).
  unfold handleAuth, Handler.bind, set. simpl.
  rewrite He, Hp, Hl, Ho, Hr, Hb, Hc. simpl.
  destruct (try_catch_finally _ _ _ _) as [[s t] r]. reflexivity.
Qed.

Lemma authenticate_signed_up w p u token :
  isLogin p = false ->
  signUp_answer w = Ok {| ad_user := Some u; ad_session := Some token |} ->
  owner_insert_answer w = None ->
  authenticate w p =
  Handler.bind (emit (Request (SignUp (email p) (password p) "restaurant_owner"))) (fun _ =>
  Handler.bind (emit (Request (InsertOwner u (ownerName p) (or_null (phoneNumber p))))) (fun _ =>
  Handler.bind (insert_restaurant w (restaurant_of_form p u) 3 1) (fun _ =>
  Handler.bind (emit (Sleep 1500)) (fun _ =>
  Handler.bind (emit (Request (SelectRestaurantByOwner u))) (fun _ =>
    match verify_answer w with
    | Ok (Some (_, name)) =>
        Handler.bind (set (setSuccessMessage (Some (Registered name)))) (fun _ =>
        Handler.bind (emit (Sleep 1500)) (fun _ =>
        emit (OnSuccess (Some u))))
    | _ => throw "Restaurant was created but could not be verified. Please try logging in again."
    end))))).
Proof.
  intros Hl Hs Ho. unfold authenticate. rewrite Hl, Hs. simpl. rewrite Ho.
  reflexivity.
Qed.

Lemma authenticate_pending w p user :
  isLogin p = false ->
  signUp_answer w = Ok {| ad_user := user; ad_session := None |} ->
  authenticate w p =
  Handler.bind (emit (Request (SignUp (email p) (password p) "restaurant_owner"))) (fun _ =>
  Handler.bind (set (setSuccessMessage (Some CheckYourEmail))) (fun _ =>
  emit (SetTimeout 3000 (SetIsLogin true)))).
Proof.
  intros Hl Hs. unfold authenticate. rewrite Hl, Hs. simpl.
  destruct user; reflexivity.
Qed.

Local Ltac attempts_made n :=
  exists n; eexists; split; [lia|];
  split; [simpl; reflexivity|]; split; [reflexivity|]; split; [reflexivity|];
  let i := fresh "i" in let Hi := fresh "Hi" in
  intros i Hi;
  assert (i = 1 \/ i = 2 \/ 3 <= i) as [->|[->|?]] by lia;
  first [congruence | lia].

Local Ltac ends_with_success :=
  match goal with
  | |- exists before, ?l = before ++ _ /\ _ =>
      exists (take (length l - 4) l); split; reflexivity
  end.

(** C6. Registration with a live session (sign-up returns a user and a
    session, the owner profile is inserted). The restaurant row is inserted
    at most three times, a failed attempt being followed by a wait of one
    second before the next. When attempts 1 and 2 fail and attempt 3
    succeeds, and the read-back by owner id, issued after 1.5 seconds,
    returns the row, registration reports success. Success is reported only
    after that read-back has returned the row. When the three attempts fail,
    the error of the third is shown and nothing is reported as a success. *)
Theorem registration_insert_retry w p u token :
  registration_form p ->
  signUp_answer w = Ok {| ad_user := Some u; ad_session := Some token |} ->
  owner_insert_answer w = None ->
  let page := fst (fst (handleAuth w p)) in
  let events := snd (fst (handleAuth w p)) in
  let insert := Request (InsertRestaurant (restaurant_of_form p u)) in
  let sign_up := Request (SignUp (email p) (password p) "restaurant_owner") in
  let insert_owner :=
    Request (InsertOwner u (ownerName p) (or_null (phoneNumber p))) in
  let read_back := Request (SelectRestaurantByOwner u) in
  (exists n rest, 1 <= n <= 3 /\
     events = [sign_up; insert_owner] ++ attempts (restaurant_of_form p u) n ++ rest /\
     filter is_restaurant_insert rest = [] /\
     length (filter is_restaurant_insert events) = n /\
     (forall i, 1 <= i < n -> restaurant_insert_answer w i <> None)) /\
  (forall e1 e2 row_id name,
     restaurant_insert_answer w 1 = Some e1 ->
     restaurant_insert_answer w 2 = Some e2 ->
     restaurant_insert_answer w 3 = None ->
     verify_answer w = Ok (Some (row_id, name)) ->
     events = [sign_up; insert_owner; insert; Sleep 1000; insert; Sleep 1000;
               insert; Sleep 1500; read_back; Sleep 1500; OnSuccess (Some u)] /\
     successMessage page = Some (Registered name) /\
     error page = "" /\ loading page = false) /\
  (filter is_success events <> [] ->
     exists row_id name,
       verify_answer w = Ok (Some (row_id, name)) /\
       exists before,
         events = before ++ [Sleep 1500; read_back; Sleep 1500; OnSuccess (Some u)] /\
         successMessage page = Some (Registered name)) /\
  (forall e1 e2 e3,
     restaurant_insert_answer w 1 = Some e1 ->
     restaurant_insert_answer w 2 = Some e2 ->
     restaurant_insert_answer w 3 = Some e3 ->
     events = [sign_up; insert_owner; insert; Sleep 1000; insert; Sleep 1000;
               insert;
               ConsoleError "" ("Failed to register restaurant: " +:+ message e3)] /\
     filter is_success events = [] /\
     error page = "Failed to register restaurant: " +:+ message e3 /\
     successMessage page = None /\ loading page = false).
Proof.
  intros Hform Hup Hown page events insert sign_up insert_owner read_back.
  pose proof (handleAuth_registration w p Hform) as Hrun.
  rewrite (authenticate_signed_up w (started p) u token (proj1 Hform) Hup Hown)
    in Hrun.
  unfold try_catch_finally, Handler.bind, emit, set, throw, insert_restaurant, ret
    in Hrun.
  change (restaurant_of_form (started p) u) with (restaurant_of_form p u) in Hrun.
  cbn [started setLoading setSuccessMessage setError email password
       ownerName phoneNumber] in Hrun.
  fold insert sign_up insert_owner read_back in Hrun.
  destruct (restaurant_insert_answer w 1) as [e1|] eqn:A1;
    [destruct (restaurant_insert_answer w 2) as [e2|] eqn:A2;
     [destruct (restaurant_insert_answer w 3) as [e3|] eqn:A3|]|];
    destruct (verify_answer w) as [[[rid name]|]|ev] eqn:V;
    simpl in Hrun; subst page events; rewrite Hrun; cbn [fst snd];
    (split; [first [attempts_made 1 | attempts_made 2 | attempts_made 3]|]);
    (split; [intros ? ? ? ? ? ? ? ?; try discriminate;
             simplify_eq; repeat split|]);
    (split; [intros Hsucc;
             first [exfalso; apply Hsucc; reflexivity
                   |eexists; eexists; split; [reflexivity|ends_with_success]]|]);
    intros ? ? ? ? ? ?; try discriminate; simplify_eq; repeat split.
Qed.

(** C10. Sign-up that succeeds with no session (confirmation pending): the
    handler issues the sign-up call and nothing else, neither a write to a
    table nor a read; it shows the confirmation notice and leaves a
    3-second timer whose callback switches the page to the login view. *)
Theorem pending_confirmation_writes_nothing w p user :
  registration_form p ->
  signUp_answer w = Ok {| ad_user := user; ad_session := None |} ->
  let page := fst (fst (handleAuth w p)) in
  let events := snd (fst (handleAuth w p)) in
  events = [Request (SignUp (email p) (password p) "restaurant_owner");
            SetTimeout 3000 (SetIsLogin true)] /\
  filter is_write events = [] /\
  filter is_table_call events = [] /\
  successMessage page = Some CheckYourEmail /\
  error page = "" /\ loading page = false /\
  isLogin page = false /\
  isLogin (fire (SetIsLogin true) page) = true.
Proof.
  intros Hform Hup.
  rewrite (handleAuth_registration w p Hform).
  rewrite (authenticate_pending w (started p) user (proj1 Hform) Hup).
  simpl. repeat split. exact (proj1 Hform).
Qed.

Section OnSamples.
Import Samples.

Lemma tibanga_form_ok : registration_form tibanga_form.
Proof. repeat split. Qed.

(** The scenario of the design document: barangay Tibanga, category 7, the
    insert failing twice. *)
Lemma registration_insert_retry_witness :
  registration_form tibanga_form /\
  filter is_restaurant_insert (snd (fst (handleAuth (flaky_answers 2) tibanga_form)))
    = replicate 3 (Request (InsertRestaurant
                              (restaurant_of_form tibanga_form "u-owner"))) /\
  ri_address_barangay (restaurant_of_form tibanga_form "u-owner") = "Tibanga" /\
  ri_category_id (restaurant_of_form tibanga_form "u-owner") = "7" /\
  successMessage (fst (fst (handleAuth (flaky_answers 2) tibanga_form)))
    = Some (Registered "Lutong Bahay").
Proof.
  split; [exact tibanga_form_ok|].
  destruct (registration_insert_retry (flaky_answers 2) tibanga_form
              "u-owner" "token" tibanga_form_ok eq_refl eq_refl)
    as (_ & Hscenario & _).
  destruct (Hscenario transient transient "ra" "Lutong Bahay"
              eq_refl eq_refl eq_refl eq_refl) as (Hev & Hmsg & _).
  split; [rewrite Hev; reflexivity|].
  split; [reflexivity|]. split; [reflexivity|exact Hmsg].
Defined.

Lemma pending_confirmation_writes_nothing_witness :
  registration_form tibanga_form /\
  filter is_write (snd (fst (handleAuth pending_answers tibanga_form))) = [] /\
  successMessage (fst (fst (handleAuth pending_answers tibanga_form)))
    = Some CheckYourEmail.
Proof.
  split; [exact tibanga_form_ok|].
  destruct (pending_confirmation_writes_nothing pending_answers tibanga_form
              (Some "u-owner") tibanga_form_ok eq_refl)
    as (_ & Hwrites & _ & Hnotice & _).
  split; [exact Hwrites|exact Hnotice].
Defined.

End OnSamples.

End RegistrationFacts.

(** ** Restaurant visibility polling *)

Module ProvisioningFacts.
Import Store Provisioning.

Lemma run_cons u a later d :
  user d = Some u -> restaurantLoaded d = false ->
  run (a :: later) d =
  match loadMyData u a d with
  | (d', events, retryTimeout) =>
      if deps_changed d d' then
        match run later d' with
        | (d'', events') => (d'', events ++ cleanup retryTimeout ++ events')
        end
      else (d', events)
  end.
Proof. intros Hu Hl. simpl. rewrite Hu, Hl. reflexivity. Qed.

Lemma run_loaded answered d : restaurantLoaded d = true -> run answered d = (d, []).
Proof.
  intros Hl. destruct answered; simpl; rewrite Hl; destruct (user d); reflexivity.
Qed.

Lemma deps_changed_attempts d d' :
  restaurantCheckAttempts d <> restaurantCheckAttempts d' ->
  deps_changed d d' = true.
Proof.
  intros Hne. unfold deps_changed.
  rewrite (proj2 (Nat.eqb_neq _ _) Hne), Bool.andb_false_r. reflexivity.
Qed.

Lemma deps_changed_loaded d d' :
  restaurantLoaded d <> restaurantLoaded d' -> deps_changed d d' = true.
Proof.
  intros Hne. unfold deps_changed.
  destruct (restaurantLoaded d), (restaurantLoaded d'); try congruence;
    simpl; rewrite Bool.andb_false_r; reflexivity.
Qed.

(** A retry is scheduled exactly when the read of [restaurants] is answered
    by the not-found signal while the counter is below 3; it adds one to the
    counter, arms one 2-second timer and leaves [restaurantLoaded] as it
    was. *)
Lemma retry_scheduled_iff a d d2 :
  let out := after_restaurant_read a d d2 in
  (snd out = true <->
   (exists e, restaurant_answer a = Raised e /\ not_found e = true) /\
   restaurantCheckAttempts d < 3) /\
  (snd out = true ->
   restaurantCheckAttempts (fst (fst out)) = S (restaurantCheckAttempts d2) /\
   restaurantLoaded (fst (fst out)) = restaurantLoaded d2 /\
   filter is_retry_timer (snd (fst out)) = [SetTimeout 2000 retry_callback]) /\
  (snd out = false ->
   restaurantLoaded (fst (fst out)) = true /\
   filter is_retry_timer (snd (fst out)) = []).
Proof.
  unfold after_restaurant_read.
  destruct (restaurant_answer a) as [data|e]; simpl.
  - split; [|split]; [|discriminate|auto].
    split; [discriminate|]. intros [(e & [=] & _) _].
  - destruct (not_found e) eqn:Hnf; simpl.
    + destruct (Nat.ltb_spec (restaurantCheckAttempts d) 3) as [Hlt|Hge]; simpl.
      * split; [|split]; [|auto|discriminate].
        split; [|reflexivity]. intros _. split; [eauto|exact Hlt].
      * split; [|split]; [|discriminate|auto].
        split; [discriminate|]. intros [_ Hlt]. lia.
    + split; [|split]; [|discriminate|auto].
      split; [discriminate|]. intros [(e' & [= <-] & He') _]. congruence.
Qed.

(** One not-found answer below the limit: the counter goes up by one, the
    timer is armed, and the same commit clears it and runs the effect
    again. *)
Lemma run_NotFound u o later d :
  user d = Some u -> restaurantLoaded d = false ->
  myRestaurant d = None -> restaurantCheckAttempts d < 3 ->
  run (NotFound o :: later) d =
  (fst (run later (polling u o (S (restaurantCheckAttempts d)))),
   retry_events u (restaurantCheckAttempts d + 1) ++
   snd (run later (polling u o (S (restaurantCheckAttempts d))))).
Proof.
  intros Hu Hl Hr Hlt. rewrite (run_cons u _ _ _ Hu Hl).
  unfold loadMyData, after_restaurant_read. simpl.
  rewrite (proj2 (Nat.ltb_lt _ _) Hlt).
  rewrite deps_changed_attempts by (simpl; lia).
  replace (setLoading false
             (setRestaurantCheckAttempts S (setOwner (Some o) (setLoading true d))))
    with (polling u o (S (restaurantCheckAttempts d))).
  - destruct (run later _) as [d'' ev']. reflexivity.
  - unfold polling, setLoading, setRestaurantCheckAttempts, setOwner. simpl.
    rewrite Hu, Hl, Hr. reflexivity.
Qed.

(** A not-found answer at the limit ends the polling without a restaurant. *)
Lemma run_NotFound_final u o later d :
  user d = Some u -> restaurantLoaded d = false ->
  3 <= restaurantCheckAttempts d ->
  run (NotFound o :: later) d =
  (settled u o (restaurantCheckAttempts d) None, reads u).
Proof.
  intros Hu Hl Hge. rewrite (run_cons u _ _ _ Hu Hl).
  unfold loadMyData, after_restaurant_read. simpl.
  rewrite (proj2 (Nat.ltb_ge _ _) Hge).
  rewrite deps_changed_loaded by (simpl; rewrite Hl; discriminate).
  rewrite run_loaded by reflexivity.
  unfold settled, setLoading, setRestaurantLoaded, setMyRestaurant, setOwner.
  simpl. rewrite Hu. reflexivity.
Qed.

(** A visible row ends the polling with the restaurant. *)
Lemma run_Visible u o r later d :
  user d = Some u -> restaurantLoaded d = false ->
  run (Visible o r :: later) d =
  (settled u o (restaurantCheckAttempts d) (Some r), reads u).
Proof.
  intros Hu Hl. rewrite (run_cons u _ _ _ Hu Hl).
  unfold loadMyData, after_restaurant_read. simpl.
  rewrite deps_changed_loaded by (simpl; rewrite Hl; discriminate).
  rewrite run_loaded by reflexivity.
  unfold settled, setLoading, setRestaurantLoaded, setMyRestaurant, setOwner.
  simpl. rewrite Hu. reflexivity.
Qed.

(** Three not-found answers, then the row: three retries, then found. *)
Lemma three_retries_then_found u o r :
  run [NotFound o; NotFound o; NotFound o; Visible o r] (signed_in u) =
  (settled u o 3 (Some r),
   retry_events u 1 ++ retry_events u 2 ++ retry_events u 3 ++ reads u).
Proof.
  rewrite (run_NotFound u o) by (try reflexivity; simpl; lia).
  rewrite (run_NotFound u o) by (try reflexivity; simpl; lia).
  rewrite (run_NotFound u o) by (try reflexivity; simpl; lia).
  rewrite (run_Visible u o r) by reflexivity.
  reflexivity.
Qed.

(** Not-found again after the third retry: the "no restaurant linked"
    screen, and no fourth retry whatever is answered later. *)
Lemma retries_exhausted u o later :
  run (NotFound o :: NotFound o :: NotFound o :: NotFound o :: later) (signed_in u) =
  (settled u o 3 None,
   retry_events u 1 ++ retry_events u 2 ++ retry_events u 3 ++ reads u).
Proof.
  rewrite (run_NotFound u o) by (try reflexivity; simpl; lia).
  rewrite (run_NotFound u o) by (try reflexivity; simpl; lia).
  rewrite (run_NotFound u o) by (try reflexivity; simpl; lia).
  rewrite (run_NotFound_final u o) by (try reflexivity; simpl; lia).
  reflexivity.
Qed.

Lemma timers_cleared_skip pre rest :
  filter is_retry_timer pre = [] ->
  timers_cleared_at_once (pre ++ rest) = timers_cleared_at_once rest.
Proof.
  induction pre as [|e pre IH]; intros Hpre; [reflexivity|].
  rewrite filter_cons in Hpre.
  destruct e; simpl in Hpre; try discriminate; simpl; apply IH; exact Hpre.
Qed.

Lemma loadMyData_shape u a d :
  let out := loadMyData u a d in
  (snd out = true /\
   (exists pre, snd (fst out) = pre ++ [SetTimeout retry_delay retry_callback] /\
                filter is_retry_timer pre = []) /\
   restaurantCheckAttempts (fst (fst out)) = S (restaurantCheckAttempts d)) \/
  (snd out = false /\ filter is_retry_timer (snd (fst out)) = []).
Proof.
  unfold loadMyData, after_restaurant_read.
  destruct (owner_answer a) as [data|e]; simpl.
  2: destruct (not_found e); simpl; [|right; split; reflexivity].
  all: destruct (restaurant_answer a) as [rdata|re]; simpl;
    [right; split; reflexivity|].
  all: destruct (not_found re); simpl; [|right; split; reflexivity].
  all: destruct (Nat.ltb (restaurantCheckAttempts d) 3); simpl;
    [|right; split; reflexivity].
  all: left; split; [reflexivity|]; split; [|reflexivity].
  all: eexists [_; _; _]; split; reflexivity.
Qed.

(** Whatever the store answers and however long the polling goes on, a
    timer armed by a run of [loadMyData] is cleared by the cleanup of the
    same commit: it never fires, and no retry waits for it. *)
Lemma timers_never_fire answered d :
  timers_cleared_at_once (snd (run answered d)) = true /\
  filter is_wait (snd (run answered d)) = [].
Proof.
  revert d. induction answered as [|a later IH]; intros d.
  - simpl. destruct (user d), (restaurantLoaded d); split; reflexivity.
  - destruct (user d) as [u|] eqn:Hu;
      [|simpl; rewrite Hu; split; reflexivity].
    destruct (restaurantLoaded d) eqn:Hl;
      [simpl; rewrite Hu, Hl; split; reflexivity|].
    rewrite (run_cons u a later d Hu Hl).
    pose proof (loadMyData_shape u a d) as Hshape.
    assert (Hwait : filter is_wait (snd (fst (loadMyData u a d))) = []).
    { unfold loadMyData, after_restaurant_read.
      destruct (owner_answer a) as [data|e]; simpl.
      2: destruct (not_found e); simpl; [|reflexivity].
      all: destruct (restaurant_answer a) as [rdata|re]; simpl; [reflexivity|].
      all: destruct (not_found re); simpl; [|reflexivity].
      all: destruct (Nat.ltb (restaurantCheckAttempts d) 3); reflexivity. }
    destruct (loadMyData u a d) as [[d' events] retryTimeout].
    simpl in Hshape, Hwait.
    destruct Hshape as [(-> & (pre & -> & Hpre) & Hn)|(-> & Hev)].
    + rewrite deps_changed_attempts by lia.
      destruct (IH d') as [IHt IHw]. destruct (run later d') as [d'' events'].
      cbn [fst snd cleanup] in *. split.
      * rewrite <- app_assoc. rewrite timers_cleared_skip by exact Hpre.
        simpl. exact IHt.
      * rewrite filter_app, Hwait. rewrite filter_app, IHw. reflexivity.
    + destruct (deps_changed d d').
      * destruct (IH d') as [IHt IHw]. destruct (run later d') as [d'' events'].
        cbn [fst snd cleanup app] in *. split.
        -- rewrite timers_cleared_skip by exact Hev. exact IHt.
        -- rewrite filter_app, Hwait, IHw. reflexivity.
      * cbn [fst snd]. split; [|exact Hwait].
        rewrite <- (app_nil_r events). rewrite timers_cleared_skip by exact Hev.
        reflexivity.
Qed.

Section OnSamples.
Import Samples.

(** C2, evaluated. After sign-in, with the restaurant row not visible for
    three reads and visible at the fourth, the dashboard makes exactly three
    retries, counts them 1, 2, 3 and ends with the restaurant; with a fourth
    not-found answer it ends on the "no restaurant linked" screen instead.
    Each retry arms the 2-second timer, but the retry does not wait for it:
    the counter is a dependency of the effect, so the render that follows
    clears the timer and reads again at once. No wait lies between two
    reads, and the callback of the timer would change nothing. *)
Theorem retry_is_not_delayed :
  let found :=
    run [NotFound my_owner; NotFound my_owner; NotFound my_owner;
         Visible my_owner my_restaurant] (signed_in "u-owner") in
  let lost :=
    run [NotFound my_owner; NotFound my_owner; NotFound my_owner;
         NotFound my_owner] (signed_in "u-owner") in
  fst found = settled "u-owner" my_owner 3 (Some my_restaurant) /\
  fst lost = settled "u-owner" my_owner 3 None /\
  shows_no_restaurant (fst lost) = true /\
  snd found = snd lost /\
  snd found =
    [Request (SelectOwnerById "u-owner");
     Request (SelectRestaurantByOwner "u-owner");
     ConsoleLog "Restaurant not found, retrying... (attempt 1/3)";
     SetTimeout 2000 (SetRestaurantLoaded false);
     ClearTimeout (SetRestaurantLoaded false);
     Request (SelectOwnerById "u-owner");
     Request (SelectRestaurantByOwner "u-owner");
     ConsoleLog "Restaurant not found, retrying... (attempt 2/3)";
     SetTimeout 2000 (SetRestaurantLoaded false);
     ClearTimeout (SetRestaurantLoaded false);
     Request (SelectOwnerById "u-owner");
     Request (SelectRestaurantByOwner "u-owner");
     ConsoleLog "Restaurant not found, retrying... (attempt 3/3)";
     SetTimeout 2000 (SetRestaurantLoaded false);
     ClearTimeout (SetRestaurantLoaded false);
     Request (SelectOwnerById "u-owner");
     Request (SelectRestaurantByOwner "u-owner")] /\
  length (filter is_retry_timer (snd found)) = 3 /\
  length (filter is_restaurant_read (snd found)) = 4 /\
  timers_cleared_at_once (snd found) = true /\
  filter is_wait (snd found) = [] /\
  fire retry_callback (polling "u-owner" my_owner 1) = polling "u-owner" my_owner 1.
Proof.
  cbv zeta.
  rewrite three_retries_then_found, retries_exhausted.
  repeat split.
Qed.

End OnSamples.

End ProvisioningFacts.

(** ** The persisted status filter *)

Module StatusFilterFacts.
Import JsString StatusFilter.

(** In a browser the stored value is the current filter, from mount on. *)
Lemma mount_stores storage :
  env (mount (Some storage)) =
  Some (<[STATUS_FILTER_KEY := statusFilter (mount (Some storage))]> storage).
Proof. reflexivity. Qed.

Lemma setStatusFilter_stores value v storage :
  env v = Some storage ->
  storage !! STATUS_FILTER_KEY = Some (statusFilter v) ->
  exists storage',
    env (setStatusFilter value v) = Some storage' /\
    storage' !! STATUS_FILTER_KEY = Some value /\
    statusFilter (setStatusFilter value v) = value /\
    forall key, key <> STATUS_FILTER_KEY -> storage' !! key = storage !! key.
Proof.
  intros He Hs. unfold setStatusFilter.
  destruct (decide (value = statusFilter v)) as [->|Hne].
  - exists storage. auto.
  - simpl. rewrite He. simpl. eexists. split; [reflexivity|].
    unfold setItem. split; [apply lookup_insert_eq|]. split; [reflexivity|].
    intros key Hkey. apply lookup_insert_ne. congruence.
Qed.

Lemma initial_of_stored storage value :
  storage !! STATUS_FILTER_KEY = Some value -> value <> "" ->
  initial_statusFilter (Some storage) = value.
Proof.
  intros Hs Hne. unfold initial_statusFilter, getItem. rewrite Hs.
  destruct value; [congruence|reflexivity].
Qed.

(** C9. The status filter round-trips through the stored preference. With
    nothing stored the filter starts as [all]. From mount on, the storage
    holds the current filter under the fixed key, and every change writes
    the new value there; so after setting any value that the select offers
    and loading the page again, that value is the active filter: setting
    [Preparing] and reloading restores [Preparing]. *)
Theorem statusFilter_round_trip (storage : gmap string string) :
  STATUS_FILTER_KEY = "restaurantOwnerStatusFilter" /\
  (storage !! STATUS_FILTER_KEY = None ->
   statusFilter (mount (Some storage)) = "all") /\
  statusFilter (mount None) = "all" /\
  (forall value, exists storage',
     env (setStatusFilter value (mount (Some storage))) = Some storage' /\
     storage' !! STATUS_FILTER_KEY = Some value) /\
  (forall value, value <> "" ->
     statusFilter (reload (setStatusFilter value (mount (Some storage)))) = value) /\
  (forall value, value ∈ filter_values ->
     statusFilter (reload (setStatusFilter value (mount (Some storage)))) = value) /\
  statusFilter (reload (setStatusFilter "Preparing" (mount (Some storage))))
    = "Preparing".
Proof.
  assert (Hset : forall value, exists storage',
    env (setStatusFilter value (mount (Some storage))) = Some storage' /\
    storage' !! STATUS_FILTER_KEY = Some value).
  { intros value.
    destruct (setStatusFilter_stores value (mount (Some storage)) _
                (mount_stores storage) (lookup_insert_eq _ _ _))
      as (storage' & He & Hs & _).
    eauto. }
  assert (Hround : forall value, value <> "" ->
    statusFilter (reload (setStatusFilter value (mount (Some storage)))) = value).
  { intros value Hne. destruct (Hset value) as (storage' & He & Hs).
    unfold reload. rewrite He. simpl. apply initial_of_stored; assumption. }
  split; [reflexivity|]. split.
  { intros Hnone. simpl. unfold getItem. rewrite Hnone. reflexivity. }
  split; [reflexivity|]. split; [exact Hset|]. split; [exact Hround|]. split.
  - intros value Hin. apply Hround. intros ->.
    unfold filter_values, ORDER_STATUSES in Hin.
    repeat (apply elem_of_cons in Hin as [Hin|Hin]; [discriminate|]).
    inversion Hin.
  - apply Hround. discriminate.
Qed.

(** With an empty storage: the filter starts as [all]; once set to
    [Preparing] it is [Preparing] after a reload. *)
Example statusFilter_preparing :
  statusFilter (mount (Some ∅)) = "all" /\
  statusFilter (reload (setStatusFilter "Preparing" (mount (Some ∅))))
    = "Preparing".
Proof. split; vm_compute; reflexivity. Qed.

End StatusFilterFacts.

(** ** The order history *)

Module HistoryFacts.
Import JsString JsObject ListFacts JsObjectFacts OrderHistory HistoryView.
Import ImageResolution Segmentation Samples.

Lemma all_results_Ok {E A B} (f : A -> result E B) l ys :
  all_results f l = Ok ys -> Forall2 (fun x y => f x = Ok y) l ys.
Proof.
  revert ys. induction l as [|x l IH]; intros ys; simpl.
  - intros [= <-]. constructor.
  - destruct (f x) as [y|e] eqn:Hx; [|discriminate]. simpl.
    destruct (all_results f l) as [ys'|e]; [|discriminate]. simpl.
    intros [= <-]. constructor; auto.
Qed.

Lemma all_results_Forall2 {E A B} (f : A -> result E B) l ys :
  Forall2 (fun x y => f x = Ok y) l ys -> all_results f l = Ok ys.
Proof.
  induction 1 as [|x y l ys Hx _ IH]; simpl; [reflexivity|].
  rewrite Hx, IH. reflexivity.
Qed.

Lemma all_results_Raised {A B} (f : A -> result type_error B) l x :
  x ∈ l -> f x = Raised TypeError -> all_results f l = Raised TypeError.
Proof.
  induction l as [|y l IH]; intros Hin Hx; [inversion Hin|].
  simpl. apply elem_of_cons in Hin as [<-|Hin].
  - rewrite Hx. reflexivity.
  - destruct (f y) as [b|[]]; [|reflexivity]. simpl.
    rewrite (IH Hin Hx). reflexivity.
Qed.

Lemma append_inj_l (a x y : string) : a +:+ x = a +:+ y -> x = y.
Proof. induction a as [|c a IH]; simpl; [auto|]. intros [= E]. auto. Qed.

Lemma append_inj_length (a b x y : string) :
  String.length a = String.length b -> a +:+ x = b +:+ y -> a = b /\ x = y.
Proof.
  revert b. induction a as [|c a IH]; intros [|d b]; simpl; try discriminate.
  - auto.
  - intros [= Hl] [= -> E]. destruct (IH b Hl E) as [-> ->]. auto.
Qed.

Lemma values_named {V} (o : JsObject.obj V) :
  (forall k v, (k, v) ∈ o -> array_index k = None) -> values o = map snd o.
Proof.
  intros Hno. unfold values.
  assert (Hi : index_properties o = [] /\ named_properties o = map snd o).
  { induction o as [|[k v] o IH]; [auto|]. simpl.
    rewrite (Hno k v) by apply list_elem_of_here.
    destruct IH as [-> ->]; [|auto].
    intros k' v' Hin. apply (Hno k' v'). apply elem_of_cons. right. exact Hin. }
  destruct Hi as [-> ->]. reflexivity.
Qed.

Lemma elem_of_concat {A} (x : A) (ls : list (list A)) :
  x ∈ concat ls <-> exists l, x ∈ l /\ l ∈ ls.
Proof.
  induction ls as [|l ls IH]; simpl.
  - split; [intros Hx; inversion Hx|intros (l & _ & Hl); inversion Hl].
  - rewrite elem_of_app, IH. split.
    + intros [Hx|(l' & Hx & Hl')].
      * exists l. split; [exact Hx|apply list_elem_of_here].
      * exists l'. split; [exact Hx|apply elem_of_cons; right; exact Hl'].
    + intros (l' & Hx & [->|Hl']%elem_of_cons); [left; exact Hx|right; eauto].
Qed.

Lemma NoDup_concat_disjoint {A} (ls : list (list A)) :
  Forall (NoDup (A:=A)) ls ->
  (forall i j l l' x, i < j -> ls !! i = Some l -> ls !! j = Some l' ->
     x ∈ l -> x ∉ l') ->
  NoDup (concat ls).
Proof.
  induction 1 as [|l ls Hl _ IH]; intros Hdis; [constructor|].
  simpl. apply NoDup_app. split; [exact Hl|]. split.
  - intros x Hx Hin. apply elem_of_concat in Hin as (l' & Hxl' & Hl').
    apply list_elem_of_lookup in Hl' as (j & Hj).
    exact (Hdis 0 (S j) l l' x (Nat.lt_0_succ j) eq_refl Hj Hx Hxl').
  - apply IH. intros i j l1 l2 x Hij Hi Hj.
    apply (Hdis (S i) (S j) l1 l2 x); [lia|exact Hi|exact Hj].
Qed.


Section KeyOrder.
Context {V W : Type}.

Lemma insert_by_index_fmap (g : V -> W) n v (l : list (N * V)) :
  insert_by_index (n, g v) (map (fun p => (p.1, g p.2)) l) =
  map (fun p => (p.1, g p.2)) (insert_by_index (n, v) l).
Proof.
  induction l as [|[m w] l IH]; [reflexivity|]. simpl.
  destruct (n <=? m)%N; [reflexivity|]. simpl. rewrite IH. reflexivity.
Qed.

End KeyOrder.

Lemma values_keyed {V} (f : string -> V) (names : list string) :
  values (map (fun k => (k, f k)) names) = map f (key_order names).
Proof.
  unfold key_order, values. rewrite map_app. f_equal.
  - rewrite map_map.
    assert (Hi : index_properties (map (fun k => (k, f k)) names) =
                 map (fun p => (p.1, f p.2))
                   (index_properties (map (fun k => (k, k)) names))).
    { induction names as [|k names IH]; [reflexivity|]. simpl.
      destruct (array_index k) as [n|]; [|exact IH].
      rewrite IH. apply insert_by_index_fmap. }
    rewrite Hi, map_map. reflexivity.
  - induction names as [|k names IH]; [reflexivity|]. simpl.
    destruct (array_index k); simpl; rewrite IH; reflexivity.
Qed.

Lemma named_properties_keys (names : list string) :
  named_properties (map (fun k => (k, k)) names) =
  filter (fun k => array_index k = None) names.
Proof.
  induction names as [|k names IH]; [reflexivity|]. simpl.
  rewrite filter_cons. destruct (array_index k) as [n|] eqn:E.
  - rewrite decide_False by discriminate. exact IH.
  - rewrite decide_True by reflexivity. rewrite IH. reflexivity.
Qed.

Lemma insert_by_index_sorted {V} (e : N * V) l :
  Sorted (fun a b => (a.1 <= b.1)%N) l ->
  Sorted (fun a b => (a.1 <= b.1)%N) (insert_by_index e l).
Proof.
  induction 1 as [|e' l Hs IH Hhd]; simpl.
  - repeat constructor.
  - destruct (N.leb_spec (fst e) (fst e')) as [Hle|Hlt].
    + constructor; [constructor; assumption|]. constructor. exact Hle.
    + constructor; [exact IH|].
      destruct l as [|e'' l]; simpl.
      * constructor. simpl. lia.
      * destruct (N.leb_spec (fst e) (fst e'')).
        -- constructor. simpl. lia.
        -- constructor. inversion Hhd; assumption.
Qed.

Lemma index_properties_keys (names : list string) :
  let idx := index_properties (map (fun k => (k, k)) names) in
  Sorted (fun a b => (a.1 <= b.1)%N) idx /\
  Forall (fun p => array_index p.2 = Some p.1) idx /\
  map snd idx ≡ₚ filter (fun k => array_index k <> None) names.
Proof.
  induction names as [|k names (Hs & Hf & Hp)]; simpl.
  - split; [constructor|]. split; [constructor|reflexivity].
  - rewrite filter_cons. destruct (array_index k) as [n|] eqn:E.
    + rewrite decide_True by discriminate. split; [|split].
      * apply insert_by_index_sorted. exact Hs.
      * rewrite insert_by_index_perm. constructor; [exact E|exact Hf].
      * rewrite insert_by_index_perm. simpl. rewrite Hp. reflexivity.
    + rewrite decide_False by (intros Hn; apply Hn; reflexivity).
      split; [exact Hs|]. split; [exact Hf|exact Hp].
Qed.

Lemma Sorted_index_le (idx : list (N * string)) :
  Sorted (fun a b => (a.1 <= b.1)%N) idx ->
  Forall (fun p => array_index p.2 = Some p.1) idx ->
  Sorted index_le (map snd idx).
Proof.
  induction 1 as [|[n k] l Hs IH Hhd]; intros Hf; simpl; [constructor|].
  apply Forall_cons in Hf as [Hk Hf]. constructor; [exact (IH Hf)|].
  destruct l as [|[m k'] l]; simpl; constructor.
  apply Forall_cons in Hf as [Hk' _]. simpl in Hk, Hk'.
  unfold index_le. rewrite Hk, Hk'. inversion Hhd; subst. assumption.
Qed.

(** The order in which [Object.values] lists the keys. *)
Lemma key_order_spec (names : list string) :
  exists indices,
    key_order names = indices ++ filter (fun k => array_index k = None) names /\
    indices ≡ₚ filter (fun k => array_index k <> None) names /\
    Sorted index_le indices.
Proof.
  destruct (index_properties_keys names) as (Hs & Hf & Hp).
  exists (map snd (index_properties (map (fun k => (k, k)) names))).
  split; [|split].
  - unfold key_order, values. rewrite named_properties_keys. reflexivity.
  - exact Hp.
  - apply Sorted_index_le; assumption.
Qed.

Lemma key_order_named (names : list string) :
  (forall k, k ∈ names -> array_index k = None) -> key_order names = names.
Proof.
  intros Hno. unfold key_order. rewrite values_named.
  - rewrite map_map. apply map_id.
  - intros k v Hin. apply list_elem_of_fmap in Hin as (k' & E & Hk').
    injection E as -> _. auto.
Qed.


Section Images.
Variable st : storage.

Lemma object_value_first o : object_value o = first_truthy (object_members o).
Proof.
  destruct o as [[[|? ?]|] [[|? ?]|] [[|? ?]|] [[|? ?]|] [[|? ?]|]];
    reflexivity.
Qed.

Lemma first_truthy_truthy l v :
  first_truthy l = Some v -> truthy (Some v) = true.
Proof.
  unfold first_truthy. intros Hh. apply head_Some_elem_of in Hh.
  apply list_elem_of_filter in Hh as [Ht _]. exact Ht.
Qed.

(** X6. An image reference given as an object resolves as the first
    non-empty string among its members [url], [path], [publicUrl],
    [public_url], [publicURL] does, and to no image when it has none. *)
Theorem resolveImage_object (o : image_object) :
  resolveImage st (Obj o) =
  resolveImage st (as_ref (first_truthy (object_members o))).
Proof.
  unfold resolveImage at 1. cbn [ref_truthy negb]. cbv iota.
  rewrite object_value_first.
  destruct (first_truthy (object_members o)) as [v|] eqn:E; [|reflexivity].
  pose proof (first_truthy_truthy _ _ E) as Ht. simpl as_ref.
  unfold resolveImage. cbn [ref_truthy]. rewrite Ht. reflexivity.
Qed.



Lemma probe_yield_truthy b key u :
  probe_yield st b key = Some u -> truthy (Some u) = true.
Proof.
  unfold probe_yield. destruct (st b key) as [|data]; [discriminate|].
  destruct (truthy (data_public_url data)) eqn:T; [|discriminate].
  intros E. rewrite E in T. exact T.
Qed.

(** X8. Resolution never returns an empty string: a resolved image is a
    non-empty string, comes from a truthy reference, and passes the
    truthiness test with which the card chooses between the image and the
    placeholder. *)
Theorem resolveImage_truthy (raw : image_ref) (u : string) :
  resolveImage st raw = Some u ->
  u <> "" /\ ref_truthy raw = true /\ ref_truthy (as_ref (resolveImage st raw)) = true.
Proof.
  intros Hr. assert (Ht : truthy (Some u) = true).
  { revert Hr. unfold resolveImage.
    destruct (negb (ref_truthy raw)); [discriminate|].
    set (value := match raw with Obj o => object_value o | Str s => Some s
                                | Absent => None end).
    destruct (negb (truthy value)); [discriminate|].
    destruct value as [v|]; [|discriminate].
    destruct (is_address (trim v)) eqn:Ha.
    - intros [= <-]. apply address_truthy. exact Ha.
    - intros Hp. apply probe_buckets_yield in Hp as (b & Hy).
      exact (probe_yield_truthy _ _ _ Hy). }
  split; [intros ->; discriminate|]. split.
  - unfold resolveImage in Hr. destruct (ref_truthy raw); [reflexivity|discriminate].
  - rewrite Hr. exact Ht.
Qed.

End Images.

Section Facts.
Context {num : Type} `{JSNumber num}.
Variable st : storage.
Variable toLocaleDateString : string -> string.
Implicit Types (item : order_item (num:=num)) (L : list (order_item (num:=num))).
Implicit Types (o : order (num:=num)) (k : string).

(** Either every name is safe, or some item bears an inherited one. *)
Lemma names_safe_or_inherited L :
  names_safe L \/
  exists item k, item ∈ L /\ restaurant_key item = Some k /\ inherited k = true.
Proof.
  induction L as [|x L [IH|(item & k & Hin & Hk & Hi)]].
  - left. intros item k Hin. inversion Hin.
  - destruct (restaurant_key x) as [kx|] eqn:Hx;
      [destruct (inherited kx) eqn:Hix|].
    + right. exists x, kx. split; [apply list_elem_of_here|auto].
    + left. intros item k Hin Hk. apply elem_of_cons in Hin as [->|Hin].
      * congruence.
      * exact (IH item k Hin Hk).
    + left. intros item k Hin Hk. apply elem_of_cons in Hin as [->|Hin].
      * congruence.
      * exact (IH item k Hin Hk).
  - right. exists item, k. split; [apply elem_of_cons; right; exact Hin|auto].
Qed.

Lemma names_safe_items o :
  names_safe (enrichedItems st o) -> names_safe (default [] (order_items o)).
Proof.
  intros Hs item k Hin Hk. apply (Hs (enrich st item) k); [|exact Hk].
  unfold enrichedItems. apply list_elem_of_fmap. eauto.
Qed.

Lemma segmentOrder_raises o item k :
  item ∈ enrichedItems st o -> restaurant_key item = Some k ->
  inherited k = true ->
  segmentOrder st toLocaleDateString o = Raised TypeError.
Proof.
  intros Hin Hk Hi. unfold segmentOrder.
  rewrite (restaurantGroups_raises _ item k Hin Hk Hi). reflexivity.
Qed.

Lemma segmentOrder_Ok_safe o segs :
  segmentOrder st toLocaleDateString o = Ok segs ->
  names_safe (default [] (order_items o)).
Proof.
  intros Hrun. apply names_safe_items.
  destruct (names_safe_or_inherited (enrichedItems st o))
    as [Hs|(item & k & Hin & Hk & Hi)]; [exact Hs|].
  rewrite (segmentOrder_raises o item k Hin Hk Hi) in Hrun. discriminate.
Qed.

Lemma groupedDisplayOrders_raises fetchedOrders :
  some_name_inherited st fetchedOrders ->
  groupedDisplayOrders st toLocaleDateString fetchedOrders = Raised TypeError.
Proof.
  intros (o & item & k & Ho & Hin & Hk & Hi). unfold groupedDisplayOrders.
  rewrite (all_results_Raised _ _ o Ho (segmentOrder_raises o item k Hin Hk Hi)).
  reflexivity.
Qed.

Lemma groupedDisplayOrders_returns fetchedOrders :
  some_name_inherited st fetchedOrders \/
  exists cards,
    groupedDisplayOrders st toLocaleDateString fetchedOrders = Ok cards.
Proof.
  unfold groupedDisplayOrders.
  induction fetchedOrders as [|o l IH]; [right; eexists; reflexivity|].
  destruct (names_safe_or_inherited (enrichedItems st o))
    as [Hs|(item & k & Hin & Hk & Hi)].
  - destruct IH as [(o' & item & k & Ho & Hrest)|(cards & Hl)].
    + left. exists o', item, k.
      split; [apply elem_of_cons; right; exact Ho|exact Hrest].
    + right. simpl.
      destruct (segmentOrder_canonical st toLocaleDateString o
                  (names_safe_items o Hs)) as (segs & -> & _).
      simpl. destruct (all_results _ l) as [l'|e]; [|discriminate].
      eexists. reflexivity.
  - left. exists o, item, k. split; [apply list_elem_of_here|auto].
Qed.

(** X1. The history fetch either settles or is left hanging. The promise
    of [fetchOrders] rejects with a [TypeError] exactly when a user is
    signed in, the read succeeds and some item of some fetched order has a
    restaurant named after a member of [Object.prototype]; the state is then
    the one set before the read, [loading] is true and the view shows the
    spinner, as nothing resets it. In every other case [loading] ends false,
    and a failed read empties the list. *)
Theorem fetchOrders_rejects_iff user fetched s :
  let '(s', events, rejection) :=
    fetchOrders st toLocaleDateString user fetched s in
  (rejection = Some TypeError <->
     exists u fetchedOrders, user = Some u /\ fetched = Ok fetchedOrders /\
       some_name_inherited st fetchedOrders) /\
  (rejection = Some TypeError ->
     s' = setHistoryLoading true s /\ history_render s' = Spinner) /\
  (rejection = None -> history_loading s' = false) /\
  (forall e, fetched = Raised e -> user <> None -> groupedOrders s' = []).
Proof.
  unfold fetchOrders. destruct user as [u|].
  - destruct fetched as [fetchedOrders|e].
    + destruct (groupedDisplayOrders st toLocaleDateString fetchedOrders)
        as [cards|[]] eqn:Hrun.
      * split; [|split; [|split]]; try discriminate; try reflexivity.
        split; [discriminate|].
        intros (u' & l & [= <-] & [= <-] & Hinh).
        rewrite (groupedDisplayOrders_raises _ Hinh) in Hrun. discriminate.
      * split; [|split; [|split]]; try discriminate.
        -- split; [|reflexivity]. intros _. exists u, fetchedOrders.
           split; [reflexivity|]. split; [reflexivity|].
           destruct (groupedDisplayOrders_returns fetchedOrders)
             as [Hi|(cards & Hok)]; [exact Hi|congruence].
        -- intros _. split; reflexivity.
    + split; [|split; [|split]]; try discriminate; try reflexivity.
      split; [discriminate|]. intros (u' & l & _ & [=] & _).
  - split; [|split; [|split]]; try discriminate; try reflexivity.
    + split; [discriminate|]. intros (u' & l & [=] & _).
    + intros e _ Hn. congruence.
Qed.


Lemma segments_perm o segs :
  segmentOrder st toLocaleDateString o = Ok segs ->
  segs ≡ₚ map (segment_for st toLocaleDateString o)
           (restaurant_names (enrichedItems st o)).
Proof.
  intros Hrun.
  destruct (segmentOrder_canonical st toLocaleDateString o
              (segmentOrder_Ok_safe o segs Hrun)) as (segs' & Hrun' & Hperm).
  congruence.
Qed.

Lemma segment_for_first o k :
  k ∈ restaurant_names (enrichedItems st o) ->
  exists item,
    firstItem (segment_for st toLocaleDateString o k) = Some item /\
    item ∈ enrichedItems st o /\ restaurant_key item = Some k.
Proof.
  intros Hk. destruct (items_named_cons _ k Hk) as (item & its & Hits).
  exists item. unfold firstItem, segment_for. simpl. rewrite Hits.
  split; [reflexivity|]. apply elem_of_items_named. rewrite Hits.
  apply list_elem_of_here.
Qed.

Lemma cards_per_order fetchedOrders cards :
  groupedDisplayOrders st toLocaleDateString fetchedOrders = Ok cards ->
  exists per_order,
    Forall2 (fun o segs => segmentOrder st toLocaleDateString o = Ok segs)
      fetchedOrders per_order /\
    cards = concat per_order.
Proof.
  unfold groupedDisplayOrders.
  destruct (all_results _ fetchedOrders) as [per|e] eqn:Hall; [|discriminate].
  simpl. intros [= <-]. apply all_results_Ok in Hall. eauto.
Qed.

(** X2. What the history shows is, order by order as fetched, the segments
    of each order. The number of cards (the count in the title) is the
    number of distinct restaurant names over the orders; every card is a
    segment of a fetched order, carries that order's date, and has a first
    item, which is an item of the order sold by the restaurant the card
    names: no card is empty, and an order none of whose items has a
    resolvable restaurant shows no card. *)
Theorem history_cards fetchedOrders cards :
  groupedDisplayOrders st toLocaleDateString fetchedOrders = Ok cards ->
  (exists per_order,
     Forall2 (fun o segs => segmentOrder st toLocaleDateString o = Ok segs)
       fetchedOrders per_order /\
     cards = concat per_order) /\
  length cards =
    sum_list (map (fun o => length (restaurant_names (enrichedItems st o)))
                fetchedOrders) /\
  (forall card, card ∈ cards ->
     seg_order card ∈ fetchedOrders /\
     isSegment card = true /\
     createdAt card = toLocaleDateString (created_at (seg_order card)) /\
     exists item,
       firstItem card = Some item /\
       item ∈ enrichedItems st (seg_order card) /\
       restaurant_key item = Some (restaurantName card)) /\
  (forall card, card ∈ cards ->
     ~ Forall (fun item => ~ resolvable item)
         (enrichedItems st (seg_order card))).
Proof.
  intros Hrun. destruct (cards_per_order _ _ Hrun) as (per & Hall & ->).
  split; [exists per; auto|]. clear Hrun.
  assert (Hmain :
    length (concat per) =
      sum_list (map (fun o => length (restaurant_names (enrichedItems st o)))
                  fetchedOrders) /\
    (forall card, card ∈ concat per ->
       seg_order card ∈ fetchedOrders /\
       isSegment card = true /\
       createdAt card = toLocaleDateString (created_at (seg_order card)) /\
       exists item,
         firstItem card = Some item /\
         item ∈ enrichedItems st (seg_order card) /\
         restaurant_key item = Some (restaurantName card))).
  2: { destruct Hmain as [Hlen Hcards]. split; [exact Hlen|].
       split; [exact Hcards|]. intros card Hc Hnone.
       destruct (Hcards card Hc) as (_ & _ & _ & item & _ & Hin & Hk).
       rewrite Forall_forall in Hnone. apply (Hnone item Hin).
       eexists. exact Hk. }
  induction Hall as [|o segs l per Ho _ IH].
  - split; [reflexivity|]. intros card Hc. inversion Hc.
  - destruct IH as [IHlen IHc]. pose proof (segments_perm o segs Ho) as Hperm.
    split.
    + simpl. rewrite length_app, IHlen, Hperm, length_map. reflexivity.
    + intros card Hc. simpl in Hc. apply elem_of_app in Hc as [Hc|Hc].
      * apply (elem_of_segments st toLocaleDateString o segs card Hperm) in Hc
          as (k & Hk & ->).
        split; [apply list_elem_of_here|]. split; [reflexivity|].
        split; [reflexivity|]. apply segment_for_first. exact Hk.
      * destruct (IHc card Hc) as (Hin & Hrest).
        split; [apply elem_of_cons; right; exact Hin|exact Hrest].
Qed.

Lemma displayId_segment_for o k :
  displayId (segment_for st toLocaleDateString o k) =
  id o +:+ "-" +:+
    id_text (head (items_named k (enrichedItems st o)) ≫= item_restaurant_id).
Proof. reflexivity. Qed.

Lemma displayId_inj o k1 k2 :
  ids_present (enrichedItems st o) -> names_by_id (enrichedItems st o) ->
  k1 ∈ restaurant_names (enrichedItems st o) ->
  k2 ∈ restaurant_names (enrichedItems st o) ->
  displayId (segment_for st toLocaleDateString o k1) =
  displayId (segment_for st toLocaleDateString o k2) ->
  k1 = k2.
Proof.
  intros Hids Hby H1 H2. rewrite !displayId_segment_for.
  intros E%append_inj_l%append_inj_l.
  destruct (items_named_cons _ k1 H1) as (i1 & its1 & E1).
  destruct (items_named_cons _ k2 H2) as (i2 & its2 & E2).
  assert (Hi1 : i1 ∈ enrichedItems st o /\ restaurant_key i1 = Some k1).
  { apply elem_of_items_named. rewrite E1. apply list_elem_of_here. }
  assert (Hi2 : i2 ∈ enrichedItems st o /\ restaurant_key i2 = Some k2).
  { apply elem_of_items_named. rewrite E2. apply list_elem_of_here. }
  destruct Hi1 as [Hin1 Hk1], Hi2 as [Hin2 Hk2].
  assert (Hr1 : resolvable i1) by (exists k1; exact Hk1).
  assert (Hr2 : resolvable i2) by (exists k2; exact Hk2).
  rewrite E1, E2 in E. simpl in E.
  destruct (Hids i1 Hin1 Hr1) as [a Ha], (Hids i2 Hin2 Hr2) as [b Hb].
  rewrite Ha, Hb in E. simpl in E. subst b.
  pose proof (Hby i1 i2 Hin1 Hin2 Hr1 Hr2 (eq_trans Ha (eq_sym Hb))) as Hk.
  congruence.
Qed.

Lemma NoDup_displayId o segs :
  ids_present (enrichedItems st o) -> names_by_id (enrichedItems st o) ->
  segmentOrder st toLocaleDateString o = Ok segs ->
  NoDup (map displayId segs).
Proof.
  intros Hids Hby Hrun. rewrite (segments_perm o segs Hrun), map_map.
  apply NoDup_fmap_2_strong; [|apply NoDup_distinct].
  intros k1 k2 H1 H2. apply displayId_inj; assumption.
Qed.

Lemma displayId_prefix o segs card :
  segmentOrder st toLocaleDateString o = Ok segs -> card ∈ segs ->
  exists rest, displayId card = id o +:+ rest.
Proof.
  intros Hrun Hc.
  apply (elem_of_segments st toLocaleDateString o segs card
           (segments_perm o segs Hrun)) in Hc as (k & _ & ->).
  eexists. reflexivity.
Qed.

(** X3. The keys of the cards are distinct. When the fetched orders have
    distinct identifiers of one length (they are UUIDs), every resolvable
    item carries the identifier of its restaurant and a restaurant
    identifier carries one name, no two cards of the history have the same
    [displayId]. *)
Theorem displayId_unique fetchedOrders cards n :
  NoDup (map id fetchedOrders) ->
  (forall o, o ∈ fetchedOrders -> String.length (id o) = n) ->
  (forall o, o ∈ fetchedOrders ->
     ids_present (enrichedItems st o) /\ names_by_id (enrichedItems st o)) ->
  groupedDisplayOrders st toLocaleDateString fetchedOrders = Ok cards ->
  NoDup (map displayId cards).
Proof.
  intros Hnd Hlen Hok Hrun.
  destruct (cards_per_order fetchedOrders cards Hrun) as (per & Hall & ->).
  clear Hrun. rewrite concat_map.
  apply NoDup_concat_disjoint.
  - apply Forall_fmap. apply Forall_forall. intros segs Hsegs.
    apply list_elem_of_lookup in Hsegs as (i & Hi).
    destruct (Forall2_lookup_r _ _ _ _ _ Hall Hi) as (o & Ho & Hrun).
    apply list_elem_of_lookup_2 in Ho. destruct (Hok o Ho).
    apply (NoDup_displayId o); assumption.
  - intros i j l l' x Hij Hi Hj Hx Hx'.
    rewrite list_lookup_fmap in Hi, Hj.
    destruct (per !! i) as [segs|] eqn:Hpi; [|discriminate].
    destruct (per !! j) as [segs'|] eqn:Hpj; [|discriminate].
    simpl in Hi, Hj. injection Hi as <-. injection Hj as <-.
    destruct (Forall2_lookup_r _ _ _ _ _ Hall Hpi) as (o & Ho & Hrun).
    destruct (Forall2_lookup_r _ _ _ _ _ Hall Hpj) as (o' & Ho' & Hrun').
    apply list_elem_of_fmap in Hx as (c & -> & Hc).
    apply list_elem_of_fmap in Hx' as (c' & Hcc & Hc').
    destruct (displayId_prefix o segs c Hrun Hc) as (r & Hr).
    destruct (displayId_prefix o' segs' c' Hrun' Hc') as (r' & Hr').
    rewrite Hr, Hr' in Hcc.
    apply append_inj_length in Hcc as [Hid _].
    + assert (Hne : i <> j) by lia. apply Hne.
      apply (NoDup_lookup (map id fetchedOrders) i j (id o)); [exact Hnd| |].
      * rewrite list_lookup_fmap, Ho. reflexivity.
      * rewrite list_lookup_fmap, Ho', Hid. reflexivity.
    + rewrite (Hlen o), (Hlen o'); [reflexivity| |];
        eapply list_elem_of_lookup_2; eassumption.
Qed.

(** X4. The order of the segments of an order is the order in which
    [Object.values] lists the restaurant names: the names that are array
    indices first, by ascending index, then the other names in the order in
    which the items first mention them. When no restaurant name is an
    array index the segments follow the first mention. *)
Theorem segments_in_key_order o :
  names_safe (enrichedItems st o) ->
  let names := restaurant_names (enrichedItems st o) in
  segmentOrder st toLocaleDateString o =
    Ok (map (segment_for st toLocaleDateString o) (key_order names)) /\
  (exists indices,
     key_order names =
       indices ++ filter (fun k => array_index k = None) names /\
     indices ≡ₚ filter (fun k => array_index k <> None) names /\
     Sorted index_le indices) /\
  (no_index_names (enrichedItems st o) -> key_order names = names).
Proof.
  intros Hs names. split; [|split].
  - unfold segmentOrder. rewrite (restaurantGroups_grouped _ Hs).
    simpl bind_result. unfold grouped. rewrite values_keyed, map_map.
    fold (segment_for st toLocaleDateString o).
    f_equal. destruct (map _ _); reflexivity.
  - apply key_order_spec.
  - intros Hno. apply key_order_named. intros k Hk.
    apply elem_of_restaurant_names in Hk as (item & Hitem & Hk).
    exact (Hno item k Hitem Hk).
Qed.


Lemma enrich_image item :
  oi_image_url (enrich st item) =
  as_ref (resolveImage st
            (ref_or (ref_or (match oi_food_items item with
                             | Some fi => fi_image_url fi
                             | None => Absent
                             end) (oi_image_url item)) Absent)).
Proof. reflexivity. Qed.

(** X5. On a storage whose public addresses are fully-qualified, the
    image of every item of every card is either missing or an http, https
    or data address without surrounding white space: no storage key and no
    object reference reaches the [img] element. *)
Theorem card_images_ready (Hst : yields_addresses st) fetchedOrders cards :
  groupedDisplayOrders st toLocaleDateString fetchedOrders = Ok cards ->
  forall card item, card ∈ cards -> item ∈ seg_order_items card ->
    image_ready (oi_image_url item).
Proof.
  intros Hrun card item Hc Hitem.
  destruct (cards_per_order fetchedOrders cards Hrun) as (per & Hall & ->).
  apply elem_of_concat in Hc as (segs & Hc & Hsegs).
  apply list_elem_of_lookup in Hsegs as (i & Hi).
  destruct (Forall2_lookup_r _ _ _ _ _ Hall Hi) as (o & _ & Ho).
  apply (elem_of_segments st toLocaleDateString o segs card
           (segments_perm o segs Ho)) in Hc as (k & _ & ->).
  simpl in Hitem. apply elem_of_items_named in Hitem as [Hin _].
  unfold enrichedItems in Hin. apply list_elem_of_fmap in Hin as (item0 & -> & _).
  rewrite enrich_image.
  destruct (resolveImage st _) as [u|] eqn:Hr; simpl; [|exact I].
  exact (resolveImage_result st _ u Hst Hr).
Qed.

End Facts.

(** *** The properties on the sample history *)

Section OnSamples.

Lemma names_by_id_Forall {num} `{JSNumber num} (L : list (order_item (num:=num))) :
  Forall (fun i => Forall (fun j =>
    resolvable i -> resolvable j ->
    item_restaurant_id i = item_restaurant_id j ->
    restaurant_key i = restaurant_key j) L) L ->
  names_by_id L.
Proof.
  intros Hall i j Hi Hj. rewrite Forall_forall in Hall.
  specialize (Hall i Hi). rewrite Forall_forall in Hall. exact (Hall j Hj).
Qed.

Lemma ids_present_Forall {num} `{JSNumber num} (L : list (order_item (num:=num))) :
  Forall (fun i => resolvable i -> is_Some (item_restaurant_id i)) L ->
  ids_present L.
Proof. intros Hall i Hi. rewrite Forall_forall in Hall. exact (Hall i Hi). Qed.

Lemma sample_history_names o :
  o ∈ sample_history ->
  ids_present (enrichedItems cdn_storage o) /\
  names_by_id (enrichedItems cdn_storage o).
Proof.
  intros Ho. repeat (apply elem_of_cons in Ho as [->|Ho]); [| |inversion Ho].
  - split.
    + apply ids_present_Forall. repeat constructor; intros _; eexists; reflexivity.
    + apply names_by_id_Forall.
      repeat constructor; intros _ _ E; first [reflexivity|discriminate E].
  - split.
    + apply ids_present_Forall.
      repeat constructor; intros Hr;
        first [eexists; reflexivity|destruct Hr; discriminate].
    + apply names_by_id_Forall.
      repeat constructor; intros Hi Hj E;
        first [reflexivity|discriminate E|destruct Hi; discriminate
              |destruct Hj; discriminate].
Qed.

Lemma sample_cards_fetched :
  groupedDisplayOrders cdn_storage day_of sample_history = Ok sample_cards.
Proof. reflexivity. Qed.

(** The sample history: the later order lists the restaurants [7] and [88]
    before restaurant B, which its items mention first. *)
Example sample_cards_shown :
  map (fun card => (String.substring 0 8 (id (seg_order card)),
                    restaurantName card, total card)) sample_cards =
  [("a3e8f1d0", "7", 35%Z); ("a3e8f1d0", "88", 180%Z);
   ("a3e8f1d0", "Restaurant B", 60%Z);
   ("7c1d52aa", "Restaurant A", 200%Z); ("7c1d52aa", "Restaurant B", 75%Z)].
Proof. reflexivity. Qed.

Lemma history_cards_witness :
  groupedDisplayOrders cdn_storage day_of sample_history = Ok sample_cards /\
  length sample_cards = 5 /\
  Forall (fun card => is_Some (firstItem card)) sample_cards.
Proof.
  split; [exact sample_cards_fetched|].
  destruct (history_cards cdn_storage day_of sample_history sample_cards
              sample_cards_fetched) as (_ & Hlen & Hcards & _).
  split; [exact Hlen|]. apply Forall_forall. intros card Hc.
  destruct (Hcards card Hc) as (_ & _ & _ & item & -> & _). eexists. reflexivity.
Defined.

Lemma displayId_unique_witness :
  NoDup (map id sample_history) /\ NoDup (map displayId sample_cards).
Proof.
  assert (Hids : NoDup (map id sample_history)).
  { repeat constructor; intros Hin;
      repeat (apply elem_of_cons in Hin as [Hin|Hin]; [discriminate Hin|]);
      inversion Hin. }
  split; [exact Hids|].
  apply (displayId_unique cdn_storage day_of sample_history sample_cards 36).
  - exact Hids.
  - intros o Ho. repeat (apply elem_of_cons in Ho as [->|Ho]); [| |inversion Ho];
      reflexivity.
  - exact sample_history_names.
  - exact sample_cards_fetched.
Defined.

Lemma later_order_names_safe : names_safe (enrichedItems cdn_storage later_order).
Proof. apply names_safe_Forall. repeat constructor. Qed.

Lemma segments_in_key_order_witness :
  names_safe (enrichedItems cdn_storage later_order) /\
  map restaurantName
    (match segmentOrder cdn_storage day_of later_order with
     | Ok segs => segs
     | Raised _ => []
     end) = key_order ["Restaurant B"; "88"; "7"].
Proof.
  split; [exact later_order_names_safe|].
  destruct (segments_in_key_order cdn_storage day_of later_order
              later_order_names_safe) as (-> & _).
  reflexivity.
Defined.

Lemma card_images_ready_witness :
  yields_addresses cdn_storage /\
  Forall (fun card =>
    Forall (fun item => image_ready (oi_image_url item)) (seg_order_items card))
    sample_cards.
Proof.
  split; [exact cdn_storage_yields_addresses|].
  apply Forall_forall. intros card Hc. apply Forall_forall. intros item Hitem.
  exact (card_images_ready cdn_storage day_of cdn_storage_yields_addresses
           sample_history sample_cards sample_cards_fetched card item Hc Hitem).
Defined.


Lemma resolveImage_truthy_witness :
  resolveImage second_bucket_storage (Str "//menu/adobo.png")
    = Some "https://cdn.example/restaurant-images/menu/adobo.png" /\
  "https://cdn.example/restaurant-images/menu/adobo.png" <> "".
Proof.
  split; [reflexivity|].
  exact (proj1 (resolveImage_truthy second_bucket_storage
           (Str "//menu/adobo.png") _ eq_refl)).
Defined.

End OnSamples.

End HistoryFacts.

(** ** The screens and the session of the dashboard *)

Module DashboardFacts.
Import JsString Store Provisioning Dashboard ProvisioningFacts.

Section Facts.
Context {num : Type} `{JSNumber num} `{ToFixed num}.
Implicit Types (c : component (num:=num)) (d : dashboard).

(** X9. The main screen is rendered with a restaurant only. Whenever the
    component returns the main screen, [myRestaurant] holds a row (the
    header reads its members), the session has been checked, a user is
    signed in and the polling has ended. *)
Theorem render_main_has_restaurant c r :
  render c = MainScreen r ->
  is_Some r /\ r = myRestaurant (data c) /\ authReady c = true /\
  is_Some (user (data c)) /\ restaurantLoaded (data c) = true.
Proof.
  unfold render. destruct (authReady c); simpl; [|discriminate].
  case_bool_decide as Hu; simpl; [|discriminate].
  destruct (restaurantLoaded (data c)); simpl; [|discriminate].
  case_bool_decide as Hr; simpl.
  - destruct (loading (data c) && _)%bool; [discriminate|].
    intros [= <-]. auto.
  - rewrite Bool.andb_true_r.
    destruct (loading (data c)); discriminate.
Qed.


(** What one run of [loadMyData] does, told by its outcome: a retry, or
    the end of the polling. *)
Lemma loadMyData_cases u a d :
  user d = Some u -> restaurantLoaded d = false ->
  let out := loadMyData u a d in
  let d' := fst (fst out) in
  let events := snd (fst out) in
  user d' = Some u /\ loading d' = false /\
  length (filter is_restaurant_read events) <= 1 /\
  ((snd out = true /\ restaurantCheckAttempts d < 3 /\
    restaurantCheckAttempts d' = S (restaurantCheckAttempts d) /\
    restaurantLoaded d' = false /\
    length (filter is_retry_timer events) = 1) \/
   (snd out = false /\ restaurantLoaded d' = true /\
    restaurantCheckAttempts d' = restaurantCheckAttempts d /\
    filter is_retry_timer events = [])).
Proof.
  intros Hu Hl. unfold loadMyData, after_restaurant_read.
  destruct (owner_answer a) as [data|e]; simpl.
  2: destruct (not_found e); simpl; [|repeat split; auto; right; auto].
  all: destruct (restaurant_answer a) as [rdata|re]; simpl;
    [repeat split; auto; right; auto|].
  all: destruct (not_found re); simpl; [|repeat split; auto; right; auto].
  all: destruct (Nat.ltb_spec (restaurantCheckAttempts d) 3); simpl;
    [repeat split; auto; left; auto|repeat split; auto; right; auto].
Qed.

(** The effect never changes the user. *)
Lemma run_user answered d : user (fst (run answered d)) = user d.
Proof.
  revert d. induction answered as [|a later IH]; intros d.
  - simpl. destruct (user d) eqn:Hu, (restaurantLoaded d); simpl; congruence.
  - destruct (user d) as [u|] eqn:Hu; [|simpl; rewrite Hu; simpl; congruence].
    destruct (restaurantLoaded d) eqn:Hl;
      [simpl; rewrite Hu, Hl; simpl; congruence|].
    rewrite (run_cons u a later d Hu Hl).
    pose proof (loadMyData_cases u a d Hu Hl) as Hc.
    destruct (loadMyData u a d) as [[d' events] retryTimeout].
    cbn [fst snd] in Hc. destruct Hc as (Hu' & _ & _ & _).
    destruct (deps_changed d d'); cbn [fst]; [|exact Hu'].
    specialize (IH d'). destruct (run later d') as [d'' events'].
    cbn [fst] in *. congruence.
Qed.

(** X10. The polling is bounded whatever the store answers. For every
    sequence of answers and every state, the effect arms at most three
    timers less the retries already counted, reads [restaurants] at most
    once more than that, raises the counter by exactly the number of timers
    it armed, and leaves the user as it was. *)
Theorem polling_is_bounded answered d :
  let out := run answered d in
  let timers := length (filter is_retry_timer (snd out)) in
  timers <= 3 - restaurantCheckAttempts d /\
  length (filter is_restaurant_read (snd out)) <= S (3 - restaurantCheckAttempts d) /\
  restaurantCheckAttempts (fst out) = restaurantCheckAttempts d + timers /\
  user (fst out) = user d.
Proof.
  revert d. induction answered as [|a later IH]; intros d.
  - simpl. destruct (user d) eqn:Hu, (restaurantLoaded d); simpl;
      repeat split; first [lia|congruence].
  - destruct (user d) as [u|] eqn:Hu;
      [|simpl; rewrite Hu; simpl; repeat split; first [lia|congruence]].
    destruct (restaurantLoaded d) eqn:Hl;
      [simpl; rewrite Hu, Hl; simpl; repeat split; first [lia|congruence]|].
    rewrite (run_cons u a later d Hu Hl).
    pose proof (loadMyData_cases u a d Hu Hl) as Hc.
    destruct (loadMyData u a d) as [[d' events] retryTimeout].
    cbn [fst snd] in Hc. destruct Hc as (Hu' & _ & Hreads & Hc).
    destruct Hc as [(-> & Hlt & Hn & Hl' & Ht)|(-> & Hl' & Hn & Ht)].
    + rewrite deps_changed_attempts by lia.
      specialize (IH d'). destruct (run later d') as [d'' events'].
      cbn [fst snd cleanup] in *. destruct IH as (IH1 & IH2 & IH3 & IH4).
      rewrite !filter_app, !length_app. simpl.
      rewrite Hn in *. repeat split; try lia. congruence.
    + rewrite deps_changed_loaded by (rewrite Hl, Hl'; discriminate).
      rewrite (run_loaded later d' Hl'). cbn [fst snd cleanup app].
      rewrite app_nil_r, Ht. simpl. repeat split; try lia. congruence.
Qed.

(** The state in which the polling ends. *)
Lemma run_settles answered d :
  restaurantLoaded d = false ->
  restaurantLoaded (fst (run answered d)) = true ->
  loading (fst (run answered d)) = false /\ is_Some (user d).
Proof.
  revert d. induction answered as [|a later IH]; intros d Hl.
  - simpl. destruct (user d) eqn:Hu; [rewrite Hl|]; simpl; intros Hfin;
      congruence.
  - destruct (user d) as [u|] eqn:Hu;
      [|simpl; rewrite Hu; simpl; intros Hfin; congruence].
    rewrite (run_cons u a later d Hu Hl).
    pose proof (loadMyData_cases u a d Hu Hl) as Hc.
    destruct (loadMyData u a d) as [[d' events] retryTimeout].
    cbn [fst snd] in Hc. destruct Hc as (Hu' & Hload & _ & Hc).
    destruct Hc as [(-> & Hlt & Hn & Hl' & Ht)|(-> & Hl' & Hn & Ht)].
    + rewrite deps_changed_attempts by lia.
      specialize (IH d' Hl'). destruct (run later d') as [d'' events'].
      cbn [fst snd] in *. intros Hfin. split; [apply IH; exact Hfin|eauto].
    + rewrite deps_changed_loaded by (rewrite Hl, Hl'; discriminate).
      rewrite (run_loaded later d' Hl'). cbn [fst snd]. intros _.
      split; [exact Hload|eauto].
Qed.

(** [loadOrders] leaves the session and the restaurant as they are, and
    [loading] false when there is a restaurant. *)
Lemma loadOrders_data items_answer orders_answer c :
  let c' := fst (loadOrders items_answer orders_answer c) in
  authReady c' = authReady c /\
  data c' = match myRestaurant (data c) with
            | Some _ => setLoading false (data c)
            | None => data c
            end.
Proof.
  cbv zeta. unfold loadOrders, OrderQueue.loadOrders.
  destruct c as [ready d ords]. cbn [data authReady].
  destruct (myRestaurant d) as [r|] eqn:Hr.
  - destruct items_answer as [items|e]; [|split; reflexivity].
    destruct (Nat.eqb (length (OrderQueue.uniqueOrderIds items)) 0);
      [split; reflexivity|].
    destruct orders_answer; split; reflexivity.
  - split; [reflexivity|]. destruct d; reflexivity.
Qed.

(** Without a restaurant [loadOrders] returns at its guard. *)
Lemma loadOrders_idle items_answer orders_answer c :
  myRestaurant (data c) = None ->
  loadOrders items_answer orders_answer c = (c, []).
Proof.
  intros Hr. unfold loadOrders. rewrite Hr.
  destruct c as [ready d ords]. destruct d. reflexivity.
Qed.

(** X11. How the loading shows. From a state in which the data is not
    loaded yet, once the session is known: while the polling goes on the
    component shows the loading screen (or the sign-in page when no user is
    signed in). When the polling has ended [loading] is false. Without a
    restaurant the "no restaurant linked" screen is shown, and [loadOrders]
    returns at its guard. With a restaurant the main screen is shown and
    [loadOrders] sets [loading] again, the same state: while it awaits the
    store the main screen stays if the row of [owners] was read, and the
    full-page spinner comes back if it was not; once [loadOrders] has
    returned, whatever the store answered, [loading] is false and the main
    screen is shown. *)
Theorem load_ends_on_a_screen answered c :
  authReady c = true -> restaurantLoaded (data c) = false ->
  let c' := fst (load answered c) in
  (restaurantLoaded (data c') = false ->
     render c' = LoadingScreen \/ render c' = OwnerAuthPage) /\
  (restaurantLoaded (data c') = true ->
     loading (data c') = false /\
     match myRestaurant (data c') with
     | None =>
         render c' = NoRestaurantLinked /\
         awaiting_orders c' = c' /\
         forall items_answer orders_answer,
           loadOrders items_answer orders_answer c' = (c', [])
     | Some r =>
         render c' = MainScreen (Some r) /\
         render (awaiting_orders c') =
           match owner (data c') with
           | Some _ => MainScreen (Some r)
           | None => LoadingScreen
           end /\
         forall items_answer orders_answer,
           let c'' := fst (loadOrders items_answer orders_answer c') in
           loading (data c'') = false /\ render c'' = MainScreen (Some r)
     end).
Proof.
  intros Hready Hl. cbv zeta.
  pose proof (run_user answered (data c)) as Hu.
  set (c' := fst (load answered c)).
  assert (Hdata : data c' = fst (run answered (data c))) by reflexivity.
  assert (Hready' : authReady c' = true) by exact Hready.
  split.
  - intros Hfin. unfold render. rewrite Hready', Hfin. cbn [negb orb].
    case_bool_decide; simpl; auto.
  - intros Hfin.
    destruct (run_settles answered (data c) Hl) as [Hload Huser];
      [rewrite <- Hdata; exact Hfin|].
    rewrite <- Hdata in Hload, Hu. split; [exact Hload|].
    assert (Huser' : is_Some (user (data c'))) by (rewrite Hu; exact Huser).
    destruct (myRestaurant (data c')) as [r|] eqn:Hr.
    + split; [|split].
      * unfold render. rewrite Hready', Hfin, Hload, Hr.
        rewrite bool_decide_eq_true_2 by exact Huser'. reflexivity.
      * unfold awaiting_orders, render. rewrite Hr.
        cbn [with_data data authReady]. rewrite Hready'.
        unfold setLoading. cbn [user restaurantLoaded loading myRestaurant owner].
        rewrite Hfin, Hr. rewrite bool_decide_eq_true_2 by exact Huser'.
        cbn [negb orb andb].
        rewrite (bool_decide_eq_true_2 (is_Some (Some r))) by eauto.
        cbn [negb orb andb]. destruct (owner (data c')); reflexivity.
      * intros items_answer orders_answer. cbv zeta.
        destruct (loadOrders_data items_answer orders_answer c') as [Ha Hd].
        rewrite Hr in Hd. split; [rewrite Hd; reflexivity|].
        unfold render. rewrite Ha, Hd, Hready'.
        unfold setLoading. cbn [user restaurantLoaded loading myRestaurant owner].
        rewrite Hfin, Hr. rewrite bool_decide_eq_true_2 by exact Huser'.
        reflexivity.
    + split; [|split].
      * unfold render. rewrite Hready', Hfin, Hload, Hr.
        rewrite bool_decide_eq_true_2 by exact Huser'. reflexivity.
      * unfold awaiting_orders. rewrite Hr. reflexivity.
      * intros items_answer orders_answer.
        apply loadOrders_idle. exact Hr.
Qed.

(** X12. An error other than the not-found signal ends the polling at
    once, whatever the counter and whatever the store would answer later:
    no timer is armed, the counter stays, the restaurant is set to null and
    the data counts as loaded. When the read of [owners] fails so,
    [restaurants] is not read and the owner in the state stays as it was.
    When the read of [restaurants] fails so, the read of [owners] having
    returned or having failed with the not-found signal, the error is
    logged after the two reads and the owner is the row read, or null. *)
Theorem hard_error_ends_polling u a later d e :
  user d = Some u -> restaurantLoaded d = false ->
  (owner_answer a = Raised e \/
   owner_read_passes a /\ restaurant_answer a = Raised e) ->
  hard e ->
  let out := run (a :: later) d in
  restaurantLoaded (fst out) = true /\ myRestaurant (fst out) = None /\
  loading (fst out) = false /\
  restaurantCheckAttempts (fst out) = restaurantCheckAttempts d /\
  filter is_retry_timer (snd out) = [] /\
  (owner_answer a = Raised e ->
     snd out = [Request (SelectOwnerById u); ConsoleError "" (message e)] /\
     owner (fst out) = owner d) /\
  (owner_read_passes a -> restaurant_answer a = Raised e ->
     snd out = reads u ++ [ConsoleError "Error fetching restaurant:" (message e)] /\
     owner (fst out) = match owner_answer a with
                       | Ok ownerData => ownerData
                       | Raised _ => None
                       end).
Proof.
  intros Hu Hl Hans He. unfold hard in He. rewrite (run_cons u a later d Hu Hl).
  unfold loadMyData, after_restaurant_read.
  destruct Hans as [Ho|[Ho Hr]].
  - rewrite Ho, He. simpl.
    rewrite deps_changed_loaded by (simpl; rewrite Hl; discriminate).
    rewrite run_loaded by reflexivity. simpl.
    do 5 (split; [reflexivity|]). split; [intros _; split; reflexivity|].
    intros Hpass. unfold owner_read_passes in Hpass. rewrite Ho in Hpass.
    congruence.
  - unfold owner_read_passes in *. rewrite Hr, He.
    destruct (owner_answer a) as [ownerData|e0].
    + simpl.
      rewrite deps_changed_loaded by (simpl; rewrite Hl; discriminate).
      rewrite run_loaded by reflexivity. simpl.
      do 5 (split; [reflexivity|]). split; [discriminate|].
      intros _ _. split; reflexivity.
    + rewrite Ho. simpl.
      rewrite deps_changed_loaded by (simpl; rewrite Hl; discriminate).
      rewrite run_loaded by reflexivity. simpl.
      do 5 (split; [reflexivity|]). split; [intros [= ->]; congruence|].
      intros _ _. split; reflexivity.
Qed.

(** X13. Signing out gives the next session the full number of retries.
    After [handleSignOut], from any state, the sign-in page is shown (the
    session having been checked), the
    orders, the owner and the restaurant of the previous session are gone
    and the counter is zero: a user who signs in then gets three retries
    again. Without it, a dashboard whose polling has ended reads nothing
    more, whatever the store would answer. *)
Theorem sign_out_restores_retries c u o r :
  let c1 := handleSignOut c in
  let c2 := onSuccess (Some u) c1 in
  render (setAuthReady true c1) = OwnerAuthPage /\
  orders c1 = [] /\ owner (data c1) = None /\ myRestaurant (data c1) = None /\
  restaurantCheckAttempts (data c2) = 0 /\
  run [NotFound o; NotFound o; NotFound o; Visible o r] (data c2) =
    (settled u o 3 (Some r),
     retry_events u 1 ++ retry_events u 2 ++ retry_events u 3 ++ reads u) /\
  (forall answered, restaurantLoaded (data c) = true ->
     load answered c = (c, [])).
Proof.
  cbv zeta. repeat split.
  - rewrite (run_NotFound u o) by (try reflexivity; simpl; lia).
    rewrite (run_NotFound u o) by (try reflexivity; simpl; lia).
    rewrite (run_NotFound u o) by (try reflexivity; simpl; lia).
    rewrite (run_Visible u o r) by reflexivity.
    reflexivity.
  - intros answered Hl. unfold load. rewrite (run_loaded answered _ Hl).
    destruct c; reflexivity.
Qed.

(** X14. Every event of the auth listener starts the loading again, also
    one that carries the user already signed in: from a dashboard that has
    settled, the listener leaves the loading screen and a counter of zero,
    the effect reads [owners] again, and when the restaurant is visible the
    dashboard settles on what the store answers now. *)
Theorem auth_event_reloads c u o r n later :
  authReady c = true -> data c = settled u o n r ->
  let c1 := onAuthStateChange (Some u) c in
  render c1 = LoadingScreen /\
  restaurantCheckAttempts (data c1) = 0 /\
  load [] c1 = (with_data (setLoading true) c1, [Request (SelectOwnerById u)]) /\
  (forall o' r',
     fst (load (Visible o' r' :: later) c1) =
       with_data (fun _ => settled u o' 0 (Some r')) c1 /\
     snd (load (Visible o' r' :: later) c1) = reads u).
Proof.
  intros Hready Hd. destruct c as [ready d ords]. simpl in Hready, Hd.
  subst ready d. cbv zeta.
  split; [reflexivity|]. split; [reflexivity|]. split; [reflexivity|].
  intros o' r'. unfold load, onAuthStateChange, with_data, setAuthReady.
  cbn [data authReady orders].
  rewrite (run_Visible u o' r') by reflexivity. split; reflexivity.
Qed.

End Facts.

(** *** The properties on the sample owner *)

Section OnSamples.
Import Samples.

(** The dashboard of the sample owner, settled on the sample restaurant. *)
Lemma render_main_has_restaurant_witness :
  render (num:=Z) open_dashboard = MainScreen (Some my_restaurant) /\
  is_Some (myRestaurant (data (num:=Z) open_dashboard)).
Proof.
  split; [reflexivity|].
  exact (proj1 (render_main_has_restaurant (num:=Z) open_dashboard
                  (Some my_restaurant) eq_refl)).
Defined.

(** The sample owner signs in; the restaurant is found at the second
    read, and the orders are loaded. Had the row of [owners] not been
    there, the spinner would have come back while the orders load. *)
Lemma load_ends_on_a_screen_witness :
  let c' :=
    fst (load [NotFound my_owner; Visible my_owner my_restaurant]
           (checkAuth (num:=Z) (Some "u-owner") mounted)) in
  let ownerless :=
    fst (load [{| owner_answer := Raised no_rows;
                  restaurant_answer := Ok (Some my_restaurant) |}]
           (checkAuth (num:=Z) (Some "u-owner") mounted)) in
  render c' = MainScreen (Some my_restaurant) /\
  render (awaiting_orders c') = MainScreen (Some my_restaurant) /\
  render (fst (loadOrders (Ok fetched_lines) (Ok orders_answered) c'))
    = MainScreen (Some my_restaurant) /\
  render ownerless = MainScreen (Some my_restaurant) /\
  render (awaiting_orders ownerless) = LoadingScreen.
Proof.
  cbv zeta.
  destruct (proj2 (load_ends_on_a_screen (num:=Z)
                     [NotFound my_owner; Visible my_owner my_restaurant]
                     (checkAuth (Some "u-owner") mounted) eq_refl eq_refl)
              eq_refl) as (_ & Hmain & Hwait & Hend).
  destruct (proj2 (load_ends_on_a_screen (num:=Z)
                     [{| owner_answer := Raised no_rows;
                         restaurant_answer := Ok (Some my_restaurant) |}]
                     (checkAuth (Some "u-owner") mounted) eq_refl eq_refl)
              eq_refl) as (_ & Hmain' & Hwait' & _).
  split; [exact Hmain|]. split; [exact Hwait|].
  split; [exact (proj2 (Hend (Ok fetched_lines) (Ok orders_answered)))|].
  split; [exact Hmain'|exact Hwait'].
Defined.

(** A timeout on the read of [restaurants], the owner row read or not
    found: one read of [restaurants] and no more. *)
Lemma hard_error_ends_polling_witness :
  let out :=
    run [{| owner_answer := Ok (Some my_owner);
            restaurant_answer := Raised transient |};
         Visible my_owner my_restaurant] (signed_in "u-owner") in
  let ownerless :=
    run [{| owner_answer := Raised no_rows;
            restaurant_answer := Raised transient |};
         Visible my_owner my_restaurant] (signed_in "u-owner") in
  restaurantLoaded (fst out) = true /\ myRestaurant (fst out) = None /\
  length (filter is_restaurant_read (snd out)) = 1 /\
  restaurantLoaded (fst ownerless) = true /\
  snd ownerless =
    reads "u-owner" ++
    [ConsoleError "Error fetching restaurant:" (message transient)].
Proof.
  destruct (hard_error_ends_polling "u-owner"
              {| owner_answer := Ok (Some my_owner);
                 restaurant_answer := Raised transient |}
              [Visible my_owner my_restaurant] (signed_in "u-owner") transient
              eq_refl eq_refl (or_intror (conj I eq_refl))
              eq_refl) as (Hl & Hr & _).
  destruct (hard_error_ends_polling "u-owner"
              {| owner_answer := Raised no_rows;
                 restaurant_answer := Raised transient |}
              [Visible my_owner my_restaurant] (signed_in "u-owner") transient
              eq_refl eq_refl (or_intror (conj eq_refl eq_refl))
              eq_refl) as (Hl' & _ & _ & _ & _ & _ & Hlog).
  cbv zeta. split; [exact Hl|]. split; [exact Hr|]. split; [reflexivity|].
  split; [exact Hl'|]. exact (proj1 (Hlog eq_refl eq_refl)).
Defined.

Lemma auth_event_reloads_witness :
  render (onAuthStateChange (num:=Z) (Some "u-owner") open_dashboard)
  = LoadingScreen.
Proof.
  exact (proj1 (auth_event_reloads (num:=Z) open_dashboard "u-owner" my_owner
                  (Some my_restaurant) 0 [] eq_refl eq_refl)).
Defined.

End OnSamples.

End DashboardFacts.

(** ** The status workflow *)

Module WorkflowFacts.
Import JsString JsObject Store OrderQueue StatusFilter Workflow ListFacts.
Import Segmentation.

Lemma known_status s :
  s ∈ ORDER_STATUSES ->
  s = "Pending" \/ s = "Preparing" \/ s = "Driver Assigned" \/
  s = "Out for Delivery" \/ s = "Delivered" \/ s = "Completed" \/
  s = "Cancelled".
Proof.
  intros Hs. repeat (apply elem_of_cons in Hs as [->|Hs]); auto 10.
  inversion Hs.
Qed.

Ltac by_key s :=
  repeat match goal with
         | |- context [String.eqb ?k s] =>
             destruct (String.eqb_spec k s) as [<-|?]
         | H : context [String.eqb ?k s] |- _ =>
             destruct (String.eqb_spec k s) as [<-|?]
         end.

Lemma unknown_status s :
  s ∉ ORDER_STATUSES ->
  own nextStatuses s = None /\
  String.eqb s "Completed" = false /\ String.eqb s "Cancelled" = false /\
  String.eqb s "Pending" = false /\ String.eqb s "Preparing" = false.
Proof.
  intros Hs. unfold nextStatuses. cbn [own].
  assert (Hne : forall k, k ∈ ORDER_STATUSES -> s <> k) by (intros k Hk ->; auto).
  assert (Hb : forall k, k ∈ ORDER_STATUSES -> String.eqb k s = false).
  { intros k Hk. apply String.eqb_neq. intros ->. exact (Hne s Hk eq_refl). }
  assert (Hb' : forall k, k ∈ ORDER_STATUSES -> String.eqb s k = false).
  { intros k Hk. apply String.eqb_neq. exact (Hne k Hk). }
  rewrite !Hb, !Hb'; auto; unfold ORDER_STATUSES;
    repeat first [apply list_elem_of_here | apply list_elem_of_further].
Qed.

(** X15. The advance button follows [ORDER_STATUSES]. For every status
    string, [getNextStatus] answers a status exactly when the string is one
    of the first five of [ORDER_STATUSES], and the answer is then the status
    that follows it in the list; it answers null for [Completed], for
    [Cancelled] and for every string that is neither a status nor the name
    of a member of [Object.prototype], and for nothing else. *)
Theorem getNextStatus_follows_ORDER_STATUSES s :
  (forall t, getNextStatus s = Some (Status t) <->
     exists i, i < 5 /\ ORDER_STATUSES !! i = Some s /\
               ORDER_STATUSES !! S i = Some t) /\
  (getNextStatus s = None <->
     s = "Completed" \/ s = "Cancelled" \/
     (~ (s ∈ ORDER_STATUSES) /\ inherited s = false)).
Proof.
  destruct (decide (s ∈ ORDER_STATUSES)) as [Hs|Hs].
  - apply known_status in Hs.
    assert (Hno : forall P, ~ (s ∈ ORDER_STATUSES) /\ P -> False).
    { intros P [Hn _]. apply Hn.
      destruct Hs as [->|[->|[->|[->|[->|[->| ->]]]]]]; unfold ORDER_STATUSES;
        repeat first [apply list_elem_of_here | apply list_elem_of_further]. }
    split.
    + intros t. split.
      * destruct Hs as [->|[->|[->|[->|[->|[->| ->]]]]]]; simpl;
          intros [= <-];
          first [exists 0; repeat split; lia | exists 1; repeat split; lia
                |exists 2; repeat split; lia | exists 3; repeat split; lia
                |exists 4; repeat split; lia].
      * intros (i & Hi & Hsi & Hti).
        do 5 (destruct i as [|i]; [simpl in Hsi, Hti; injection Hsi as <-;
                                   injection Hti as <-; reflexivity|]).
        lia.
    + destruct Hs as [->|[->|[->|[->|[->|[->| ->]]]]]]; simpl;
        (split; [try discriminate; auto|]);
        intros [H|[H|H]]; try discriminate H; try reflexivity;
        exfalso; exact (Hno _ H).
  - destruct (unknown_status s Hs) as (Hown & _).
    unfold getNextStatus. rewrite Hown. split.
    + intros t. split.
      * destruct (inherited s); discriminate.
      * intros (i & Hi & Hsi & _). exfalso. apply Hs.
        eapply list_elem_of_lookup_2. exact Hsi.
    + destruct (inherited s); split; try discriminate; auto.
      intros [->|[->|[_ H]]]; [| |discriminate H];
        exfalso; apply Hs; unfold ORDER_STATUSES;
        repeat first [apply list_elem_of_here | apply list_elem_of_further].
Qed.

Lemma actions_known s :
  s ∈ ORDER_STATUSES ->
  exists buttons, actions s = Ok buttons /\
    (buttons = [] <-> s = "Completed" \/ s = "Cancelled") /\
    (CancelOrder ∈ buttons <-> s = "Pending" \/ s = "Preparing") /\
    (forall a, a ∈ buttons ->
       exists t, newStatus a = Some t /\ t ∈ ORDER_STATUSES /\
                 progress s < progress t).
Proof.
  intros Hs%known_status.
  destruct Hs as [->|[->|[->|[->|[->|[->| ->]]]]]];
    (eexists; split; [reflexivity|]); (split; [|split]).
  all: try (split; [try discriminate; auto|];
            intros [H|H]; try discriminate H; reflexivity).
  all: try (split; [intros Ha|intros [H|H]; try discriminate H]; auto;
            repeat first [apply list_elem_of_here | apply list_elem_of_further];
            repeat (apply elem_of_cons in Ha as [Ha|Ha]; [discriminate Ha|]);
            inversion Ha).
  all: intros a Ha;
    repeat (apply elem_of_cons in Ha as [->|Ha]); try (inversion Ha; fail);
    eexists; (split; [reflexivity|]);
    (split; [unfold ORDER_STATUSES;
             repeat first [apply list_elem_of_here | apply list_elem_of_further]
            |unfold progress; simpl; lia]).
Qed.

(** X16. The buttons of an order card. For a status of [ORDER_STATUSES]
    the card renders: it has no button exactly when the order is
    [Completed] or [Cancelled]; it has the cancel button exactly when the
    order is [Pending] or [Preparing]; and every button asks for a status
    of [ORDER_STATUSES] that lies further along than the current one. For
    any other status the card has no button, unless the status names a
    member of [Object.prototype]. For [__proto__] that member is the
    prototype object, which React refuses as the child of the advance
    button: the render throws. For the other names it is a function: the
    advance button is shown, with no status after "Mark as", and passes
    that function, not a status. *)
Theorem actions_by_status s :
  (s ∈ ORDER_STATUSES ->
     exists buttons, actions s = Ok buttons /\
       (buttons = [] <-> s = "Completed" \/ s = "Cancelled") /\
       (CancelOrder ∈ buttons <-> s = "Pending" \/ s = "Preparing") /\
       (forall a, a ∈ buttons ->
          exists t, newStatus a = Some t /\ t ∈ ORDER_STATUSES /\
                    progress s < progress t)) /\
  (~ (s ∈ ORDER_STATUSES) ->
     actions s =
       if inherited s then
         if String.eqb s "__proto__" then Raised InvalidChild
         else Ok [MarkAs (PrototypeMember s)]
       else Ok []) /\
  actions "__proto__" = Raised InvalidChild /\
  actions "constructor" = Ok [MarkAs (PrototypeMember "constructor")] /\
  newStatus (MarkAs (PrototypeMember "constructor")) = None.
Proof.
  split; [apply actions_known|]. split; [|repeat split].
  intros Hs. destruct (unknown_status s Hs) as (Hown & H1 & H2 & H3 & H4).
  unfold actions, getNextStatus. rewrite Hown, H1, H2, H3, H4.
  cbn [negb andb orb]. destruct (inherited s); [|reflexivity].
  unfold advance_button, is_function.
  destruct (String.eqb s "__proto__"); reflexivity.
Qed.

Section Queue.
Context {num : Type} `{JSNumber num} `{ToFixed num}.
Implicit Types (orders : list (queue_order (num:=num))) (s : queue_state (num:=num)).
Implicit Types (o : queue_order (num:=num)) (f : string).

Lemma filteredOrders_status f orders :
  f <> "all" ->
  filteredOrders f orders = filter (fun o => or_status (qo_order o) = f) orders.
Proof.
  intros Hf. unfold filteredOrders. apply list_filter_iff. intros o.
  split; [intros [?|?]; [contradiction|assumption]|auto].
Qed.

Lemma concat_singleton {A} (x : A) (k0 : string) (D : list string) :
  NoDup D -> k0 ∈ D ->
  concat (map (fun k => if decide (k0 = k) then [x] else []) D) = [x].
Proof.
  induction 1 as [|k D Hk Hnd IH]; intros Hin; [inversion Hin|].
  simpl. destruct (decide (k0 = k)) as [->|Hne].
  - simpl. f_equal. apply concat_map_nil. intros k' Hk'.
    rewrite decide_False; [reflexivity|]. intros ->. contradiction.
  - apply elem_of_cons in Hin as [->|Hin]; [congruence|]. simpl. auto.
Qed.

Lemma filter_by_key_partition orders (D : list string) :
  NoDup D ->
  (forall o, o ∈ orders -> or_status (qo_order o) ∈ D) ->
  concat (map (fun k => filter (fun o => or_status (qo_order o) = k) orders) D)
  ≡ₚ orders.
Proof.
  intros Hnd. induction orders as [|x orders IH]; intros Hcover.
  - simpl. rewrite concat_map_nil; reflexivity.
  - transitivity
      (concat (map (fun k => (if decide (or_status (qo_order x) = k)
                              then [x] else []) ++
                             filter (fun o => or_status (qo_order o) = k) orders) D)).
    { replace (map (fun k => filter (fun o => or_status (qo_order o) = k)
                               (x :: orders)) D)
        with (map (fun k => (if decide (or_status (qo_order x) = k)
                             then [x] else []) ++
                            filter (fun o => or_status (qo_order o) = k) orders) D);
        [reflexivity|].
      apply map_ext. intros k. rewrite filter_cons.
      destruct (decide (or_status (qo_order x) = k)); reflexivity. }
    rewrite concat_map_app, IH.
    + rewrite (concat_singleton x (or_status (qo_order x)) D Hnd);
        [reflexivity|].
      apply Hcover. apply list_elem_of_here.
    + intros o Ho. apply Hcover. apply elem_of_cons. right. exact Ho.
Qed.

(** X18. The status filter splits the queue. The filter [all] shows every
    order; any filter shows a sub-list of the orders, in their order; a
    filter other than [all] shows exactly the orders of that status; and
    when every order has a status of [ORDER_STATUSES], the lists shown
    under the seven statuses hold every order exactly once. *)
Theorem filteredOrders_partition orders :
  filteredOrders "all" orders = orders /\
  (forall f, sublist (filteredOrders f orders) orders) /\
  (forall f o, f <> "all" ->
     o ∈ filteredOrders f orders <-> o ∈ orders /\ or_status (qo_order o) = f) /\
  ((forall o, o ∈ orders -> or_status (qo_order o) ∈ ORDER_STATUSES) ->
   concat (map (fun f => filteredOrders f orders) ORDER_STATUSES) ≡ₚ orders).
Proof.
  split; [|split; [|split]].
  - unfold filteredOrders. induction orders as [|o orders IH]; [reflexivity|].
    rewrite filter_cons, decide_True by auto. rewrite IH. reflexivity.
  - intros f. apply sublist_filter.
  - intros f o Hf. rewrite (filteredOrders_status f orders Hf).
    rewrite list_elem_of_filter. tauto.
  - intros Hknown.
    replace (map (fun f => filteredOrders f orders) ORDER_STATUSES)
      with (map (fun k => filter (fun o => or_status (qo_order o) = k) orders)
              ORDER_STATUSES).
    + apply filter_by_key_partition; [|exact Hknown].
      unfold ORDER_STATUSES. apply NoDup_ListNoDup.
      repeat (constructor; [intros Hin; simpl in Hin; intuition discriminate|]).
      constructor.
    + apply map_ext_in. intros f Hf. symmetry. apply filteredOrders_status.
      intros ->. apply list_elem_of_In in Hf.
      repeat (apply elem_of_cons in Hf as [Hf|Hf]; [discriminate Hf|]).
      inversion Hf.
Qed.

(** X19. An order that has been advanced leaves the view of its former
    status. After an update of the order [orderId] that the store
    acknowledged, whatever the list on display was meanwhile: an order of
    that id is shown under a filter only if the filter is [all] or the new
    status, and it is shown there with the new status; every order of that
    id in the list that the handler captured is shown so; which of the
    other orders a filter shows, and how many orders there are, is as in
    the captured list, hence unchanged when the list on display is still
    the captured one. *)
Theorem advanced_order_leaves_its_filter captured orderId newStatus f s :
  let s' := fst (updateOrderStatus captured orderId newStatus (Ok tt) s) in
  (forall o, o ∈ filteredOrders f (orders s') ->
     or_id (qo_order o) = orderId ->
     or_status (qo_order o) = newStatus /\ (f = "all" \/ f = newStatus)) /\
  (forall o, o ∈ captured -> or_id (qo_order o) = orderId ->
     f = "all" \/ f = newStatus ->
     with_status newStatus o ∈ filteredOrders f (orders s')) /\
  (forall o, or_id (qo_order o) <> orderId ->
     o ∈ filteredOrders f (orders s') <-> o ∈ filteredOrders f captured) /\
  length (orders s') = length captured /\
  (captured = orders s ->
     (forall o, or_id (qo_order o) <> orderId ->
        o ∈ filteredOrders f (orders s') <-> o ∈ filteredOrders f (orders s)) /\
     length (orders s') = length (orders s)).
Proof.
  cbv zeta. simpl.
  assert (Hin : forall o, o ∈ marked orderId newStatus captured <->
            exists o0, o0 ∈ captured /\
              o = if decide (or_id (qo_order o0) = orderId)
                  then with_status newStatus o0 else o0).
  { intros o. unfold marked. rewrite list_elem_of_fmap.
    split; intros (o0 & ? & ?); eauto. }
  assert (Hother : forall o, or_id (qo_order o) <> orderId ->
            o ∈ filteredOrders f (marked orderId newStatus captured) <->
            o ∈ filteredOrders f captured).
  { unfold filteredOrders. intros o Hne.
    rewrite !list_elem_of_filter, Hin. split.
    + intros [Hf (o0 & Ho0 & ->)]. split; [exact Hf|].
      destruct (decide (or_id (qo_order o0) = orderId)) as [Heq|Hne0];
        [|exact Ho0].
      simpl in Hne. contradiction.
    + intros [Hf Ho]. split; [exact Hf|]. exists o. split; [exact Ho|].
      rewrite decide_False by exact Hne. reflexivity. }
  assert (Hlen : length (marked orderId newStatus captured) = length captured)
    by (unfold marked; apply length_map).
  split; [|split; [|split; [exact Hother|split; [exact Hlen|]]]].
  - unfold filteredOrders.
    intros o [Hf (o0 & Ho0 & ->)%Hin]%list_elem_of_filter Hid.
    destruct (decide (or_id (qo_order o0) = orderId)) as [Heq|Hne].
    + simpl in *. split; [reflexivity|]. destruct Hf; auto.
    + contradiction.
  - unfold filteredOrders. intros o Ho Hid Hf. apply list_elem_of_filter. split.
    + simpl. destruct Hf; auto.
    + apply Hin. exists o. split; [exact Ho|].
      rewrite decide_True by exact Hid. reflexivity.
  - intros <-. split; [exact Hother|exact Hlen].
Qed.

Lemma filter_marked_same a t orders :
  filter (fun o => or_id (qo_order o) = a) (marked a t orders) =
  map (with_status t) (filter (fun o => or_id (qo_order o) = a) orders).
Proof.
  unfold marked. induction orders as [|o orders IH]; [reflexivity|].
  simpl. rewrite !filter_cons.
  destruct (decide (or_id (qo_order o) = a)) as [Heq|Hne].
  - rewrite decide_True by exact Heq. simpl. rewrite IH. reflexivity.
  - rewrite decide_False by exact Hne. exact IH.
Qed.

Lemma filter_marked_other a b t orders :
  a <> b ->
  filter (fun o => or_id (qo_order o) = a) (marked b t orders) =
  filter (fun o => or_id (qo_order o) = a) orders.
Proof.
  intros Hab. unfold marked. induction orders as [|o orders IH]; [reflexivity|].
  simpl. rewrite !filter_cons.
  destruct (decide (or_id (qo_order o) = b)) as [Heq|Hne].
  - rewrite decide_False by (simpl; congruence).
    rewrite decide_False by congruence. exact IH.
  - destruct (decide (or_id (qo_order o) = a)); rewrite IH; reflexivity.
Qed.

(** X20. Two updates started from the same render: the second answer
    undoes the first in the list. [updateOrderStatus] maps over the list of
    the render that created it, so when the buttons of two different orders
    are clicked before the first answer arrives, both writes are issued,
    the first answer shows the first order with its new status, and the
    second answer puts back the list of that render changed for the second
    order only: the first order shows its former status again. When the
    second click comes after the first answer has been rendered, both
    orders show their new status. *)
Theorem second_answer_overwrites_first a b ta tb s :
  a <> b ->
  let of_order id l := filter (fun o => or_id (qo_order o) = id) l in
  let first := updateOrderStatus (orders s) a ta (Ok tt) s in
  let second := updateOrderStatus (orders s) b tb (Ok tt) (fst first) in
  let in_turn :=
    updateOrderStatus (orders (fst first)) b tb (Ok tt) (fst first) in
  snd first ++ snd second =
    [Request (UpdateOrderStatus a ta); Request (UpdateOrderStatus b tb)] /\
  of_order a (orders (fst first)) = map (with_status ta) (of_order a (orders s)) /\
  orders (fst second) = marked b tb (orders s) /\
  of_order a (orders (fst second)) = of_order a (orders s) /\
  of_order b (orders (fst second)) = map (with_status tb) (of_order b (orders s)) /\
  of_order a (orders (fst in_turn)) = map (with_status ta) (of_order a (orders s)) /\
  of_order b (orders (fst in_turn)) = map (with_status tb) (of_order b (orders s)).
Proof.
  intros Hab. cbv zeta. simpl.
  split; [reflexivity|]. split; [apply filter_marked_same|].
  split; [reflexivity|]. split; [apply filter_marked_other; exact Hab|].
  split; [apply filter_marked_same|]. split.
  - rewrite (filter_marked_other a b) by exact Hab. apply filter_marked_same.
  - rewrite filter_marked_same.
    rewrite (filter_marked_other b a) by congruence. reflexivity.
Qed.

Lemma order_ids_marked a t orders : order_ids (marked a t orders) = order_ids orders.
Proof.
  unfold order_ids, marked. rewrite map_map. apply map_ext. intros o.
  destruct (decide (or_id (qo_order o) = a)); reflexivity.
Qed.

Lemma order_ids_lookup orders n o :
  orders !! n = Some o -> order_ids orders !! n = Some (or_id (qo_order o)).
Proof. intros Hn. unfold order_ids. rewrite list_lookup_fmap, Hn. reflexivity. Qed.

(** What one click changes: the order clicked on moves strictly forward
    when the store acknowledges the write, and nothing else changes. *)
Lemma press_step s p s1 :
  NoDup (order_ids (orders s)) -> statuses_known (orders s) ->
  press s p s1 ->
  order_ids (orders s1) = order_ids (orders s) /\
  statuses_known (orders s1) /\
  forall n o, orders s !! n = Some o ->
    exists o1, orders s1 !! n = Some o1 /\
      if decide (p = (or_id (qo_order o), true))
      then progress (or_status (qo_order o)) < progress (or_status (qo_order o1))
      else o1 = o.
Proof.
  intros Hnd Hknown Hp.
  destruct Hp as [s n0 o0 buttons a t write_answer _ Hn0 Hb Ha Ht].
  destruct write_answer as [[]|e]; simpl.
  2: { split; [reflexivity|]. split; [exact Hknown|].
       intros n o Hn. exists o. split; [exact Hn|].
       rewrite decide_False by (intros [= _]). reflexivity. }
  assert (Hs0 : or_status (qo_order o0) ∈ ORDER_STATUSES).
  { unfold statuses_known in Hknown. rewrite Forall_forall in Hknown.
    apply Hknown. eapply list_elem_of_lookup_2. exact Hn0. }
  destruct (actions_known _ Hs0) as (buttons' & Hb' & _ & _ & Hfwd).
  assert (buttons' = buttons) by congruence. subst buttons'.
  destruct (Hfwd a Ha) as (t' & Ht' & Htknown & Hlt).
  assert (t' = t) by congruence. subst t'.
  split; [apply order_ids_marked|]. split.
  { unfold statuses_known, marked. apply Forall_fmap.
    eapply Forall_impl; [exact Hknown|]. intros o Ho. simpl.
    destruct (decide (or_id (qo_order o) = or_id (qo_order o0)));
      [exact Htknown|exact Ho]. }
  intros n o Hn. unfold marked. rewrite list_lookup_fmap, Hn. simpl.
  eexists. split; [reflexivity|].
  destruct (decide (or_id (qo_order o) = or_id (qo_order o0))) as [Heq|Hne].
  - rewrite decide_True by (rewrite Heq; reflexivity).
    assert (n = n0).
    { eapply NoDup_lookup; [exact Hnd| |].
      - apply order_ids_lookup. exact Hn.
      - rewrite Heq. apply order_ids_lookup. exact Hn0. }
    subst n0. assert (o0 = o) by congruence. subst o0. exact Hlt.
  - rewrite decide_False by congruence. reflexivity.
Qed.

Lemma press_at s n o buttons a t write_answer orderId ack s1 :
  loading s = false -> orders s !! n = Some o ->
  actions (or_status (qo_order o)) = Ok buttons -> a ∈ buttons ->
  newStatus a = Some t ->
  orderId = or_id (qo_order o) -> ack = acknowledged write_answer ->
  s1 = fst (updateOrderStatus (orders s) orderId t write_answer s) ->
  press s (orderId, ack) s1.
Proof. intros Hl Hn Hb Ha Ht -> -> ->. econstructor; eassumption. Qed.

Lemma progress_le_5 status : progress status <= 5.
Proof. unfold progress. repeat case_match; lia. Qed.

(** X17. The status of an order only moves forward, click after click.
    Take a queue in which every id occurs once and every status is one of
    [ORDER_STATUSES], and any sequence of clicks on the buttons of its
    cards, each answered and rendered before the next, the store refusing
    or acknowledging each write as it likes. Then the queue keeps its
    orders and every status stays in [ORDER_STATUSES]; an order has moved
    forward by at least as many steps as it received acknowledged clicks,
    so that no order moves backwards and none receives more than five
    acknowledged clicks; an order that received none is unchanged, however
    many of its clicks were refused. *)
Theorem status_only_moves_forward s log s' :
  NoDup (order_ids (orders s)) -> statuses_known (orders s) ->
  session s log s' ->
  order_ids (orders s') = order_ids (orders s) /\
  statuses_known (orders s') /\
  forall n o, orders s !! n = Some o ->
    exists o', orders s' !! n = Some o' /\
      length (acknowledged_on (or_id (qo_order o)) log) +
        progress (or_status (qo_order o))
        <= progress (or_status (qo_order o')) /\
      length (acknowledged_on (or_id (qo_order o)) log) <= 5 /\
      (acknowledged_on (or_id (qo_order o)) log = [] -> o' = o).
Proof.
  intros Hnd Hknown Hrun.
  induction Hrun as [s|s p s1 log s2 Hp Hrun IH].
  - split; [reflexivity|]. split; [exact Hknown|].
    intros n o Hn. exists o. split; [exact Hn|]. simpl.
    split; [lia|]. split; [lia|reflexivity].
  - destruct (press_step s p s1 Hnd Hknown Hp) as (Hids & Hknown1 & Hstep).
    destruct IH as (Hids2 & Hknown2 & Hrest);
      [rewrite Hids; exact Hnd|exact Hknown1|].
    split; [congruence|]. split; [exact Hknown2|].
    intros n o Hn. destruct (Hstep n o Hn) as (o1 & Hn1 & Ho1).
    destruct (Hrest n o1 Hn1) as (o' & Hn' & Hcount & _ & Hsame).
    assert (Hid : or_id (qo_order o1) = or_id (qo_order o)).
    { apply order_ids_lookup in Hn, Hn1. rewrite Hids in Hn1. congruence. }
    rewrite Hid in Hcount, Hsame.
    exists o'. split; [exact Hn'|].
    pose proof (progress_le_5 (or_status (qo_order o'))) as Hmax.
    unfold acknowledged_on in *. rewrite filter_cons.
    destruct (decide (p = (or_id (qo_order o), true))) as [Hyes|Hno].
    + simpl. split; [lia|]. split; [lia|discriminate].
    + subst o1. split; [exact Hcount|]. split; [lia|exact Hsame].
Qed.

End Queue.

(** *** The properties on the sample queue *)

Section OnSamples.
Import Samples.

(** On the sample queue: [o-2] is advanced and the store acknowledges; the
    cancellation of [o-1] is refused, then acknowledged. *)
Lemma status_only_moves_forward_witness :
  exists s',
    session sample_queue [("o-2", true); ("o-1", false); ("o-1", true)] s' /\
    map (fun o => (or_id (qo_order o), or_status (qo_order o))) (orders s')
      = [("o-2", "Driver Assigned"); ("o-1", "Cancelled")] /\
    order_ids (orders s') = order_ids (orders sample_queue) /\
    statuses_known (orders s').
Proof.
  set (s1 := fst (updateOrderStatus (orders sample_queue) "o-2"
                    "Driver Assigned" (Ok tt) sample_queue)).
  set (s2 := fst (updateOrderStatus (orders s1) "o-1" "Cancelled"
                    (Raised transient) s1)).
  set (s3 := fst (updateOrderStatus (orders s2) "o-1" "Cancelled"
                    (Ok tt) s2)).
  assert (Hrun : session sample_queue
                   [("o-2", true); ("o-1", false); ("o-1", true)] s3).
  { eapply session_cons.
    { eapply (press_at sample_queue 0 _ _ (MarkAs (Status "Driver Assigned"))
                "Driver Assigned" (Ok tt));
        [reflexivity|reflexivity|reflexivity|apply list_elem_of_here
        |reflexivity|reflexivity|reflexivity|reflexivity]. }
    eapply session_cons.
    { eapply (press_at s1 1 _ _ CancelOrder "Cancelled" (Raised transient));
        [reflexivity|reflexivity|reflexivity
        |apply list_elem_of_further, list_elem_of_here
        |reflexivity|reflexivity|reflexivity|reflexivity]. }
    eapply session_cons.
    { eapply (press_at s2 1 _ _ CancelOrder "Cancelled" (Ok tt));
        [reflexivity|reflexivity|reflexivity
        |apply list_elem_of_further, list_elem_of_here
        |reflexivity|reflexivity|reflexivity|reflexivity]. }
    apply session_nil. }
  exists s3. split; [exact Hrun|]. split; [reflexivity|].
  assert (Hnd : NoDup (order_ids (orders sample_queue))).
  { apply NoDup_ListNoDup.
    repeat (constructor; [intros Hin; simpl in Hin; intuition discriminate|]).
    constructor. }
  assert (Hknown : statuses_known (orders sample_queue)).
  { repeat constructor; unfold ORDER_STATUSES; simpl;
      repeat first [apply list_elem_of_here | apply list_elem_of_further]. }
  destruct (status_only_moves_forward sample_queue _ s3 Hnd Hknown Hrun)
    as (Hids & Hknown' & _).
  split; [exact Hids|exact Hknown'].
Defined.

(** Orders [o-2] and [o-1] of the sample queue, advanced and cancelled from
    the same render: [o-2] still shows [Preparing]. *)
Lemma second_answer_overwrites_first_witness :
  let first :=
    updateOrderStatus (orders sample_queue) "o-2" "Driver Assigned" (Ok tt)
      sample_queue in
  let second :=
    updateOrderStatus (orders sample_queue) "o-1" "Cancelled" (Ok tt)
      (fst first) in
  map (fun o => (or_id (qo_order o), or_status (qo_order o)))
    (orders sample_queue) = [("o-2", "Preparing"); ("o-1", "Pending")] /\
  map (fun o => (or_id (qo_order o), or_status (qo_order o)))
    (orders (fst first)) = [("o-2", "Driver Assigned"); ("o-1", "Pending")] /\
  orders (fst second) = marked "o-1" "Cancelled" (orders sample_queue) /\
  map (fun o => (or_id (qo_order o), or_status (qo_order o)))
    (orders (fst second)) = [("o-2", "Preparing"); ("o-1", "Cancelled")].
Proof.
  cbv zeta. split; [reflexivity|]. split; [reflexivity|].
  destruct (second_answer_overwrites_first "o-2" "o-1" "Driver Assigned"
              "Cancelled" sample_queue) as (_ & _ & Hsecond & _).
  { discriminate. }
  split; [exact Hsecond|reflexivity].
Defined.

End OnSamples.

End WorkflowFacts.

(** ** Sign-in and the failures of registration *)

Module SignInFacts.
Import JsString Store Handler Registration SignIn RegistrationFacts.

Lemma insert_restaurant_shape w row (s : auth_page) :
  let out := insert_restaurant w row 3 1 s in
  fst (fst out) = s /\
  filter is_success (snd (fst out)) = [] /\
  filter is_owner_insert (snd (fst out)) = [] /\
  length (filter is_restaurant_insert (snd (fst out))) <= 3.
Proof.
  unfold insert_restaurant, Handler.bind, emit, throw, ret.
  destruct (restaurant_insert_answer w 1);
    [destruct (restaurant_insert_answer w 2);
     [destruct (restaurant_insert_answer w 3)|]|].
  all: simpl; repeat split; lia.
Qed.

Local Ltac no_success :=
  repeat split; try (simpl; lia); try discriminate; try congruence;
  try (let Hs := fresh in intros Hs; exfalso; apply Hs; reflexivity);
  try (exfalso; match goal with Hs : _ <> [] |- _ => apply Hs; reflexivity end).

Local Ltac count :=
  repeat first [rewrite filter_cons_False by (simpl; tauto)
               |rewrite filter_cons_True by (simpl; tauto)];
  rewrite ?filter_app;
  repeat match goal with H : filter _ _ = [] |- _ => rewrite H end;
  rewrite ?length_app; simpl; lia.

Local Ltac absurd_success :=
  match goal with
  | Hs : filter _ _ <> [] |- _ =>
      exfalso; apply Hs;
      repeat first [rewrite filter_cons_False by (simpl; tauto)
                   |rewrite filter_cons_True by (simpl; tauto)];
      rewrite ?filter_app;
      repeat match goal with H : filter _ _ = [] |- _ => rewrite H end;
      reflexivity
  end.

Lemma bind_run {S A B} (m : handler S A) (k : A -> handler S B) s :
  Handler.bind m k s =
  match m s with
  | (s1, t1, Ok a) =>
      match k a s1 with
      | (s2, t2, r) => (s2, t1 ++ t2, r)
      end
  | (s1, t1, Raised e) => (s1, t1, Raised e)
  end.
Proof. reflexivity. Qed.

Lemma authenticate_shape w p (s : auth_page) :
  let out := authenticate w p s in
  let events := snd (fst out) in
  typed (fst (fst out)) = typed s /\
  error (fst (fst out)) = error s /\ loading (fst (fst out)) = loading s /\
  length (filter is_success events) <= 1 /\
  length (filter is_owner_insert events) <= 1 /\
  length (filter is_restaurant_insert events) <= 3 /\
  events <> [] /\
  (filter is_success events <> [] ->
     snd out = Ok tt /\ exists u before, events = before ++ [OnSuccess u]).
Proof.
  destruct (isLogin p) eqn:Hl.
  - unfold authenticate. rewrite Hl. unfold Handler.bind, emit, throw.
    destruct (signIn_answer w) as [data|e]; simpl; [|solve [no_success]].
    repeat split; try lia; try discriminate.
    exists (ad_user data),
      [Request (SignInWithPassword (email p) (password p)); Sleep 500].
    reflexivity.
  - destruct (signUp_answer w) as [[[u|] [tok|]]|e] eqn:Hs.
    2-5: solve [unfold authenticate; rewrite Hl, Hs;
         unfold Handler.bind, emit, throw, set, ret; simpl; no_success].
    destruct (owner_insert_answer w) as [e|] eqn:Ho.
    1: solve [unfold authenticate; rewrite Hl, Hs, Ho;
       unfold Handler.bind, emit, throw, set, ret; simpl; no_success].
    pose proof (insert_restaurant_shape w (restaurant_of_form p u) s) as Hins.
    remember (authenticate w p s) as out eqn:E.
    rewrite (authenticate_signed_up w p u tok Hl Hs Ho) in E.
    rewrite bind_run in E. unfold emit at 1 in E. cbv beta iota in E.
    rewrite bind_run in E. unfold emit at 1 in E. cbv beta iota in E.
    rewrite bind_run in E.
    destruct (insert_restaurant w (restaurant_of_form p u) 3 1 s)
      as [[s1 ev1] r1].
    cbn [fst snd] in Hins. destruct Hins as (-> & Hsucc & Hown & Hrest).
    destruct r1 as [[]|msg].
    + rewrite bind_run in E. unfold emit at 1 in E. cbv beta iota in E.
      rewrite bind_run in E. unfold emit at 1 in E. cbv beta iota in E.
      destruct (verify_answer w) as [[[rid name]|]|ev];
        unfold Handler.bind, emit, throw, set in E; cbn [fst snd app] in E;
        subst out; cbn [fst snd];
        rewrite ?filter_app, ?Hsucc, ?Hown, ?length_app.
      * simpl. repeat split; try lia; try discriminate; try count.
        eexists (Some u), (_ :: _ :: ev1 ++ [_; _; _]).
        simpl. rewrite <- !app_assoc. reflexivity.
      * simpl. solve [no_success; first [count|absurd_success]].
      * simpl. solve [no_success; first [count|absurd_success]].
    + cbn [fst snd app] in E. subst out. cbn [fst snd].
      rewrite ?filter_cons; simpl; rewrite ?Hsucc, ?Hown.
      solve [no_success].
Qed.

Lemma handleAuth_complete w p :
  incomplete p = false ->
  handleAuth w p =
  try_catch_finally (authenticate w (started p))
    (fun e_message =>
       Handler.bind (emit (ConsoleError "" e_message)) (fun _ =>
       set (setError (shown_error e_message))))
    (set (setLoading false)) (started p).
Proof.
  unfold incomplete. intros Hc.
  unfold handleAuth, Handler.bind, set. simpl.
  destruct (blank (email p) || blank (password p))%bool; [discriminate|].
  simpl in Hc. rewrite Hc.
  match goal with
  | |- context [try_catch_finally ?b ?h ?f ?s] =>
      set (X := try_catch_finally b h f s)
  end.
  match goal with |- ?lhs = _ => change (lhs = X) end.
  destruct X as [[s t] r]. reflexivity.
Qed.

Lemma handleAuth_incomplete w p :
  incomplete p = true ->
  snd (fst (handleAuth w p)) = [] /\ snd (handleAuth w p) = Ok tt /\
  typed (fst (fst (handleAuth w p))) = typed p /\
  loading (fst (fst (handleAuth w p))) = false /\
  successMessage (fst (fst (handleAuth w p))) = None /\
  error (fst (fst (handleAuth w p))) <> "".
Proof.
  unfold incomplete. intros Hc.
  unfold handleAuth, Handler.bind, set. simpl.
  destruct (blank (email p) || blank (password p))%bool.
  - simpl. repeat split. discriminate.
  - simpl in Hc. rewrite Hc. simpl. repeat split. discriminate.
Qed.

Lemma try_catch_finally_run w p :
  let body := authenticate w (started p) (started p) in
  incomplete p = false ->
  handleAuth w p =
  match snd body with
  | Ok _ => (setLoading false (fst (fst body)), snd (fst body) ++ [], Ok tt)
  | Raised e_message =>
      (setLoading false (setError (shown_error e_message) (fst (fst body))),
       snd (fst body) ++ [ConsoleError "" e_message], Ok tt)
  end.
Proof.
  intros body Hc. rewrite (handleAuth_complete w p Hc).
  unfold try_catch_finally. fold body.
  destruct body as [[s1 t1] [[]|e]]; reflexivity.
Qed.

(** X21. [handleAuth] always comes to an end on the page. Whatever the
    services answer, the handler throws nothing, ends with [loading] false
    and leaves what the user typed and the mode of the page as they were.
    It issues no call at all exactly when the form is incomplete (email or
    password missing, or a required field of the registration), and the
    page then shows an error. It reports success at most once, as its very
    last step and with no error shown, inserts the owner at most once and
    the restaurant at most three times. *)
Theorem handleAuth_settles w p :
  let out := handleAuth w p in
  let page := fst (fst out) in
  let events := snd (fst out) in
  snd out = Ok tt /\ loading page = false /\ typed page = typed p /\
  (events = [] <-> incomplete p = true) /\
  (incomplete p = true -> error page <> "" /\ successMessage page = None) /\
  length (filter is_success events) <= 1 /\
  length (filter is_owner_insert events) <= 1 /\
  length (filter is_restaurant_insert events) <= 3 /\
  (filter is_success events <> [] ->
     error page = "" /\ exists u before, events = before ++ [OnSuccess u]).
Proof.
  destruct (incomplete p) eqn:Hc.
  - destruct (handleAuth_incomplete w p Hc) as (Hev & Hout & Hty & Hload & Hmsg & Herr).
    cbv zeta. rewrite Hev. repeat split; auto; try (simpl; lia).
    all: exfalso; match goal with Hs : _ <> [] |- _ => apply Hs; reflexivity end.
  - cbv zeta. rewrite (try_catch_finally_run w p Hc).
    pose proof (authenticate_shape w (started p) (started p))
      as (Hty & Herr & Hload & Hsucc & Hown & Hrest & Hne & Hlast).
    destruct (authenticate w (started p) (started p)) as [[s1 t1] r1].
    cbn [fst snd] in *.
    destruct r1 as [[]|msg]; cbn [fst snd].
    + rewrite app_nil_r. repeat split; auto; try discriminate.
      match goal with Hs : filter _ _ <> [] |- _ =>
        destruct (Hlast Hs) as (_ & u & before & ->) end. eauto.
    + rewrite !filter_app, !length_app. simpl.
      repeat split; auto; try discriminate; try lia.
      * intros Habs. apply app_eq_nil in Habs as [_ Habs]. discriminate.
      * exfalso.
        match goal with Hs : _ <> [] |- _ =>
          rewrite app_nil_r in Hs; destruct (Hlast Hs) as (Habs & _) end.
        discriminate.
      * exfalso.
        match goal with Hs : _ <> [] |- _ =>
          rewrite app_nil_r in Hs; destruct (Hlast Hs) as (Habs & _) end.
        discriminate.
Qed.

(** X22. Signing in touches no table. In login mode, with email and
    password given, the handler calls the auth service and nothing else, no
    read of and no write to a table: an accepted sign-in is handed to
    [onSuccess] after half a second, with the user the service returned; a
    refused one shows the message of the error (the stock message when
    that is empty) and reports nothing. *)
Theorem sign_in_touches_no_table w p :
  isLogin p = true -> incomplete p = false ->
  let page := fst (fst (handleAuth w p)) in
  let events := snd (fst (handleAuth w p)) in
  let sign_in := Request (SignInWithPassword (email p) (password p)) in
  filter is_table_call events = [] /\ filter is_write events = [] /\
  (forall data, signIn_answer w = Ok data ->
     events = [sign_in; Sleep 500; OnSuccess (ad_user data)] /\
     error page = "" /\ successMessage page = None) /\
  (forall e, signIn_answer w = Raised e ->
     events = [sign_in; ConsoleError "" (message e)] /\
     error page = shown_error (message e) /\ error page <> "" /\
     successMessage page = None).
Proof.
  intros Hl Hc. cbv zeta. rewrite (try_catch_finally_run w p Hc).
  unfold authenticate. change (isLogin (started p)) with (isLogin p).
  rewrite Hl. unfold Handler.bind, emit, throw.
  destruct (signIn_answer w) as [data|e]; simpl.
  - split; [reflexivity|]. split; [reflexivity|]. split.
    + intros d [= <-]. repeat split.
    + intros e [=].
  - split; [reflexivity|]. split; [reflexivity|]. split.
    + intros d [=].
    + intros e' [= <-]. repeat split.
      unfold shown_error, blank. destruct (message e); discriminate.
Qed.

(** X23. Registration stops at its first failure and undoes nothing. A
    refused sign-up is followed by no other call. When the sign-up has
    opened a session and the insert into [owners] fails, the error is shown
    with its prefix and no insert into [restaurants] is attempted; the call
    that created the account is the only one before it, and none follows.
    A sign-up answered with a session but no user is followed by no call
    and shows neither an error nor a notice. *)
Theorem registration_stops_at_first_failure w p :
  registration_form p ->
  let page := fst (fst (handleAuth w p)) in
  let events := snd (fst (handleAuth w p)) in
  let sign_up := Request (SignUp (email p) (password p) "restaurant_owner") in
  (forall e, signUp_answer w = Raised e ->
     events = [sign_up; ConsoleError "" (message e)] /\
     error page = shown_error (message e) /\
     successMessage page = None) /\
  (forall u token e,
     signUp_answer w = Ok {| ad_user := Some u; ad_session := Some token |} ->
     owner_insert_answer w = Some e ->
     events = [sign_up;
               Request (InsertOwner u (ownerName p) (or_null (phoneNumber p)));
               ConsoleError "" ("Failed to create owner profile: " +:+ message e)] /\
     error page = "Failed to create owner profile: " +:+ message e /\
     successMessage page = None) /\
  (forall token,
     signUp_answer w = Ok {| ad_user := None; ad_session := Some token |} ->
     events = [sign_up] /\ error page = "" /\ successMessage page = None).
Proof.
  intros Hform. assert (Hc : incomplete p = false).
  { destruct Hform as (Hl & He & Hp & Ho & Hr & Hb & Hcat).
    unfold incomplete. rewrite Hl, He, Hp, Ho, Hr, Hb, Hcat. reflexivity. }
  cbv zeta. rewrite (try_catch_finally_run w p Hc).
  unfold authenticate. change (isLogin (started p)) with (isLogin p).
  rewrite (proj1 Hform).
  split; [|split].
  - intros e ->. unfold Handler.bind, emit, throw. simpl. auto.
  - intros u token e -> Ho. unfold Handler.bind at 1 2. unfold emit at 1 2.
    rewrite Ho. unfold throw. simpl. repeat split.
  - intros token ->. unfold Handler.bind, emit, ret. simpl. auto.
Qed.

(** *** The properties on the sample forms *)

Section OnSamples.
Import Samples.

Lemma sign_in_touches_no_table_witness :
  snd (fst (handleAuth owner_refused login_form)) =
    [Request (SignInWithPassword "owner@business.com" "secret-1");
     ConsoleError "" "Invalid login credentials"] /\
  error (fst (fst (handleAuth owner_refused login_form)))
    = "Invalid login credentials".
Proof.
  destruct (sign_in_touches_no_table owner_refused login_form eq_refl eq_refl)
    as (_ & _ & _ & Hrefused).
  destruct (Hrefused _ eq_refl) as (Hev & Herr & _).
  split; [exact Hev|exact Herr].
Defined.

Lemma registration_stops_at_first_failure_witness :
  registration_form tibanga_form /\
  filter is_restaurant_insert (snd (fst (handleAuth owner_refused tibanga_form)))
    = [] /\
  error (fst (fst (handleAuth owner_refused tibanga_form))) =
    "Failed to create owner profile: new row violates row-level security policy".
Proof.
  split; [exact tibanga_form_ok|].
  destruct (registration_stops_at_first_failure owner_refused tibanga_form
              tibanga_form_ok) as (_ & Howner & _).
  destruct (Howner "u-owner" "token" _ eq_refl eq_refl) as (Hev & Herr & _).
  split; [rewrite Hev; reflexivity|exact Herr].
Defined.

End OnSamples.

End SignInFacts.

(** ** The profile sidebar *)

Module ProfileFacts.
Import JsString Store Provisioning Dashboard Profile.

Lemma or_null_or_empty v : Registration.or_null (or_empty v) = normal v.
Proof. destruct v as [[|c s]|]; reflexivity. Qed.

Section Facts.
Context {num : Type}.
Implicit Types (s : profile_state (num:=num)).

(** X24. The profile update is not one transaction. With the required
    fields given and a user signed in, the handler always ends with
    [isUpdatingProfile] false. When the write to [owners] is refused,
    nothing else is asked. When it is accepted and the write to
    [restaurants] is refused, both writes have been issued, the first one
    stands in the store, nothing is read back and the dashboard and the
    sidebar stay as they were. When both are accepted, owner and restaurant
    are read back and put in the state as answered, and the sidebar
    closes. *)
Theorem profile_update_is_not_atomic a ownerForm restaurantForm s id :
  filled ownerForm restaurantForm = true ->
  user (data (page s)) = Some id ->
  let out := handleProfileUpdate a ownerForm restaurantForm s in
  let update_owner :=
    Call (UpdateOwner id (of_contact_name ownerForm)
            (Registration.or_null (of_phone_number ownerForm))) in
  let update_restaurant :=
    Call (UpdateRestaurant id (restaurant_update_of restaurantForm)) in
  isUpdatingProfile (fst out) = false /\
  (forall e, owner_update_answer a = Some e ->
     snd out = update_owner :: profile_failed (message e) /\
     page (fst out) = page s /\ showProfileModal (fst out) = showProfileModal s) /\
  (forall e, owner_update_answer a = None ->
     restaurant_update_answer a = Some e ->
     snd out = update_owner :: update_restaurant :: profile_failed (message e) /\
     filter is_profile_write (snd out) = [update_owner; update_restaurant] /\
     page (fst out) = page s /\ showProfileModal (fst out) = showProfileModal s) /\
  (owner_update_answer a = None -> restaurant_update_answer a = None ->
     snd out = [update_owner; update_restaurant; Call (RefetchOwner id);
                Call (RefetchRestaurant id);
                ProfileLog "Profile and Restaurant details updated successfully!"] /\
     owner (data (page (fst out))) = updatedOwner a /\
     myRestaurant (data (page (fst out))) = updatedRestaurant a /\
     showProfileModal (fst out) = false).
Proof.
  intros Hf Hu. cbv zeta. unfold handleProfileUpdate. rewrite Hf, Hu. simpl.
  destruct (owner_update_answer a) as [eo|];
    [|destruct (restaurant_update_answer a) as [er|]]; simpl.
  - split; [reflexivity|]. split; [intros e [= <-]; auto|].
    split; [intros e [=]|intros [=]].
  - split; [reflexivity|]. split; [intros e [=]|].
    split; [intros e _ [= <-]; auto|intros _ [=]].
  - split; [reflexivity|]. split; [intros e [=]|].
    split; [intros e _ [=]|intros _ _; auto].
Qed.

(** X25. A read-back without a row hides the restaurant. When both writes
    are accepted and the read-back of [restaurants] returns no data (its
    error is not looked at), [myRestaurant] becomes null: the success line
    is logged all the same, the dashboard leaves the main screen for the
    "no restaurant linked" screen (the loading screen while [loading] is
    true), and the data effect reads nothing more. *)
Theorem lost_refetch_hides_the_restaurant a ownerForm restaurantForm s id :
  filled ownerForm restaurantForm = true ->
  user (data (page s)) = Some id ->
  authReady (page s) = true -> restaurantLoaded (data (page s)) = true ->
  owner_update_answer a = None -> restaurant_update_answer a = None ->
  updatedRestaurant a = None ->
  let out := handleProfileUpdate a ownerForm restaurantForm s in
  render (page (fst out)) =
    (if loading (data (page s)) then LoadingScreen else NoRestaurantLinked) /\
  filter is_profile_write (snd out) =
    [Call (UpdateOwner id (of_contact_name ownerForm)
             (Registration.or_null (of_phone_number ownerForm)));
     Call (UpdateRestaurant id (restaurant_update_of restaurantForm))] /\
  ProfileLog "Profile and Restaurant details updated successfully!" ∈ snd out /\
  forall answered, load answered (page (fst out)) = (page (fst out), []).
Proof.
  intros Hf Hu Hready Hl Ho Hr Hnone. cbv zeta.
  unfold handleProfileUpdate. rewrite Hf, Hu, Ho, Hr, Hnone. simpl.
  split; [|split; [reflexivity|split]].
  - unfold render. simpl. rewrite Hready, Hu, Hl.
    destruct (loading (data (page s))); reflexivity.
  - repeat first [apply list_elem_of_here | apply list_elem_of_further].
  - intros answered. unfold load. simpl.
    rewrite ProvisioningFacts.run_loaded by exact Hl.
    destruct s as [[ready d ords] modal upd]. reflexivity.
Qed.

(** X26. Saving the sidebar as it opened writes the rows back. The writes
    of an unedited save carry the name of the owner and the name,
    barangay, category and open flag of the restaurant as they are in the
    state, and the phone number, the street and the image address with the
    empty string turned into null. *)
Theorem unedited_save_normalises a owner restaurant s id :
  user (data (page s)) = Some id ->
  filled (initial_owner_form owner) (initial_restaurant_form restaurant) = true ->
  filter is_profile_write (snd (save_unedited a owner restaurant s)) =
    Call (UpdateOwner id (ow_contact_name owner) (normal (ow_phone_number owner)))
    :: match owner_update_answer a with
       | Some _ => []
       | None =>
           [Call (UpdateRestaurant id
                    {| ru_name := rs_name restaurant;
                       ru_address_street := normal (rs_address_street restaurant);
                       ru_address_barangay := rs_address_barangay restaurant;
                       ru_category_id := rs_category_id restaurant;
                       ru_image_url := normal (rs_image_url restaurant);
                       ru_is_open := rs_is_open restaurant |})]
       end.
Proof.
  intros Hu Hf. unfold save_unedited, handleProfileUpdate. rewrite Hf, Hu. simpl.
  unfold restaurant_update_of. simpl. rewrite !or_null_or_empty.
  destruct (owner_update_answer a) as [eo|];
    [|destruct (restaurant_update_answer a) as [er|]]; reflexivity.
Qed.

End Facts.

(** *** The properties on the sample owner *)

Section OnSamples.
Import Samples.

Lemma profile_update_is_not_atomic_witness :
  let out :=
    handleProfileUpdate restaurant_write_refused (initial_owner_form my_owner)
      (initial_restaurant_form my_restaurant) open_sidebar in
  length (filter is_profile_write (snd out)) = 2 /\
  page (fst out) = page open_sidebar /\ showProfileModal (fst out) = true.
Proof.
  destruct (profile_update_is_not_atomic restaurant_write_refused
              (initial_owner_form my_owner)
              (initial_restaurant_form my_restaurant) open_sidebar "u-owner"
              eq_refl eq_refl) as (_ & _ & Hrefused & _).
  destruct (Hrefused transient eq_refl eq_refl) as (_ & Hw & Hpage & Hmodal).
  cbv zeta. rewrite Hw. split; [reflexivity|]. split; [exact Hpage|exact Hmodal].
Defined.

Lemma lost_refetch_hides_the_restaurant_witness :
  render (page open_sidebar) = MainScreen (Some my_restaurant) /\
  render (page (fst (handleProfileUpdate restaurant_not_read_back
                       (initial_owner_form my_owner)
                       (initial_restaurant_form my_restaurant) open_sidebar)))
  = NoRestaurantLinked.
Proof.
  split; [reflexivity|].
  exact (proj1 (lost_refetch_hides_the_restaurant restaurant_not_read_back
                  (initial_owner_form my_owner)
                  (initial_restaurant_form my_restaurant) open_sidebar "u-owner"
                  eq_refl eq_refl eq_refl eq_refl eq_refl eq_refl eq_refl)).
Defined.

Lemma unedited_save_normalises_witness :
  filter is_profile_write
    (snd (save_unedited restaurant_not_read_back my_owner my_restaurant
            open_sidebar)) =
  [Call (UpdateOwner "u-owner" "Juan Dela Cruz" (Some "09171234567"));
   Call (UpdateRestaurant "u-owner"
           {| ru_name := "Restaurant A";
              ru_address_street := Some "Quezon Ave";
              ru_address_barangay := "Tibanga";
              ru_category_id := "7";
              ru_image_url := None;
              ru_is_open := true |})].
Proof.
  exact (unedited_save_normalises restaurant_not_read_back my_owner
           my_restaurant open_sidebar "u-owner" eq_refl eq_refl).
Defined.

End OnSamples.

End ProfileFacts.

(** ** The menu of the restaurant *)

Module MenuFacts.
Import JsString Store Menu.

Section Facts.
Context {num : Type} `{NumberText num}.
Implicit Types (m : menu (num:=num)) (p : product (num:=num)).

Lemma loadProducts_frame listed m :
  let out := loadProducts listed m in
  myRestaurant (fst out) = myRestaurant m /\
  showProductModal (fst out) = showProductModal m /\
  editingProduct (fst out) = editingProduct m /\
  productForm (fst out) = productForm m /\
  filter is_menu_write (snd out) = [] /\
  length (filter is_menu_read (snd out)) <= 1 /\
  (products (fst out) <> products m ->
     exists data, listed = Ok data /\ products (fst out) = default [] data).
Proof.
  unfold loadProducts. destruct (myRestaurant m) as [r|] eqn:Hr; simpl.
  - destruct listed as [data|e]; simpl; repeat split; auto; try lia;
      try congruence; eauto.
  - repeat split; auto; congruence.
Qed.

(** X27. What a submit of the product form does. It issues at most one
    write, and none exactly when a required field (name, price, stock) is
    empty or no restaurant is loaded. When the store refuses the write, the
    menu, the form, the product being edited and the open sidebar stay as
    they were and the products are not read again. When the write is
    accepted, the products are read once, the sidebar closes, the form is
    emptied and no product is being edited any more, also when that read
    fails, the list shown being then the former one. *)
Theorem product_submit_outcomes now saved listed m :
  let out := handleProductSubmit now saved listed m in
  length (filter is_menu_write (snd out)) <= 1 /\
  (filter is_menu_write (snd out) = [] <->
     complete (productForm m) = false \/ myRestaurant m = None) /\
  (forall e, saved = Some e -> fst out = m /\ filter is_menu_read (snd out) = []) /\
  (complete (productForm m) = true -> myRestaurant m <> None -> saved = None ->
     showProductModal (fst out) = false /\ editingProduct (fst out) = None /\
     productForm (fst out) = empty_form /\
     length (filter is_menu_read (snd out)) = 1 /\
     products (fst out) =
       match listed with
       | Ok data => default [] data
       | Raised _ => products m
       end).
Proof.
  cbv zeta. unfold handleProductSubmit.
  destruct (complete (productForm m)) eqn:Hc; simpl.
  2: { split; [lia|]. split; [tauto|]. split; [auto|]. discriminate. }
  destruct (myRestaurant m) as [r|] eqn:Hr; simpl.
  2: { split; [lia|]. split; [tauto|]. split; [auto|]. congruence. }
  destruct saved as [e|].
  - assert (Hw : exists w, is_menu_write w = true /\
              (match editingProduct m with
               | Some editing =>
                   Ask (UpdateProduct (food_item_id editing) (productData m r now))
               | None => Ask (InsertProduct (productData m r now))
               end) = w).
    { destruct (editingProduct m); eexists; (split; [|reflexivity]); reflexivity. }
    destruct Hw as (w & Hw & ->). simpl.
    rewrite filter_cons_True by (rewrite Hw; exact I). simpl.
    split; [lia|]. split; [split; [discriminate|intros [?|?]; discriminate]|].
    split; [|discriminate].
    intros e' _. split; [reflexivity|].
    rewrite filter_cons_False; [reflexivity|].
    destruct w as [[]| | |]; simpl in *; try discriminate; auto.
  - pose proof (loadProducts_frame listed m) as Hload.
    destruct (loadProducts listed m) as [m1 events] eqn:Hrun.
    cbn [fst snd] in Hload.
    destruct Hload as (_ & _ & _ & _ & Hnow & Hreads & _).
    assert (Hw : exists w, is_menu_write w = true /\
              (match editingProduct m with
               | Some editing =>
                   Ask (UpdateProduct (food_item_id editing) (productData m r now))
               | None => Ask (InsertProduct (productData m r now))
               end) = w).
    { destruct (editingProduct m); eexists; (split; [|reflexivity]); reflexivity. }
    destruct Hw as (w & Hw & ->). cbn [fst snd].
    rewrite filter_cons_True by (rewrite Hw; exact I). rewrite Hnow.
    split; [simpl; lia|].
    split; [split; [discriminate|intros [?|?]; discriminate]|].
    split; [intros e [=]|]. intros _ _ _.
    split; [reflexivity|]. split; [reflexivity|]. split; [reflexivity|].
    unfold loadProducts in Hrun. rewrite Hr in Hrun.
    rewrite filter_cons_False
      by (destruct w as [[]| | |]; simpl in *; try discriminate; auto).
    destruct listed as [data|e]; injection Hrun as <- <-; split; reflexivity.
Qed.

(** X28. Editing writes to the row that was opened, adding makes a new
    one. After [openEditProduct] on a product, a submit without changes
    updates the row of that product's identifier and writes back its
    identifier and name, the restaurant of the dashboard, price and stock
    as parsed from their own text, and description and image address with
    null turned into the empty string. After the Add button, even when a
    product was open for editing, a submit inserts a row whose identifier
    is the restaurant's identifier, an underscore and the time; identifiers
    made at different times for one restaurant differ. *)
Theorem edit_writes_the_opened_row now saved listed m p r :
  myRestaurant m = Some r -> food_item_id p <> "" ->
  pr_name p <> "" -> toString (pr_price p) <> "" -> toString (pr_stock p) <> "" ->
  let opened := openEditProduct p m in
  head (snd (handleProductSubmit now saved listed opened)) =
    Some (Ask (UpdateProduct (food_item_id p)
                 {| pd_food_item_id := food_item_id p;
                    pd_name := pr_name p;
                    pd_price := parseFloat (toString (pr_price p));
                    pd_stock := parseInt (toString (pr_stock p));
                    pd_description := Profile.or_empty (pr_description p);
                    pd_image_url := Profile.or_empty (pr_image_url p);
                    pd_restaurant_id := rs_id r |})) /\
  (forall f, complete f = true ->
     head (snd (handleProductSubmit now saved listed
                  (typed_over f (openAddProduct opened)))) =
       Some (Ask (InsertProduct
                    {| pd_food_item_id := rs_id r +:+ "_" +:+ now;
                       pd_name := pf_name f;
                       pd_price := parseFloat (pf_price f);
                       pd_stock := parseInt (pf_stock f);
                       pd_description := pf_description f;
                       pd_image_url := pf_image_url f;
                       pd_restaurant_id := rs_id r |}))) /\
  (forall later, later <> now ->
     new_food_item_id (num:=num) None (rs_id r) later <>
     new_food_item_id (num:=num) None (rs_id r) now).
Proof.
  intros Hr Hid Hname Hprice Hstock. cbv zeta. split; [|split].
  - unfold handleProductSubmit, openEditProduct, complete, Registration.blank.
    cbn [productForm setShowProductModal setProductForm setEditingProduct
         pf_name pf_price pf_stock myRestaurant editingProduct].
    rewrite Hr.
    destruct (pr_name p) as [|? ?] eqn:E1; [congruence|].
    destruct (toString (pr_price p)) as [|? ?] eqn:E2; [congruence|].
    destruct (toString (pr_stock p)) as [|? ?] eqn:E3; [congruence|].
    cbn [truthy negb orb].
    unfold productData, new_food_item_id.
    cbn [productForm setShowProductModal setProductForm setEditingProduct
         pf_name pf_price pf_stock pf_description pf_image_url editingProduct
         fmap option_fmap option_map].
    destruct (food_item_id p) as [|? ?] eqn:E4; [congruence|].
    destruct saved as [e|]; [reflexivity|].
    destruct (loadProducts listed _) as [m1 events]. reflexivity.
  - intros f Hf. unfold handleProductSubmit, typed_over, openAddProduct.
    cbn [productForm setShowProductModal setProductForm setEditingProduct
         myRestaurant editingProduct openEditProduct].
    rewrite Hf, Hr. cbn [negb].
    destruct saved as [e|]; [reflexivity|].
    destruct (loadProducts listed _) as [m1 events]. reflexivity.
  - intros later Hne. unfold new_food_item_id. simpl.
    intros E. apply Hne.
    apply HistoryFacts.append_inj_l in E. apply HistoryFacts.append_inj_l in E.
    exact E.
Qed.

(** X29. Nothing is deleted without confirmation. [handleDeleteProduct]
    asks first; declined, it issues no call and leaves everything as it
    was; confirmed, it issues exactly one delete, for the identifier it was
    given. A refused delete leaves the menu as it was and is not followed by
    a read; the sidebar, the form and the product being edited are never
    touched. *)
Theorem delete_needs_confirmation foodItemId confirmed deleted listed m :
  let out := handleDeleteProduct foodItemId confirmed deleted listed m in
  filter is_menu_write (snd out) =
    (if confirmed then [Ask (DeleteProduct foodItemId)] else []) /\
  head (snd out) = Some (Confirm "Are you sure you want to delete this product?") /\
  (confirmed = false -> fst out = m /\ length (snd out) = 1) /\
  (forall e, deleted = Some e ->
     fst out = m /\ filter is_menu_read (snd out) = []) /\
  showProductModal (fst out) = showProductModal m /\
  editingProduct (fst out) = editingProduct m /\
  productForm (fst out) = productForm m.
Proof.
  cbv zeta. unfold handleDeleteProduct.
  pose proof (loadProducts_frame listed m) as Hload.
  destruct (loadProducts listed m) as [m1 events]. cbn [fst snd] in Hload.
  destruct Hload as (_ & Hmodal & Hedit & Hform & Hnow & _ & _).
  destruct confirmed; cbn [negb].
  - destruct deleted as [e|]; cbn [fst snd].
    + repeat split; auto; discriminate.
    + rewrite filter_cons_False by (simpl; tauto).
      rewrite filter_cons_True by exact I. rewrite Hnow.
      repeat split; auto; discriminate.
  - cbn [fst snd]. repeat split; auto.
Qed.

End Facts.

(** *** The properties on the sample menu *)

Section OnSamples.
Import Samples.
#[local] Existing Instance whole_amounts.

(** Opening the sample dish and saving it as it is. *)
Lemma edit_writes_the_opened_row_witness :
  head (snd (handleProductSubmit "1714730400000" None (Ok (Some [adobo]))
               (openEditProduct adobo sample_menu))) =
  Some (Ask (UpdateProduct "ra_1714644000000"
               {| pd_food_item_id := "ra_1714644000000";
                  pd_name := "Chicken Adobo";
                  pd_price := 120%Z;
                  pd_stock := 25%Z;
                  pd_description := "";
                  pd_image_url := "https://img.example/adobo.png";
                  pd_restaurant_id := "ra" |})).
Proof.
  refine (proj1 (edit_writes_the_opened_row "1714730400000" None
                   (Ok (Some [adobo])) sample_menu adobo my_restaurant
                   eq_refl _ _ _ _)); discriminate.
Defined.

End OnSamples.

End MenuFacts.

(** ** The map preview *)

Module MapPreviewFacts.
Import JsString JsStringFacts MapPreview.

Lemma append_assoc (x y z : string) : (x +:+ y) +:+ z = x +:+ (y +:+ z).
Proof.
  induction x as [|c x IH]; [reflexivity|].
  change ((String c x +:+ y) +:+ z) with (String c ((x +:+ y) +:+ z)).
  rewrite IH. reflexivity.
Qed.

Lemma all_chars_app test s t :
  all_chars test (s +:+ t) = (all_chars test s && all_chars test t)%bool.
Proof.
  induction s as [|c s IH]; simpl; [reflexivity|].
  rewrite IH. apply Bool.andb_assoc.
Qed.

Lemma hex_digit_encoded n : n < 16 -> encoded_char (hex_digit n) = true.
Proof.
  intros Hn. do 16 (destruct n as [|n]; [reflexivity|]). lia.
Qed.

Lemma percent_encoded byte :
  byte < 256 -> all_chars encoded_char (percent byte) = true.
Proof.
  intros Hb. unfold percent. cbn [all_chars].
  rewrite !hex_digit_encoded; [reflexivity| |].
  - apply Nat.mod_upper_bound. lia.
  - apply Nat.Div0.div_lt_upper_bound. lia.
Qed.

Lemma nat_of_ascii_bound c : nat_of_ascii c < 256.
Proof. apply nat_ascii_bounded. Qed.

Lemma encodeURIComponent_encoded s :
  all_chars encoded_char (encodeURIComponent s) = true.
Proof.
  induction s as [|c s IH]; [reflexivity|]. cbn [encodeURIComponent].
  rewrite all_chars_app, IH, Bool.andb_true_r.
  destruct (unreserved c) eqn:Hu.
  - simpl. unfold encoded_char. rewrite Hu. reflexivity.
  - unfold utf8. pose proof (nat_of_ascii_bound c) as Hc.
    destruct (Nat.ltb_spec (nat_of_ascii c) 128) as [Hlt|Hge].
    + cbn [map String.concat].
      rewrite percent_encoded by lia. reflexivity.
    + cbn [map String.concat]. rewrite ?all_chars_app.
      assert (nat_of_ascii c / 64 < 4) by (apply Nat.Div0.div_lt_upper_bound; lia).
      assert (nat_of_ascii c mod 64 < 64) by (apply Nat.mod_upper_bound; lia).
      rewrite !percent_encoded by lia. reflexivity.
Qed.

Lemma encodeURIComponent_app s t :
  encodeURIComponent (s +:+ t) = encodeURIComponent s +:+ encodeURIComponent t.
Proof.
  induction s as [|c s IH]; [reflexivity|]. cbn [encodeURIComponent String.append].
  change (String c s +:+ t) with (String c (s +:+ t)).
  cbn [encodeURIComponent]. rewrite IH.
  destruct (unreserved c); [reflexivity|].
  symmetry. apply append_assoc.
Qed.

Lemma trimEnd_nonws c s :
  is_ws c = false -> trimEnd (String c s) = String c (trimEnd s).
Proof.
  intros Hc. cbn [trimEnd]. destruct (trimEnd s) as [|e t] eqn:E.
  - rewrite Hc. reflexivity.
  - reflexivity.
Qed.

Lemma trimEnd_cons c s d t :
  trimEnd s = String d t -> trimEnd (String c s) = String c (String d t).
Proof. intros E. cbn [trimEnd]. rewrite E. reflexivity. Qed.

Lemma trimEnd_space s : trimEnd (s +:+ " ") = trimEnd s.
Proof.
  induction s as [|c s IH]; [reflexivity|].
  change (String c s +:+ " ") with (String c (s +:+ " ")).
  cbn [trimEnd]. rewrite IH. reflexivity.
Qed.

(** The query is the city followed by what the two inputs leave once white
    space is cut at the end. *)
Lemma query_city barangay addressDetail :
  query barangay addressDetail =
  "Iligan City" +:+
  trimEnd (" " +:+ Profile.or_empty barangay +:+ " " +:+
           Profile.or_empty addressDetail).
Proof.
  unfold query, trim.
  set (tail := " " +:+ Profile.or_empty barangay +:+ " " +:+
               Profile.or_empty addressDetail).
  change ("Iligan City " +:+ Profile.or_empty barangay +:+ " " +:+
          Profile.or_empty addressDetail) with ("Iligan City" +:+ tail).
  change (trimStart ("Iligan City" +:+ tail)) with ("Iligan City" +:+ tail).
  pose proof (trimEnd_nonws "y" tail eq_refl) as E.
  apply (trimEnd_cons "t") in E. apply (trimEnd_cons "i") in E.
  apply (trimEnd_cons "C") in E. apply (trimEnd_cons " ") in E.
  apply (trimEnd_cons "n") in E. apply (trimEnd_cons "a") in E.
  apply (trimEnd_cons "g") in E. apply (trimEnd_cons "i") in E.
  apply (trimEnd_cons "l") in E. apply (trimEnd_cons "I") in E.
  exact E.
Qed.

Lemma all_chars_In test s c :
  all_chars test s = true -> In c (list_ascii_of_string s) -> test c = true.
Proof.
  induction s as [|d s IH]; simpl; [tauto|].
  intros [Hd Hs]%andb_prop [<-|Hin]; auto.
Qed.

(** X30. The address of the map is well formed whatever is typed. For
    every barangay and address detail, the address is
    [https://www.google.com/maps?q=Iligan%20City], a place and
    [&output=embed]; the place consists of unreserved characters and
    percent signs only, so that no [&], [=], [#], [?], [/], [+] or blank of
    the input reaches the address; with neither input the place is empty,
    and with a barangay alone it is [%20] followed by the encoded
    barangay. *)
Theorem mapUrl_is_well_formed barangay addressDetail :
  exists place,
    mapUrl barangay addressDetail =
      "https://www.google.com/maps?q=Iligan%20City" +:+ place +:+
      "&output=embed" /\
    all_chars encoded_char place = true /\
    (forall c, In c (list_ascii_of_string place) ->
       ~ In c ["&"; "="; "#"; "?"; "/"; "+"; " "]%char) /\
    (truthy barangay = false -> truthy addressDetail = false -> place = "") /\
    (forall b, barangay = Some b -> b <> "" -> trimEnd b = b ->
       truthy addressDetail = false ->
       place = "%20" +:+ encodeURIComponent b).
Proof.
  exists (encodeURIComponent
            (trimEnd (" " +:+ Profile.or_empty barangay +:+ " " +:+
                      Profile.or_empty addressDetail))).
  unfold mapUrl. rewrite query_city, encodeURIComponent_app.
  split; [reflexivity|]. split; [apply encodeURIComponent_encoded|].
  split; [|split].
  - intros c Hin Hbad.
    pose proof (all_chars_In _ _ c (encodeURIComponent_encoded _) Hin) as Hc.
    simpl in Hbad.
    destruct Hbad as [<-|[<-|[<-|[<-|[<-|[<-|[<-|[]]]]]]]]; discriminate Hc.
  - intros Hb Ha.
    assert (Eb : Profile.or_empty barangay = "")
      by (destruct barangay as [[|? ?]|]; [reflexivity|discriminate|reflexivity]).
    assert (Ea : Profile.or_empty addressDetail = "")
      by (destruct addressDetail as [[|? ?]|]; [reflexivity|discriminate|reflexivity]).
    rewrite Eb, Ea. reflexivity.
  - intros b -> Hne Hb Ha.
    assert (Ea : Profile.or_empty addressDetail = "")
      by (destruct addressDetail as [[|? ?]|]; [reflexivity|discriminate|reflexivity]).
    rewrite Ea.
    assert (Eb : Profile.or_empty (Some b) = b)
      by (destruct b; [congruence|reflexivity]).
    rewrite Eb.
    change (" " +:+ b +:+ " " +:+ "") with (String " " (b +:+ " ")).
    destruct b as [|d b']; [congruence|].
    erewrite trimEnd_cons.
    2: { rewrite trimEnd_space. rewrite Hb. reflexivity. }
    reflexivity.
Qed.

(** The address for barangay Tibanga, and for a detail with an ampersand
    and an e-acute. *)
Example mapUrl_samples :
  mapUrl (Some "Tibanga") None =
    "https://www.google.com/maps?q=Iligan%20City%20Tibanga&output=embed" /\
  mapUrl None None =
    "https://www.google.com/maps?q=Iligan%20City&output=embed" /\
  mapUrl (Some "Tibanga") (Some ("A&B caf" +:+ String (ascii_of_nat 233) "")) =
    "https://www.google.com/maps?q=Iligan%20City%20Tibanga%20A%26B%20caf%C3%A9&output=embed".
Proof. repeat split. Qed.

End MapPreviewFacts.
